(** * GLaDOS voice generator: job queue, worker loop and web session handler

    A shallow embedding of
      - [voice-generator/worker/processor.py]: the SQLite job table
        [audio_entries], [claim_pending_entry], [mark_success],
        [mark_error], [process_entry] and the polling loop of [main];
      - [glados.py]: [get_ai_response_with_session], and the command-line
        program: [get_models], [spinner], [get_ai_response],
        [generate_tts], [generate_audio_with_spinner], [play_and_type],
        [speak_mode], [say_mode] and [main];
      - [web/server.py]: [safe_send] and [websocket_handler].

    Conventions.  A Python [str] is the [string] of its UTF-8 bytes; a
    timestamp written by [datetime('now')] is an integer, in seconds,
    supplied by the caller; the table is
    the list of its rows in the order in which the engine scans them.
    Whatever the environment decides (the clock, the synthesizer, the
    [claude] process, the socket, a random draw, a fault of a driver) is
    an argument of the function that meets it. *)

From Stdlib Require Import ZArith String Ascii List Lia Bool DecimalString Sorted.
From Stdlib Require DecimalPos DecimalZ.
From stdpp Require Import base tactics option list strings.

Local Open Scope string_scope.
Local Open Scope Z_scope.

(** ** Python strings

    A [str] is held as the [string] of its UTF-8 bytes.  A character (a
    code point) is a lead byte together with the continuation bytes
    [10xxxxxx] that follow it; indexing, slicing and [len] count
    characters, not bytes. *)

Definition is_continuation (c : ascii) : bool :=
  let n := N_of_ascii c in ((128 <=? n) && (n <? 192))%N.

(** The characters of a [str] in order, each as its bytes. *)
Fixpoint chars (s : string) : list string :=
  match s with
  | EmptyString => []
  | String c rest =>
      let first_continues :=
        match rest with String d _ => is_continuation d | EmptyString => false end in
      match chars rest with
      | chunk :: more =>
          if first_continues then String c chunk :: more
          else String c EmptyString :: chunk :: more
      | [] => [String c EmptyString]
      end
  end.

(** [''.join(l)] *)
Definition join (l : list string) : string := fold_right String.append EmptyString l.

(** [len(s)] *)
Definition len (s : string) : nat := length (chars s).

(** [s[:n]] on a [str]: its first [n] characters. *)
Definition slice_to (n : nat) (s : string) : string := join (take n (chars s)).

(** The UTF-8 bytes of a code point. *)
Definition utf8 (cp : N) : string :=
  let b := ascii_of_N in
  (if cp <? 128 then String (b cp) EmptyString
   else if cp <? 2048 then
     String (b (192 + cp / 64)) (String (b (128 + cp mod 64)) EmptyString)
   else if cp <? 65536 then
     String (b (224 + cp / 4096))
       (String (b (128 + (cp / 64) mod 64)) (String (b (128 + cp mod 64)) EmptyString))
   else
     String (b (240 + cp / 262144))
       (String (b (128 + (cp / 4096) mod 64))
          (String (b (128 + (cp / 64) mod 64))
             (String (b (128 + cp mod 64)) EmptyString))))%N.

(** The longest suffix whose first element fails [p]. *)
Fixpoint drop_while {A} (p : A -> bool) (l : list A) : list A :=
  match l with
  | [] => []
  | x :: rest => if p x then drop_while p rest else l
  end.

(** A list of byte strings is the split of a text into characters: every
    element is one byte followed by continuation bytes only, and after
    the first every element begins with a byte that starts a character. *)
Fixpoint well_split (l : list string) : bool :=
  match l with
  | [] => true
  | chunk :: more =>
      match chunk with
      | EmptyString => false
      | String _ tail => forallb is_continuation (list_ascii_of_string tail)
      end
      && match more with
         | [] => true
         | EmptyString :: _ => false
         | String d _ :: _ => negb (is_continuation d)
         end
      && well_split more
  end.

(** ** The job table of [processor.py] *)

Module JobStore.

(** The four values the [status] column takes. *)
Inductive job_status := Pending | Processing | Success | Error.

#[export] Instance job_status_eq_dec : EqDecision job_status.
Proof. solve_decision. Defined.

(** One row of [audio_entries]. *)
Record audio_entry := mk_entry {
  entry_id : Z;
  text : string;
  status : job_status;
  created_at : Z;
  started_at : option Z;
  completed_at : option Z;
  audio_path : option string;
  duration_ms : option Z;
  error_message : option string }.

Abbreviation table := (list audio_entry).

(** The [dict] returned by [claim_pending_entry]: [{'id': .., 'text': ..}]. *)
Definition entry := (Z * string)%type.

Definition entry_of (r : audio_entry) : entry := (entry_id r, text r).

(** [SET status = 'processing', started_at = datetime('now')] *)
Definition set_processing (now : Z) (r : audio_entry) : audio_entry :=
  mk_entry (entry_id r) (text r) Processing (created_at r) (Some now)
           (completed_at r) (audio_path r) (duration_ms r) (error_message r).

(** [SET status = 'success', audio_path = ?, duration_ms = ?,
        completed_at = datetime('now')] *)
Definition set_success (path : string) (dur now : Z) (r : audio_entry) : audio_entry :=
  mk_entry (entry_id r) (text r) Success (created_at r) (started_at r)
           (Some now) (Some path) (Some dur) (error_message r).

(** [SET status = 'error', error_message = ?, completed_at = datetime('now')] *)
Definition set_error (msg : string) (now : Z) (r : audio_entry) : audio_entry :=
  mk_entry (entry_id r) (text r) Error (created_at r) (started_at r)
           (Some now) (audio_path r) (duration_ms r) (Some msg).

(** [UPDATE audio_entries SET .. WHERE ..]: every row satisfying the
    condition is rewritten, the others are left alone; the second
    component is [cursor.rowcount]. *)
Definition sql_update (P : audio_entry -> Prop) `{!forall r, Decision (P r)}
    (set : audio_entry -> audio_entry) (db : table) : table * nat :=
  ((fun r => if decide (P r) then set r else r) <$> db, length (filter P db)).

(** [ORDER BY created_at ASC LIMIT 1]: the row with the least
    [created_at].  Among rows with equal [created_at] the query names no
    further key; the engine's order among them is taken to be the order
    in which it scans the table, so the first of them is returned. *)
Fixpoint order_by_created_at_limit_1 (rows : table) : option audio_entry :=
  match rows with
  | [] => None
  | r :: rest =>
      match order_by_created_at_limit_1 rest with
      | Some m => if created_at m <? created_at r then Some m else Some r
      | None => Some r
      end
  end.

(** [SELECT id, text FROM audio_entries WHERE status = 'pending'
     ORDER BY created_at ASC LIMIT 1], then [cursor.fetchone()]. *)
Definition select_oldest_pending (db : table) : option entry :=
  entry_of <$> order_by_created_at_limit_1 (filter (fun r => status r = Pending) db).

(** [UPDATE audio_entries SET status = 'processing', started_at = datetime('now')
     WHERE id = ? AND status = 'pending'] *)
Definition update_to_processing (now : Z) (eid : Z) (db : table) : table * nat :=
  sql_update (fun r => entry_id r = eid /\ status r = Pending) (set_processing now) db.

(** [claim_pending_entry(conn)]: the result and the table afterwards. *)
Definition claim_pending_entry (now : Z) (db : table) : option entry * table :=
  match select_oldest_pending db with
  | None => (None, db)
  | Some row =>
      let '(db', rowcount) := update_to_processing now (fst row) db in
      if (rowcount =? 0)%nat then (None, db') else (Some row, db')
  end.

(** [mark_success(conn, entry_id, audio_path, duration_ms)] *)
Definition mark_success (now : Z) (eid : Z) (path : string) (dur : Z) (db : table) : table :=
  fst (sql_update (fun r => entry_id r = eid) (set_success path dur now) db).

(** [mark_error(conn, entry_id, error_message)]; the message is stored as
    [str(error_message)[:500]]. *)
Definition mark_error (now : Z) (eid : Z) (msg : string) (db : table) : table :=
  fst (sql_update (fun r => entry_id r = eid) (set_error (slice_to 500 msg) now) db).

(** The operations a client of the table can issue, for statements about
    arbitrary sequences of them. *)
Inductive store_op :=
  | OpClaim (now : Z)
  | OpMarkSuccess (now : Z) (eid : Z) (path : string) (dur : Z)
  | OpMarkError (now : Z) (eid : Z) (msg : string).

Definition apply_op (db : table) (o : store_op) : table :=
  match o with
  | OpClaim now => snd (claim_pending_entry now db)
  | OpMarkSuccess now eid path dur => mark_success now eid path dur db
  | OpMarkError now eid msg => mark_error now eid msg db
  end.

Definition apply_ops (ops : list store_op) (db : table) : table :=
  fold_left apply_op ops db.

(** Position of a status along pending -> processing -> {success, error}. *)
Definition rank (s : job_status) : nat :=
  match s with Pending => 0 | Processing => 1 | Success | Error => 2 end.

(** *** Several workers claiming at once

    Each worker runs [claim_pending_entry] on a connection of its own,
    opened by [get_db_connection] in the driver's default transaction
    mode.  The SELECT reads the committed table.  The UPDATE opens a
    transaction and needs the write lock of the database: when another
    connection holds it the statement waits, retrying, and once
    [busy_timeout] has passed it gives up with
    [OperationalError: database is locked].  [conn.commit()] publishes
    the change and gives the lock back.  The path that returns [None]
    after an UPDATE of zero rows neither commits nor rolls back: its
    transaction, and the lock with it, lasts until [main] closes the
    connection, which it does after [time.sleep(POLL_INTERVAL)]. *)

(** [PRAGMA busy_timeout = 5000], which replaces the [timeout=10.0] given
    to [sqlite3.connect], and [POLL_INTERVAL = 2.0], in seconds. *)
Definition BUSY_TIMEOUT : Z := 5.
Definition POLL_INTERVAL : Z := 2.

Inductive attempt :=
  | AtStart                                (* SELECT not yet issued *)
  | AtSelected (row : entry)               (* row fetched, UPDATE not yet issued *)
  | AtWaiting (row : entry) (since : Z)    (* UPDATE issued, the write lock is busy *)
  | AtUpdated (row : entry) (db' : table)  (* one row updated, commit not yet issued *)
  | AtReturned (res : option entry)        (* value returned to the caller *)
  | AtLocked.                              (* OperationalError: database is locked *)

(** The attempt has left [claim_pending_entry]. *)
Definition ended (a : attempt) : bool :=
  match a with AtReturned _ | AtLocked => true | _ => false end.

(** The next statement of worker [i], executed at time [now] on the
    committed table [db] while [lock] names the connection holding the
    write lock and the time it took it.  For a worker that has returned,
    the next statement is the [conn.close()] of [main], which matters
    only if its transaction is still open. *)
Definition step_attempt (i : nat) (now : Z) (a : attempt) (db : table)
    (lock : option (nat * Z)) : attempt * table * option (nat * Z) :=
  let update row since :=
    match lock with
    | Some _ =>
        if BUSY_TIMEOUT <=? now - since then (AtLocked, db, lock)
        else (AtWaiting row since, db, lock)
    | None =>
        let '(db', rowcount) := update_to_processing now (fst row) db in
        if (rowcount =? 0)%nat then (AtReturned None, db, Some (i, now))
        else (AtUpdated row db', db, Some (i, now))
    end in
  match a with
  | AtStart =>
      match select_oldest_pending db with
      | None => (AtReturned None, db, lock)
      | Some row => (AtSelected row, db, lock)
      end
  | AtSelected row => update row now
  | AtWaiting row since => update row since
  | AtUpdated row db' => (AtReturned (Some row), db', None)
  | AtReturned res =>
      match lock with
      | Some (holder, since) =>
          if bool_decide (holder = i) && (POLL_INTERVAL <=? now - since)
          then (a, db, None)
          else (a, db, lock)
      | None => (a, db, lock)
      end
  | AtLocked => (a, db, lock)
  end.

(** The committed table, the holder of the write lock and the workers. *)
Record system := mk_system {
  sys_db : table;
  sys_lock : option (nat * Z);
  sys_attempts : list attempt }.

(** One scheduling decision: worker [i] executes its next statement at
    time [now].  A worker that does not exist idles. *)
Definition step_system (s : system) (d : nat * Z) : system :=
  match sys_attempts s !! fst d with
  | Some a =>
      let '(a', db', lock') := step_attempt (fst d) (snd d) a (sys_db s) (sys_lock s) in
      mk_system db' lock' (<[fst d := a']> (sys_attempts s))
  | None => s
  end.

Definition run_schedule (sched : list (nat * Z)) (s : system) : system :=
  fold_left step_system sched s.

Definition start_system (n : nat) (db : table) : system :=
  mk_system db None (replicate n AtStart).

(** A worker that competes for the one pending row [j] without having
    got it: it is on its way or has ended empty-handed. *)
Definition contender (j : audio_entry) (a : attempt) : Prop :=
  match a with
  | AtStart | AtLocked | AtReturned None => True
  | AtSelected e | AtWaiting e _ => e = entry_of j
  | AtUpdated _ _ | AtReturned (Some _) => False
  end.

(** What every reachable state satisfies when the table started as [db0]
    with [j] its one pending row.  Until the commit the table is [db0]
    and nobody has returned: either the lock is free and every worker is
    before its UPDATE, or the lock is with the one worker that has
    updated [j].  From the commit on the table is [db0] with [j] set to
    processing, one worker has returned [j], and every other one is a
    contender. *)
Definition race_inv (j : audio_entry) (db0 : table) (s : system) : Prop :=
  (sys_db s = db0
   /\ match sys_lock s with
      | None =>
          forall i a, sys_attempts s !! i = Some a ->
                      a = AtStart \/ a = AtSelected (entry_of j)
      | Some (h, _) =>
          (exists t, sys_attempts s !! h
                     = Some (AtUpdated (entry_of j)
                               (fst (update_to_processing t (entry_id j) db0))))
          /\ forall i a, i <> h -> sys_attempts s !! i = Some a ->
                         contender j a /\ a <> AtReturned None
      end)
  \/ (exists w t,
         sys_db s = fst (update_to_processing t (entry_id j) db0)
         /\ sys_attempts s !! w = Some (AtReturned (Some (entry_of j)))
         /\ forall i a, i <> w -> sys_attempts s !! i = Some a -> contender j a).

End JobStore.

(** ** Python exceptions and effects *)

(** The exception classes the three programs can meet.  The last two
    derive from [BaseException] only, so [except Exception] lets them
    through. *)
Inductive exc_class :=
  | JSONDecodeError | KeyError | IndexError | TypeError | AttributeError
  | OtherException
  | CancelledError | KeyboardInterrupt.

#[export] Instance exc_class_eq_dec : EqDecision exc_class.
Proof. solve_decision. Defined.

(** An exception instance: its class and [str(e)]. *)
Record py_exc := mk_exc { exc_cls : exc_class; exc_str : string }.

(** [isinstance(e, Exception)] *)
Definition is_Exception (e : py_exc) : bool :=
  match exc_cls e with
  | CancelledError | KeyboardInterrupt => false
  | _ => true
  end.

Inductive outcome (A : Type) :=
  | Returns (a : A)
  | Raises (e : py_exc).
Arguments Returns {A} a.
Arguments Raises {A} e.

(** Computations over a state [St] that may raise. *)
Definition M (St A : Type) : Type := St -> outcome A * St.

Definition ret {St A} (a : A) : M St A := fun s => (Returns a, s).

Definition raise {St A} (e : py_exc) : M St A := fun s => (Raises e, s).

Definition bind {St A B} (c : M St A) (k : A -> M St B) : M St B :=
  fun s =>
    match c s with
    | (Returns a, s') => k a s'
    | (Raises e, s') => (Raises e, s')
    end.

(** An external call whose result the environment has already decided. *)
Definition lift {St A} (o : outcome A) : M St A := fun s => (o, s).

(** An external call that returns nothing, with the exception it raises. *)
Definition lift_fault {St} (f : option py_exc) : M St unit :=
  fun s => match f with Some e => (Raises e, s) | None => (Returns tt, s) end.

(** [try: body  except ..: ..]: [handler e] is the suite of the first
    clause matching [e], or [None] when no clause matches. *)
Definition try_except {St A} (body : M St A) (handler : py_exc -> option (M St A)) : M St A :=
  fun s =>
    match body s with
    | (Returns a, s') => (Returns a, s')
    | (Raises e, s') =>
        match handler e with
        | Some h => h s'
        | None => (Raises e, s')
        end
    end.

(** [except Exception as e: h e] *)
Definition except_Exception {St A} (h : py_exc -> M St A) (e : py_exc) : option (M St A) :=
  if is_Exception e then Some (h e) else None.

(** What the environment raises, if anything, is an [Exception]. *)
Definition fault_ok (f : option py_exc) : bool :=
  match f with Some e => is_Exception e | None => true end.

Definition outcome_ok {A} (o : outcome A) : bool :=
  match o with Raises e => is_Exception e | Returns _ => true end.

(** The computation raises nothing that [except Exception] would miss. *)
Definition contained {St A} (c : M St A) : Prop :=
  forall s e s', c s = (Raises e, s') -> is_Exception e = true.

Declare Scope py_scope.
Delimit Scope py_scope with py.
Notation "x <- c ;; k" := (bind c (fun x => k))
  (at level 100, c at next level, k at level 200, right associativity) : py_scope.
Notation "c ;; k" := (bind c (fun _ => k))
  (at level 100, k at level 200, right associativity) : py_scope.
Local Open Scope py_scope.

(** ** The worker loop of [processor.py] *)

Module Worker.
Import JobStore.

(** The int16 sample array returned by [generate_tts]. *)
Definition audio := list Z.

Inductive wevent :=
  | LogInfo (msg : string)
  | LogError (msg : string)
  | Sleep                                  (* time.sleep(POLL_INTERVAL) *)
  | WriteWav (filename : string) (samples : audio).

Record wstate := mk_wstate { db : table; wlog : list wevent }.

Definition emit (ev : wevent) : M wstate unit :=
  fun s => (Returns tt, mk_wstate (db s) (wlog s ++ [ev])).

(** What the outside world does during one iteration of the loop: the
    clock, the faults of the database driver, the synthesizer, the file
    system, and whether the operator's interrupt arrives during a sleep
    ([time.sleep] itself raises nothing else). *)
Record iter_world := mk_world {
  t_claim : Z;                             (* datetime('now') in the claim *)
  t_done : Z;                              (* datetime('now') in mark_success / mark_error *)
  w_connect : option py_exc;               (* get_db_connection() *)
  w_claim : option py_exc;                 (* sqlite3 fault inside claim_pending_entry *)
  w_tts : outcome audio;                   (* generate_tts(text) *)
  w_write_wav : option py_exc;             (* write_wav(..) *)
  w_duration : outcome Z;                  (* get_audio_duration_ms(..) *)
  w_mark_success : option py_exc;          (* sqlite3 fault inside mark_success *)
  w_mark_error : option py_exc;            (* sqlite3 fault inside mark_error *)
  w_sleep_idle : bool;                     (* Ctrl-C during time.sleep, else branch *)
  w_close : option py_exc;                 (* conn.close() *)
  w_sleep_backoff : bool                   (* Ctrl-C during time.sleep, except clause *)
}.

(** [f"{entry_id}"] *)
Definition format_id (eid : Z) : string := NilZero.string_of_int (Z.to_int eid).

(** A database call: the driver either raises before anything is
    committed or the statement takes effect. *)
Definition db_call {A} (fault : option py_exc) (f : table -> A * table) : M wstate A :=
  fun s =>
    match fault with
    | Some e => (Raises e, s)
    | None => let '(a, db') := f (db s) in (Returns a, mk_wstate db' (wlog s))
    end.

(** [time.sleep(POLL_INTERVAL)] *)
Definition sleep (interrupted : bool) : M wstate unit :=
  if interrupted then raise (mk_exc KeyboardInterrupt "") else emit Sleep.

Section Iteration.
Variable w : iter_world.

(** [process_entry(entry)] *)
Definition process_entry (e : entry) : M wstate (string * Z) :=
  let entry_id := fst e in
  let text := snd e in
  emit (LogInfo ("Processing entry " ++ format_id entry_id ++ ": " ++ slice_to 50 text
                 ++ (if (50 <? len text)%nat then "..." else ""))) ;;
  samples <- lift (w_tts w) ;;
  let audio_filename := format_id entry_id ++ ".wav" in
  lift_fault (w_write_wav w) ;;
  emit (WriteWav audio_filename samples) ;;
  duration_ms <- lift (w_duration w) ;;
  emit (LogInfo ("Generated " ++ audio_filename
                 ++ " (" ++ format_id duration_ms ++ "ms)")) ;;
  ret ("audio/" ++ audio_filename, duration_ms).

(** The suite of the inner [try] and its [except Exception] clause. *)
Definition handle_entry (e : entry) : M wstate unit :=
  try_except
    (r <- process_entry e ;;
     db_call (w_mark_success w)
       (fun d => (tt, mark_success (t_done w) (fst e) (fst r) (snd r) d)))
    (except_Exception (fun exn =>
       emit (LogError ("Entry " ++ format_id (fst e) ++ " failed: " ++ exc_str exn)) ;;
       db_call (w_mark_error w)
         (fun d => (tt, mark_error (t_done w) (fst e) (exc_str exn) d)))).

(** The suite of the outer [try]. *)
Definition iteration_body : M wstate unit :=
  lift_fault (w_connect w) ;;
  claimed <- db_call (w_claim w) (claim_pending_entry (t_claim w)) ;;
  match claimed with
  | Some e => handle_entry e
  | None => sleep (w_sleep_idle w)
  end ;;
  lift_fault (w_close w).

(** How one pass through [while True:] ends. *)
Inductive loop_ctl :=
  | Continue                               (* back to the top of the loop *)
  | Break                                  (* [break]: main() returns *)
  | Propagate (e : py_exc).                (* exception leaves main() *)

(** One pass through the loop: the outer [try] with its two clauses. *)
Definition iteration (s : wstate) : loop_ctl * wstate :=
  match iteration_body s with
  | (Returns _, s') => (Continue, s')
  | (Raises e, s') =>
      if decide (exc_cls e = KeyboardInterrupt) then
        (Break, mk_wstate (db s') (wlog s' ++ [LogInfo "Worker stopped by user"]))
      else if is_Exception e then
        match (emit (LogError ("Worker error: " ++ exc_str e)) ;;
               sleep (w_sleep_backoff w)) s' with
        | (Returns _, s'') => (Continue, s'')
        | (Raises e', s'') => (Propagate e', s'')
        end
      else (Propagate e, s')
  end.

End Iteration.

(** How far the loop has come after the worlds supplied. *)
Inductive loop_state :=
  | Running (s : wstate)                   (* still looping *)
  | Stopped (s : wstate)                   (* left by [break] *)
  | Crashed (e : py_exc) (s : wstate).     (* left by an exception *)

(** [while True:] unrolled over the worlds of the successive passes. *)
Fixpoint main_loop (ws : list iter_world) (s : wstate) : loop_state :=
  match ws with
  | [] => Running s
  | w :: rest =>
      match iteration w s with
      | (Continue, s') => main_loop rest s'
      | (Break, s') => Stopped s'
      | (Propagate e, s') => Crashed e s'
      end
  end.

(** Every fault the world injects in this pass is an [Exception], and no
    interrupt arrives during a sleep. *)
Definition no_interrupt (w : iter_world) : bool :=
  fault_ok (w_connect w) && fault_ok (w_claim w) && outcome_ok (w_tts w)
  && fault_ok (w_write_wav w) && outcome_ok (w_duration w)
  && fault_ok (w_mark_success w) && fault_ok (w_mark_error w)
  && negb (w_sleep_idle w) && fault_ok (w_close w)
  && negb (w_sleep_backoff w).

End Worker.

(** ** Python values decoded from JSON *)

Module Py.

(** What [json.loads] returns, which is also the shape of every dynamic
    value the two web-facing functions handle: [None], [bool], [int],
    [str], [list] and [dict] (as the list of its items, keys distinct).
    Numbers are integers here. *)
#[local] Unset Elimination Schemes.
Inductive json :=
  | JNull
  | JBool (b : bool)
  | JNum (n : Z)
  | JStr (s : string)
  | JArr (l : list json)
  | JObj (items : list (string * json)).
#[local] Set Elimination Schemes.

(** [bool(v)] *)
Definition truthy (v : json) : bool :=
  match v with
  | JNull => false
  | JBool b => b
  | JNum n => negb (n =? 0)
  | JStr s => negb (String.eqb s "")
  | JArr l => match l with [] => false | _ => true end
  | JObj items => match items with [] => false | _ => true end
  end.

(** [type(v).__name__] *)
Definition type_name (v : json) : string :=
  match v with
  | JNull => "NoneType" | JBool _ => "bool" | JNum _ => "int"
  | JStr _ => "str" | JArr _ => "list" | JObj _ => "dict"
  end.

Fixpoint assoc (key : string) (items : list (string * json)) : option json :=
  match items with
  | [] => None
  | (k, v) :: rest => if String.eqb k key then Some v else assoc key rest
  end.

(** [d[key]] with a [str] key.  Only a [dict] can answer; a missing key
    is a [KeyError], every other receiver a [TypeError]. *)
Definition getitem (d : json) (key : string) : outcome json :=
  match d with
  | JObj items =>
      match assoc key items with
      | Some v => Returns v
      | None => Raises (mk_exc KeyError ("'" ++ key ++ "'"))
      end
  | JArr _ => Raises (mk_exc TypeError "list indices must be integers or slices, not str")
  | JStr _ => Raises (mk_exc TypeError "string indices must be integers, not 'str'")
  | _ => Raises (mk_exc TypeError ("'" ++ type_name d ++ "' object is not subscriptable"))
  end.

(** [d.get(key, default)] *)
Definition dict_get (d : json) (key : string) (default : json) : outcome json :=
  match d with
  | JObj items =>
      match assoc key items with
      | Some v => Returns v
      | None => Returns default
      end
  | _ => Raises (mk_exc AttributeError
                   ("'" ++ type_name d ++ "' object has no attribute 'get'"))
  end.

End Py.

(** ** [glados.py]: the AI responder *)

Module Glados.
Import Py.

Definition GLADOS_SYSTEM_PROMPT : string :=
  "You are GLaDOS from Portal. Respond in character: sardonic, passive-aggressive, darkly humorous. Keep responses brief (1-3 sentences). Never break character.".

Definition SPINNER_MESSAGES_thinking : list string :=
  [ "Aperture Science Testing Protocol...";
    "Consulting the mainframe...";
    "Processing your insignificant query...";
    "Calculating optimal sarcasm levels..." ].

Definition SPINNER_MESSAGES_generating : list string :=
  [ "Synthesizing vocal patterns...";
    "Warming up the neurotoxin-- voice module...";
    "Preparing test results...";
    "Generating audio for science...";
    "The cake is being prepared..." ].

(** [random.choice(seq)], the draw being the world's. *)
Definition random_choice (draw : nat) (seq : list string) : string :=
  nth (draw mod length seq) seq "".

(** The code points for which [str.isspace()] holds. *)
Definition WHITESPACE : list N :=
  [ 9; 10; 11; 12; 13; 28; 29; 30; 31; 32; 133; 160; 5760;
    8192; 8193; 8194; 8195; 8196; 8197; 8198; 8199; 8200; 8201; 8202;
    8232; 8233; 8239; 8287; 12288 ]%N.

(** [c.isspace()] for one character [c], given by its bytes. *)
Definition isspace (c : string) : bool :=
  existsb (fun cp => String.eqb c (utf8 cp)) WHITESPACE.

(** [s.lstrip()] *)
Definition lstrip (s : string) : string := join (drop_while isspace (chars s)).

(** [s.rstrip()] *)
Definition rstrip (s : string) : string :=
  join (rev (drop_while isspace (rev (chars s)))).

(** [s.strip()] *)
Definition strip (s : string) : string := rstrip (lstrip s).

(** [a or b] on two [str] values. *)
Definition str_or (a b : string) : string :=
  if String.eqb a "" then b else a.

(** The [CompletedProcess] of [subprocess.run(.., capture_output=True, text=True)]. *)
Record completed_process := mk_completed { stdout : string; stderr : string }.

Fixpoint all_str (args : list json) : option (list string) :=
  match args with
  | [] => Some []
  | JStr s :: rest =>
      match all_str rest with Some l => Some (s :: l) | None => None end
  | _ :: _ => None
  end.

Section Responder.
(** [json.loads]: [None] stands for [JSONDecodeError]. *)
Variable json_loads : string -> option json.
(** The operating system running a command line (here always the
    [claude] executable) to completion. *)
Variable spawn : list string -> outcome completed_process.

(** [subprocess.run(cmd, ..)]: every argument must be a [str]. *)
Definition subprocess_run (cmd : list json) : outcome completed_process :=
  match all_str cmd with
  | Some argv => spawn argv
  | None => Raises (mk_exc TypeError "expected str, bytes or os.PathLike object")
  end.

Definition loads (s : string) : outcome json :=
  match json_loads s with
  | Some v => Returns v
  | None => Raises (mk_exc JSONDecodeError "Expecting value")
  end.

(** The list [cmd], with [cmd.extend(['--resume', session_id])] applied
    when [session_id] is truthy. *)
Definition claude_cmd (prompt session_id : json) : list json :=
  app [ JStr "claude"; JStr "-p"; prompt;
        JStr "--system-prompt"; JStr GLADOS_SYSTEM_PROMPT;
        JStr "--allowedTools"; JStr "WebSearch"; JStr "WebFetch";
        JStr "--output-format"; JStr "json" ]
      (if truthy session_id then [JStr "--resume"; session_id] else []).

(** [get_ai_response_with_session(prompt, session_id)], returning the
    pair [(text, session_id)]. *)
Definition get_ai_response_with_session {St} (prompt session_id : json)
    : M St (json * json) :=
  result <- lift (subprocess_run (claude_cmd prompt session_id)) ;;
  try_except
    (data <- lift (loads (stdout result)) ;;
     text <- lift (getitem data "result") ;;
     new_session_id <- lift (getitem data "session_id") ;;
     ret (text, new_session_id))
    (fun e =>
       match exc_cls e with
       | JSONDecodeError | KeyError | IndexError =>
           Some (ret (JStr (str_or (strip (stdout result)) ("Error: " ++ stderr result)),
                      JNull))
       | _ => None
       end).

End Responder.
End Glados.

(** ** [web/server.py]: the session handler *)

Module Server.
Import Py Glados.

Inductive phase := Thinking | Generating.

(** [nframes / framerate], kept as the exact quotient. *)
Definition seconds := (Z * Z)%type.

(** The JSON frames the handler sends. *)
Inductive frame :=
  | FStatus (ph : phase) (message : string)
      (* {'type': 'status', 'phase': .., 'message': ..} *)
  | FResponse (text session_id : json) (audio_url : string) (audio_duration : seconds)
      (* {'type': 'response', ..} *)
  | FError (message : string).
      (* {'type': 'error', 'message': ..} *)

(** The state of the socket during one call of [safe_send]. *)
Inductive ws_status :=
  | WsClosed                               (* ws.closed is True *)
  | WsOpen                                 (* open, send_json succeeds *)
  | WsSendRaises (e : py_exc).             (* open, send_json raises e *)

Inductive event :=
  | EvClosedCheck (closed : bool)          (* ws.closed was read *)
  | EvSendJson (data : frame) (ok : bool)  (* ws.send_json(data) was called *)
  | EvLog (msg : string)                   (* a log line, by its fixed text *)
  | EvResponder (prompt session_id : json) (* get_ai_response_with_session called *)
  | EvTTS (text : json)                    (* generate_tts called *)
  | EvWriteWav (filename : string).

(** [n_sends] counts the calls of [safe_send] on this connection. *)
Record sstate := mk_sstate { n_sends : nat; trace : list event }.

Definition emit (ev : event) : M sstate unit :=
  fun s => (Returns tt, mk_sstate (n_sends s) (trace s ++ [ev])).

(** What the outside world does while one inbound message is handled. *)
Record request_world := mk_request {
  draw_thinking : nat;                     (* random.choice, first phase *)
  draw_generating : nat;                   (* random.choice, second phase *)
  rw_spawn : list string -> outcome completed_process;   (* the claude process *)
  rw_tts : outcome (list Z);               (* generate_tts(text) *)
  rw_uuid : string;                        (* uuid4().hex[:8] *)
  rw_write : option py_exc;                (* write(audio_path, 22050, audio) *)
  rw_nframes : outcome Z                   (* wave.open(..).getnframes() *)
}.

(** An inbound message, by [msg.type]. *)
Inductive ws_msg :=
  | MsgText (data : string)                (* WSMsgType.TEXT *)
  | MsgError                               (* WSMsgType.ERROR *)
  | MsgOther.                              (* any other type *)

Section Connection.
Variable json_loads : string -> option json.
(** The socket as the k-th call of [safe_send] finds it. *)
Variable ws : nat -> ws_status.

Definition next_status : M sstate ws_status :=
  fun s => (Returns (ws (n_sends s)), mk_sstate (S (n_sends s)) (trace s)).

Definition ws_closed (st : ws_status) : M sstate bool :=
  let closed := match st with WsClosed => true | _ => false end in
  emit (EvClosedCheck closed) ;; ret closed.

Definition ws_send_json (st : ws_status) (data : frame) : M sstate unit :=
  match st with
  | WsSendRaises e => emit (EvSendJson data false) ;; raise e
  | _ => emit (EvSendJson data true)
  end.

(** [safe_send(ws, data, client_id)] *)
Definition safe_send (data : frame) : M sstate bool :=
  st <- next_status ;;
  closed <- ws_closed st ;;
  if closed then
    emit (EvLog "Cannot send - connection closed") ;;
    ret false
  else
    try_except
      (ws_send_json st data ;; ret true)
      (except_Exception (fun e =>
         emit (EvLog ("Failed to send: " ++ exc_str e)) ;;
         ret false)).

(** The operand of an f-string of the form
    [{v[:n]}{'...' if len(v) > n else ''}]: it needs [v] to be sliceable. *)
Definition preview (v : json) : outcome unit :=
  match v with
  | JStr _ | JArr _ => Returns tt
  | JObj _ => Raises (mk_exc TypeError "unhashable type: 'slice'")
      (* a KeyError from Python 3.12 on; an Exception either way *)
  | _ => Raises (mk_exc TypeError ("'" ++ type_name v ++ "' object is not subscriptable"))
  end.

Section Request.
Variable rw : request_world.

(** From [audio = await ..generate_tts..] to the response frame. *)
Definition phase_complete (text new_session_id : json) : M sstate unit :=
  emit (EvTTS text) ;;
  _ <- lift (rw_tts rw) ;;
  let audio_filename := "output_" ++ rw_uuid rw ++ ".wav" in
  lift_fault (rw_write rw) ;;
  emit (EvWriteWav audio_filename) ;;
  nframes <- lift (rw_nframes rw) ;;
  let duration := (nframes, 22050) in
  emit (EvLog "Audio generated") ;;
  (* Phase 3: Complete *)
  _ <- safe_send (FResponse text new_session_id ("/audio/" ++ audio_filename) duration) ;;
  ret tt.

(** Phase 2: Generating audio. *)
Definition phase_generating (text new_session_id : json) : M sstate unit :=
  let generating_msg := random_choice (draw_generating rw) SPINNER_MESSAGES_generating in
  emit (EvLog ("Phase: " ++ generating_msg)) ;;
  sent <- safe_send (FStatus Generating generating_msg) ;;
  if negb sent then ret tt
  else phase_complete text new_session_id.

(** Phase 1: Thinking, the call of the responder and the test of its reply. *)
Definition phase_thinking (prompt session_id : json) : M sstate unit :=
  let thinking_msg := random_choice (draw_thinking rw) SPINNER_MESSAGES_thinking in
  emit (EvLog ("Phase: " ++ thinking_msg)) ;;
  sent <- safe_send (FStatus Thinking thinking_msg) ;;
  if negb sent then ret tt
  else
    emit (EvResponder prompt session_id) ;;
    reply <- get_ai_response_with_session json_loads (rw_spawn rw) prompt session_id ;;
    let text := fst reply in
    let new_session_id := snd reply in
    lift (preview text) ;;
    emit (EvLog "Claude response") ;;
    if negb (truthy text) then
      _ <- safe_send (FError "Failed to get AI response") ;; ret tt
    else phase_generating text new_session_id.

(** The suite of the [try] for one TEXT message; [continue] ends it. *)
Definition handle_prompt (raw : string) : M sstate unit :=
  data <- lift (loads json_loads raw) ;;
  prompt <- lift (dict_get data "prompt" (JStr "")) ;;
  session_id <- lift (dict_get data "session_id" JNull) ;;
  if negb (truthy prompt) then
    _ <- safe_send (FError "No prompt provided") ;; ret tt
  else
    lift (preview prompt) ;;
    emit (EvLog "Prompt") ;;
    (if truthy session_id then emit (EvLog "Resuming session") else ret tt) ;;
    phase_thinking prompt session_id.

(** The two [except] clauses of the inner [try]. *)
Definition on_error (e : py_exc) : option (M sstate unit) :=
  if decide (exc_cls e = JSONDecodeError) then
    Some (emit (EvLog "Invalid JSON") ;;
          _ <- safe_send (FError "Invalid JSON") ;; ret tt)
  else if is_Exception e then
    Some (emit (EvLog ("Error handling message: " ++ exc_str e)) ;;
          _ <- safe_send (FError (exc_str e)) ;; ret tt)
  else None.

(** The body of [async for msg in ws:] for one message. *)
Definition handle_message (m : ws_msg) : M sstate unit :=
  match m with
  | MsgText raw => try_except (handle_prompt raw) on_error
  | MsgError => emit (EvLog "WebSocket error")
  | MsgOther => ret tt
  end.

End Request.

(** [async for msg in ws: ..] over the messages the client sends, each
    with the world it is handled in. *)
Fixpoint receive_loop (inbox : list (ws_msg * request_world)) : M sstate unit :=
  match inbox with
  | [] => ret tt
  | (m, rw) :: rest => handle_message rw m ;; receive_loop rest
  end.

(** [websocket_handler(request)] from the first message on: the outer
    [try] with its two clauses and the [finally]. *)
Definition websocket_handler (inbox : list (ws_msg * request_world)) : M sstate unit :=
  fun s =>
    let '(o, s') :=
      try_except (receive_loop inbox)
        (fun e =>
           if decide (exc_cls e = CancelledError) then Some (emit (EvLog "Connection cancelled"))
           else if is_Exception e then Some (emit (EvLog ("Unexpected error: " ++ exc_str e)))
           else None) s in
    (o, mk_sstate (n_sends s') (trace s' ++ [EvLog "Client disconnected"])).

End Connection.

(** The frames that reached the client, in order. *)
Definition frames_sent (tr : list event) : list frame :=
  omap (fun ev => match ev with EvSendJson f true => Some f | _ => None end) tr.

(** The phase label a frame carries on the wire. *)
Inductive label := LThinking | LGenerating | LResponse | LError.

#[export] Instance label_eq_dec : EqDecision label.
Proof. solve_decision. Defined.

Definition label_of (f : frame) : label :=
  match f with
  | FStatus Thinking _ => LThinking
  | FStatus Generating _ => LGenerating
  | FResponse _ _ _ _ => LResponse
  | FError _ => LError
  end.

(** The labels of the frames that reached the client. *)
Definition labels (tr : list event) : list label := label_of <$> frames_sent tr.

(** The state after one more call of [safe_send] that logged [evs]. *)
Definition advance (s : sstate) (evs : list event) : sstate :=
  mk_sstate (S (n_sends s)) (trace s ++ evs).

(** The frame sequences one inbound message can give rise to. *)
Definition request_shapes : list (list label) :=
  [ []; [LError]; [LThinking]; [LThinking; LError]; [LThinking; LGenerating];
    [LThinking; LGenerating; LResponse]; [LThinking; LGenerating; LError] ].

(** Every [send_json] in the trace directly follows a reading of
    [ws.closed] that found the socket open. *)
Fixpoint guarded_sends (prev : option event) (tr : list event) : bool :=
  match tr with
  | [] => true
  | ev :: rest =>
      match ev with
      | EvSendJson _ _ =>
          match prev with
          | Some (EvClosedCheck false) => guarded_sends (Some ev) rest
          | _ => false
          end
      | _ => guarded_sends (Some ev) rest
      end
  end.

(** All ways of following a sequence of [L1] by a sequence of [L2]. *)
Definition cat_all (L1 L2 : list (list label)) : list (list label) :=
  flat_map (fun l1 => map (app l1) L2) L1.

Definition subset_b (L1 L2 : list (list label)) : bool :=
  forallb (fun l => bool_decide (l ∈ L2)) L1.

(** A computation is lawful for [Lret] and [Lraise] when it only appends
    to the trace, every [send_json] it logs is guarded by a check of
    [ws.closed], and the labels of the frames it delivered are in [Lret]
    when it returns and in [Lraise] when it raises. *)
Definition lawful {A} (c : M sstate A) (Lret Lraise : list (list label)) : Prop :=
  forall s o s',
    c s = (o, s') ->
    exists evs,
      trace s' = (trace s ++ evs)%list
      /\ guarded_sends None evs = true
      /\ labels evs ∈ match o with Returns _ => Lret | Raises _ => Lraise end.

(** Neither the synthesizer nor a generating frame occurs in the events. *)
Definition never_generates (tr : list event) : bool :=
  forallb (fun ev => match ev with
                     | EvTTS _ | EvSendJson (FStatus Generating _) _ => false
                     | _ => true
                     end) tr.

(** The outcome of each call of [safe_send] in a trace, in order: [true]
    for a frame delivered, [false] for a socket found closed or a send
    that raised. *)
Definition send_attempts (tr : list event) : list bool :=
  omap (fun ev => match ev with
                  | EvClosedCheck true => Some false
                  | EvSendJson _ ok => Some ok
                  | _ => None
                  end) tr.

(** No send is attempted after one that failed. *)
Fixpoint failed_send_is_last (attempts : list bool) : bool :=
  match attempts with
  | [] => true
  | true :: rest => failed_send_is_last rest
  | false :: rest => match rest with [] => true | _ :: _ => false end
  end.

Definition succeeds {A} (o : outcome A) : bool :=
  match o with Returns _ => true | Raises _ => false end.

(** The frames due to a text message, by what the message holds and what
    the collaborators do:
      - the error frame alone when the message is turned down before the
        first phase: it is no JSON, no object, or its prompt is missing,
        empty or cannot be sliced;
      - thinking, then the error frame, when the responder raises or its
        reply is empty or cannot be sliced: the generating phase is
        skipped;
      - thinking, generating, then the error frame when the synthesizer,
        the write of the file or the reading of its length raises;
      - thinking, generating, then the response otherwise. *)
Definition expected_phases (json_loads : string -> option json) (rw : request_world)
    (raw : string) : list label :=
  match json_loads raw with
  | None => [LError]
  | Some data =>
      match dict_get data "prompt" (JStr ""), dict_get data "session_id" JNull with
      | Returns prompt, Returns session_id =>
          if negb (truthy prompt && succeeds (preview prompt)) then [LError]
          else
            match fst (get_ai_response_with_session json_loads (rw_spawn rw)
                         prompt session_id tt) with
            | Raises _ => [LThinking; LError]
            | Returns (text, _) =>
                if negb (truthy text && succeeds (preview text)) then [LThinking; LError]
                else if succeeds (rw_tts rw)
                        && match rw_write rw with None => true | Some _ => false end
                        && succeeds (rw_nframes rw)
                then [LThinking; LGenerating; LResponse]
                else [LThinking; LGenerating; LError]
            end
      | _, _ => [LError]
      end
  end.

End Server.

(** ** Sample data used by the concrete instances below *)

Module Samples.
Import JobStore.

Definition row (eid : Z) (txt : string) (st : job_status) (created : Z) : audio_entry :=
  mk_entry eid txt st created None None None None None.

(** A message ten times as long as the cap of 500. *)
Definition long_message : string :=
  string_of_list_ascii (repeat "x"%char 5000).

(** 600 times the two-byte character U+00E9. *)
Definition accented_message : string := join (repeat (utf8 233) 600).

(** Two pending rows created in the same second; the row with the larger
    id comes first in scan order. *)
Definition tied_rows : table :=
  [ row 2 "second" Pending 10; row 1 "first" Pending 10 ].

(** One pending row among finished ones. *)
Definition one_pending : table :=
  [ row 1 "old" Success 3; row 2 "Hello" Pending 5; row 3 "bad" Error 4 ].

(** Five workers, times in seconds.  All five SELECT at 0; worker 0
    updates and commits; the UPDATE of worker 1 matches no row, and its
    transaction stays open until it closes its connection at 2; workers
    2, 3 and 4 find the lock busy.  Worker 2 gets it at 2 and closes at
    4, worker 3 gets it at 4 and closes at 6; worker 4, waiting since 0,
    finds it still busy at 5. *)
Definition locked_out_schedule : list (nat * Z) :=
  [ (0%nat, 0); (1%nat, 0); (2%nat, 0); (3%nat, 0); (4%nat, 0);
    (0%nat, 0); (0%nat, 0);
    (1%nat, 0); (2%nat, 0); (3%nat, 0); (4%nat, 0);
    (1%nat, 2); (2%nat, 2);
    (2%nat, 4); (3%nat, 4);
    (4%nat, 5);
    (3%nat, 6) ].

(** Three passes of the worker loop: the synthesizer fails on the claimed
    job, the connection to the store cannot be opened, nothing is pending. *)
Definition quiet_world : Worker.iter_world :=
  Worker.mk_world 20 21 None None (Returns [0; 1; 2]) None (Returns 1500) None None
                  false None false.

Definition tts_fails_world : Worker.iter_world :=
  Worker.mk_world 20 21 None None (Raises (mk_exc OtherException "model exploded"))
                  None (Returns 1500) None None false None false.

Definition store_down_world : Worker.iter_world :=
  Worker.mk_world 30 31 (Some (mk_exc OtherException "unable to open database file"))
                  None (Returns []) None (Returns 0) None None false None false.

Definition three_passes : list Worker.iter_world :=
  [ tts_fails_world; store_down_world; quiet_world ].

(** JSON texts and the values [json.loads] gives for them. *)
Definition dq : string := String (ascii_of_nat 34) EmptyString.

Definition quoted (s : string) : string := dq ++ s ++ dq.

(** [{"prompt": ""}] *)
Definition empty_prompt_text : string :=
  "{" ++ quoted "prompt" ++ ": " ++ quoted "" ++ "}".

(** [{"prompt": "hi"}] *)
Definition hi_prompt_text : string :=
  "{" ++ quoted "prompt" ++ ": " ++ quoted "hi" ++ "}".

(** [{"result": "", "session_id": "s1"}] *)
Definition empty_reply_text : string :=
  "{" ++ quoted "result" ++ ": " ++ quoted "" ++ ", "
      ++ quoted "session_id" ++ ": " ++ quoted "s1" ++ "}".

(** [{"result": "Oh. It is you.", "session_id": "s1"}] *)
Definition good_reply_text : string :=
  "{" ++ quoted "result" ++ ": " ++ quoted "Oh. It is you." ++ ", "
      ++ quoted "session_id" ++ ": " ++ quoted "s1" ++ "}".

Definition sample_loads (s : string) : option Py.json :=
  if String.eqb s "[]" then Some (Py.JArr [])
  else if String.eqb s empty_prompt_text then
    Some (Py.JObj [("prompt", Py.JStr "")])
  else if String.eqb s hi_prompt_text then
    Some (Py.JObj [("prompt", Py.JStr "hi")])
  else if String.eqb s empty_reply_text then
    Some (Py.JObj [("result", Py.JStr ""); ("session_id", Py.JStr "s1")])
  else if String.eqb s good_reply_text then
    Some (Py.JObj [("result", Py.JStr "Oh. It is you."); ("session_id", Py.JStr "s1")])
  else None.

(** A socket that stays open. *)
Definition open_ws : nat -> Server.ws_status := fun _ => Server.WsOpen.

(** A socket found closed from the second send on. *)
Definition closing_ws : nat -> Server.ws_status :=
  fun k => match k with O => Server.WsOpen | _ => Server.WsClosed end.

(** A request during which the claude process prints [out]. *)
Definition world_printing (out : string) : Server.request_world :=
  Server.mk_request 1 2 (fun _ => Returns (Glados.mk_completed out ""))
                    (Returns [0; 1; 2]) "1a2b3c4d" None (Returns 44100).

(** A request during which the claude executable cannot be started. *)
Definition world_no_claude : Server.request_world :=
  Server.mk_request 1 2
    (fun _ => Raises (mk_exc OtherException "No such file or directory: 'claude'"))
    (Returns [0; 1; 2]) "1a2b3c4d" None (Returns 44100).

Definition fresh : Server.sstate := Server.mk_sstate 0 [].

End Samples.

(** ** Sequences of table operations and the claims they yield *)

Module Queue.
Import JobStore.

(** The entries that the claims among [ops] return, in order. *)
Fixpoint claimed (ops : list store_op) (db : table) : list entry :=
  match ops with
  | [] => []
  | o :: rest =>
      let later := claimed rest (apply_op db o) in
      match o with
      | OpClaim now =>
          match fst (claim_pending_entry now db) with
          | Some e => e :: later
          | None => later
          end
      | _ => later
      end
  end.

(** What holds of every state of workers claiming concurrently on a table
    that started as [db0], whatever its rows: a pending row is a row of
    [db0]; an entry a worker holds is that of a row pending in [db0]; a
    returned id belongs to no pending row any more; no two workers have
    returned the same id; and a worker between its UPDATE and its commit
    holds the lock, its table being the committed one with its row, still
    pending there, set to processing. *)
Definition claims_inv (db0 : table) (s : system) : Prop :=
  (forall r, r ∈ sys_db s -> status r = Pending -> r ∈ db0)
  /\ (forall i e,
         sys_attempts s !! i = Some (AtSelected e)
         \/ (exists t, sys_attempts s !! i = Some (AtWaiting e t))
         \/ (exists db', sys_attempts s !! i = Some (AtUpdated e db'))
         \/ sys_attempts s !! i = Some (AtReturned (Some e)) ->
         exists r, r ∈ db0 /\ status r = Pending /\ entry_of r = e)
  /\ (forall i e, sys_attempts s !! i = Some (AtReturned (Some e)) ->
                  forall r, r ∈ sys_db s -> entry_id r = fst e -> status r <> Pending)
  /\ (forall i k e1 e2, i <> k ->
         sys_attempts s !! i = Some (AtReturned (Some e1)) ->
         sys_attempts s !! k = Some (AtReturned (Some e2)) ->
         fst e1 <> fst e2)
  /\ (forall i e db',
         sys_attempts s !! i = Some (AtUpdated e db') ->
         exists t,
           sys_lock s = Some (i, t)
           /\ db' = fst (update_to_processing t (fst e) (sys_db s))
           /\ exists r, r ∈ sys_db s /\ entry_id r = fst e /\ status r = Pending).

End Queue.

(** ** [glados.py]: the command line *)

Module Cli.
Import Py Glados.

Definition OUTPUT_PATH : string := "/Users/helge/code/glados/glados-tts/output.wav".

Definition DEFAULT_TEXT : string :=
  "Installation complete. The Enrichment Center reminds you that the weighted companion cube will never threaten to stab you.".

(** What the program does to the outside, in order. *)
Inductive cevent :=
  | Print (msg : string)
  | SpinnerStart (phase : string)          (* spin_thread.start() *)
  | SpinnerStop                            (* stop_spinner.set(); spin_thread.join() *)
  | RunProcess (argv : list string)        (* subprocess.run / subprocess.Popen *)
  | WaitProcess                            (* audio_proc.wait() *)
  | TorchLoad (path : string)              (* torch.load / torch.jit.load *)
  | WarmUp (i : nat)                       (* one round of the warm-up loop *)
  | Synthesize (text : string)             (* the model run of generate_tts *)
  | WriteWav (path : string)               (* write(path, 22050, audio) *)
  | Typewriter (text : string).            (* typewriter(text, duration) *)

(** [_models] once loaded: the device chosen. *)
Definition models := string.

(** The global [_models] and the events so far. *)
Record cstate := mk_cstate { loaded : option models; out : list cevent }.

Definition emit (ev : cevent) : M cstate unit :=
  fun s => (Returns tt, mk_cstate (loaded s) (out s ++ [ev])).

(** What the outside world decides during a run. *)
Record cli_world := mk_cli_world {
  cuda_available : bool;                            (* torch.cuda.is_available() *)
  cw_load : string -> option py_exc;                (* torch.load / torch.jit.load of a file *)
  cw_warm : nat -> option py_exc;                   (* a warm-up round *)
  cw_tts : string -> outcome (list Z);              (* the model run on a text *)
  cw_spawn : list string -> outcome completed_process;  (* a finished process *)
  cw_write : option py_exc;                         (* scipy's write *)
  cw_wave : outcome (Z * Z);                        (* getnframes(), getframerate() *)
  cw_popen : option py_exc;                         (* subprocess.Popen(['afplay', ..]) *)
  isatty : bool;                                    (* sys.stdin.isatty() *)
  stdin_text : string                               (* sys.stdin.read() *)
}.

(** The namespace returned by [parser.parse_args()]. *)
Record cli_args := mk_args {
  args_text : option string;               (* positional, nargs='?', default None *)
  args_ai : bool;                          (* --ai *)
  args_no_play : bool                      (* --no-play *)
}.

Section Program.
Variable w : cli_world.

(** [get_models()]: load on first use, then hand out the global. *)
Definition get_models : M cstate models :=
  fun s =>
    match loaded s with
    | Some m => (Returns m, s)
    | None =>
        (emit (TorchLoad "models/emb/glados_p2.pt") ;;
         lift_fault (cw_load w "models/emb/glados_p2.pt") ;;
         let device := if cuda_available w then "cuda" else "cpu" in
         emit (TorchLoad "models/glados-new.pt") ;;
         lift_fault (cw_load w "models/glados-new.pt") ;;
         emit (TorchLoad "models/vocoder-gpu.pt") ;;
         lift_fault (cw_load w "models/vocoder-gpu.pt") ;;
         (* for i in range(2) *)
         emit (WarmUp 0) ;; lift_fault (cw_warm w 0%nat) ;;
         emit (WarmUp 1) ;; lift_fault (cw_warm w 1%nat) ;;
         (fun s' => (Returns device, mk_cstate (Some device) (out s')))) s
    end.

(** [generate_tts(text)] *)
Definition generate_tts (text : string) : M cstate (list Z) :=
  _ <- get_models ;;
  emit (Synthesize text) ;;
  lift (cw_tts w text).

(** [get_ai_response(prompt)] *)
Definition get_ai_response (prompt : string) : M cstate string :=
  emit (SpinnerStart "thinking") ;;
  let argv := [ "claude"; "-p"; prompt; "--system-prompt"; GLADOS_SYSTEM_PROMPT;
                "--allowedTools"; "WebSearch"; "WebFetch" ] in
  emit (RunProcess argv) ;;
  result <- lift (cw_spawn w argv) ;;
  emit SpinnerStop ;;
  ret (strip (stdout result)).

(** [generate_audio_with_spinner(text, output_path)] *)
Definition generate_audio_with_spinner (text output_path : string) : M cstate unit :=
  emit (SpinnerStart "generating") ;;
  _ <- generate_tts text ;;
  lift_fault (cw_write w) ;;
  emit (WriteWav output_path) ;;
  emit SpinnerStop.

(** [play_and_type(audio_path, text)]; the duration is [frames / rate]. *)
Definition play_and_type (audio_path text : string) : M cstate unit :=
  fr <- lift (cw_wave w) ;;
  (if snd fr =? 0 then raise (mk_exc OtherException "division by zero") else ret tt) ;;
  emit (RunProcess ["afplay"; audio_path]) ;;
  lift_fault (cw_popen w) ;;
  emit (Typewriter text) ;;
  emit WaitProcess.

(** [speak_mode(text)] *)
Definition speak_mode (text : string) : M cstate unit :=
  response <- get_ai_response text ;;
  generate_audio_with_spinner response OUTPUT_PATH ;;
  play_and_type OUTPUT_PATH response.

(** [say_mode(text, play_audio)] *)
Definition say_mode (text : string) (play_audio : bool) : M cstate unit :=
  emit (Print "Initializing GLaDOS TTS Engine...") ;;
  m <- get_models ;;
  emit (Print ("Using device: " ++ m)) ;;
  emit (Print "Models loaded. Generating speech...") ;;
  _ <- generate_tts text ;;
  lift_fault (cw_write w) ;;
  emit (WriteWav OUTPUT_PATH) ;;
  emit (Print ("Audio saved to " ++ OUTPUT_PATH)) ;;
  if play_audio then
    emit (RunProcess ["afplay"; OUTPUT_PATH]) ;;
    _ <- lift (cw_spawn w ["afplay"; OUTPUT_PATH]) ;;
    ret tt
  else ret tt.

(** The text [main()] settles on: the argument if truthy, else what is
    piped in, else the default. *)
Definition chosen_text (a : cli_args) : string :=
  match args_text a with
  | Some t =>
      if negb (String.eqb t "") then t
      else if negb (isatty w) then strip (stdin_text w)
      else DEFAULT_TEXT
  | None =>
      if negb (isatty w) then strip (stdin_text w)
      else DEFAULT_TEXT
  end.

(** [main()] after [parse_args]. *)
Definition main (a : cli_args) : M cstate unit :=
  let text := chosen_text a in
  if args_ai a then speak_mode text
  else say_mode text (negb (args_no_play a)).

End Program.

(** [SPINNER_MESSAGES[phase]]; [None] stands for [KeyError]. *)
Definition SPINNER_MESSAGES (phase : string) : option (list string) :=
  if String.eqb phase "thinking" then Some SPINNER_MESSAGES_thinking
  else if String.eqb phase "generating" then Some SPINNER_MESSAGES_generating
  else None.

(** The carriage return and the escape character of the control sequences. *)
Definition CR : string := String (ascii_of_nat 13) EmptyString.
Definition ESC : string := String (ascii_of_nat 27) EmptyString.

(** The list [frames] of [spinner]. *)
Definition spinner_frames : list string := [ "◐"; "◓"; "◑"; "◒" ].

(** The line printed at each turn of the loop. *)
Definition spinner_line (frame message : string) : string :=
  (CR ++ ESC ++ "[38;5;208m" ++ frame ++ " " ++ message ++ ESC ++ "[0m")%string.

(** The loop of [spinner(stop_event, phase)] when [stop_event] is found
    unset [polls] times: the lines printed, [frames[i]] being a checked
    index. *)
Fixpoint spinner_loop (polls : nat) (i : nat) (message : string)
    : outcome (list string) :=
  match polls with
  | O => Returns []
  | S rest =>
      match nth_error spinner_frames i with
      | None => Raises (mk_exc IndexError "list index out of range")
      | Some f =>
          match spinner_loop rest ((i + 1) mod 4) message with
          | Returns shown => Returns (spinner_line f message :: shown)
          | Raises e => Raises e
          end
      end
  end.

(** [spinner(stop_event, phase)]: the message is drawn once, the loop
    runs, and the line is cleared. *)
Definition spinner (polls : nat) (draw : nat) (phase : string)
    : outcome (list string) :=
  match SPINNER_MESSAGES phase with
  | None => Raises (mk_exc KeyError ("'" ++ phase ++ "'"))
  | Some pool =>
      match spinner_loop polls 0 (random_choice draw pool) with
      | Returns shown => Returns (shown ++ [(CR ++ ESC ++ "[K")%string])%list
      | Raises e => Raises e
      end
  end.

(** Every character of the string is white space. *)
Definition all_space (s : string) : bool := forallb isspace (chars s).

(** The spinner thread is running at the end of the events. *)
Definition spinner_running (evs : list cevent) : bool :=
  fold_left (fun running ev =>
               match ev with
               | SpinnerStart _ => true
               | SpinnerStop => false
               | _ => running
               end) evs false.

(** The player was started. *)
Definition plays (evs : list cevent) : bool :=
  existsb (fun ev => match ev with
                     | RunProcess ("afplay" :: _) => true
                     | _ => false
                     end) evs.

(** How many files [torch] was asked to load. *)
Definition torch_loads (evs : list cevent) : nat :=
  length (List.filter (fun ev => match ev with TorchLoad _ => true | _ => false end) evs).

End Cli.

(** ** Further readings of a handler trace *)

Module Traces.
Import Py Glados Server.

(** Neither the responder, the synthesizer nor a file write occurs. *)
Definition calls_no_collaborator (tr : list event) : bool :=
  forallb (fun ev => match ev with
                     | EvTTS _ | EvResponder _ _ | EvWriteWav _ => false
                     | _ => true
                     end) tr.

(** The events of a request from the first log line to the log line
    after the responder's reply, when the thinking frame is delivered. *)
Definition thinking_events (rw : request_world) (prompt session_id : json) : list event :=
  let thinking_msg := random_choice (draw_thinking rw) SPINNER_MESSAGES_thinking in
  [EvLog "Prompt"]
  ++ (if truthy session_id then [EvLog "Resuming session"] else [])
  ++ [ EvLog ("Phase: " ++ thinking_msg)%string;
       EvClosedCheck false;
       EvSendJson (FStatus Thinking thinking_msg) true;
       EvResponder prompt session_id;
       EvLog "Claude response" ].

End Traces.

(** ** More sample data *)

Module MoreSamples.
Import JobStore Samples.

(** A table with nothing left to do. *)
Definition all_done : table :=
  [ row 1 "old" Success 3; row 3 "bad" Error 4 ].

(** The operator interrupts while the synthesizer runs. *)
Definition interrupted_world : Worker.iter_world :=
  Worker.mk_world 20 21 None None (Raises (mk_exc KeyboardInterrupt ""))
                  None (Returns 1500) None None false None false.

(** The audio is produced but the success cannot be written. *)
Definition commit_fails_world : Worker.iter_world :=
  Worker.mk_world 20 21 None None (Returns [0; 1; 2]) None (Returns 1500)
                  (Some (mk_exc OtherException "database is locked")) None
                  false None false.

(** The store cannot be opened and the interrupt arrives during the
    back-off sleep. *)
Definition backoff_interrupted_world : Worker.iter_world :=
  Worker.mk_world 30 31 (Some (mk_exc OtherException "unable to open database file"))
                  None (Returns []) None (Returns 0) None None false None true.

(** The interrupt arrives during the idle sleep. *)
Definition idle_interrupted_world : Worker.iter_world :=
  Worker.mk_world 30 31 None None (Returns []) None (Returns 0) None None true None false.

(** Two workers and two pending rows with the same [created_at]: both
    SELECT, worker 0 updates and commits, then worker 1 updates and,
    after its sleep, closes. *)
Definition two_by_two : list (nat * Z) :=
  [ (0%nat, 10); (1%nat, 11); (0%nat, 12); (0%nat, 12);
    (1%nat, 13); (1%nat, 16) ].

(** A terminal session in which every external call succeeds. *)
Definition cli_world_ok : Cli.cli_world :=
  Cli.mk_cli_world false (fun _ => None) (fun _ => None) (fun _ => Returns [0; 1])
    (fun _ => Returns (Glados.mk_completed "  Oh. It is you.  " ""))
    None (Returns (44100, 22050)) None true "".

(** The [claude] program is not installed. *)
Definition cli_world_no_claude : Cli.cli_world :=
  Cli.mk_cli_world false (fun _ => None) (fun _ => None) (fun _ => Returns [0; 1])
    (fun _ => Raises (mk_exc OtherException "No such file or directory: 'claude'"))
    None (Returns (44100, 22050)) None true "".

(** The second model file cannot be read. *)
Definition cli_world_bad_model : Cli.cli_world :=
  Cli.mk_cli_world false
    (fun path => if String.eqb path "models/glados-new.pt"
                 then Some (mk_exc OtherException "file not found") else None)
    (fun _ => None) (fun _ => Returns [0; 1])
    (fun _ => Returns (Glados.mk_completed "" ""))
    None (Returns (44100, 22050)) None true "".

(** Input piped in that holds a space and a line feed only. *)
Definition cli_world_blank_pipe : Cli.cli_world :=
  Cli.mk_cli_world false (fun _ => None) (fun _ => None) (fun _ => Returns [])
    (fun _ => Returns (Glados.mk_completed "" ""))
    None (Returns (0, 22050)) None false
    (String " " (String (ascii_of_nat 10) EmptyString)).

(** Input piped in that holds the ideographic space U+3000 and a line
    feed only. *)
Definition cli_world_wide_blank_pipe : Cli.cli_world :=
  Cli.mk_cli_world false (fun _ => None) (fun _ => None) (fun _ => Returns [])
    (fun _ => Returns (Glados.mk_completed "" ""))
    None (Returns (0, 22050)) None false
    (utf8 12288 ++ String (ascii_of_nat 10) EmptyString).

(** A reply that ends in U+1F605, whose last byte is 0x85, between
    spaces. *)
Definition smiling_reply : string := " Oh. " ++ utf8 128517 ++ " ".

Definition cli_fresh : Cli.cstate := Cli.mk_cstate None [].

(** [{"prompt": 5}] *)
Definition number_prompt_text : string :=
  "{" ++ quoted "prompt" ++ ": 5}".

Definition more_loads (s : string) : option Py.json :=
  if String.eqb s number_prompt_text then Some (Py.JObj [("prompt", Py.JNum 5)])
  else sample_loads s.

(** A socket on which the first send is cancelled. *)
Definition cancelled_ws : nat -> Server.ws_status :=
  fun _ => Server.WsSendRaises (mk_exc CancelledError "").

(** A request during which the synthesizer fails. *)
Definition world_tts_fails : Server.request_world :=
  Server.mk_request 1 2 (fun _ => Returns (Glados.mk_completed good_reply_text ""))
                    (Raises (mk_exc OtherException "model exploded"))
                    "1a2b3c4d" None (Returns 44100).

End MoreSamples.

(** * Properties *)

Local Open Scope list_scope.

(** ** Characters and slices *)

Lemma string_app_assoc (a b c : string) : ((a ++ b) ++ c = a ++ (b ++ c))%string.
Proof.
  induction a as [|x a IH]; [done|].
  change (String x ((a ++ b) ++ c) = String x (a ++ (b ++ c)))%string. by rewrite IH.
Qed.

Lemma join_app l1 l2 : join (l1 ++ l2) = (join l1 ++ join l2)%string.
Proof.
  induction l1 as [|a l1 IH]; [done|].
  change (join ((a :: l1) ++ l2)) with (a ++ join (l1 ++ l2))%string.
  change (join (a :: l1)) with (a ++ join l1)%string.
  by rewrite IH, string_app_assoc.
Qed.

Lemma chars_nonempty c s : chars (String c s) <> [].
Proof. simpl. destruct (chars s); [done|]. by destruct s as [|d s]; [|destruct (is_continuation d)]. Qed.

Lemma join_cons a l : join (a :: l) = (a ++ join l)%string.
Proof. done. Qed.

Lemma append_cons c a b : (String c a ++ b)%string = String c (a ++ b)%string.
Proof. done. Qed.

Lemma chars_cons c s :
  chars (String c s)
  = match chars s with
    | chunk :: more =>
        if match s with String d _ => is_continuation d | EmptyString => false end
        then String c chunk :: more
        else String c EmptyString :: chunk :: more
    | [] => [String c EmptyString]
    end.
Proof. done. Qed.

Lemma join_chars s : join (chars s) = s.
Proof.
  induction s as [|c s IH]; [done|]. rewrite chars_cons.
  destruct (chars s) as [|chunk more] eqn:Hc.
  - destruct s as [|d s]; [done|]. by destruct (chars_nonempty d s).
  - destruct s as [|d s]; [discriminate Hc|].
    rewrite join_cons in IH.
    destruct (is_continuation d); rewrite !join_cons, ?append_cons; by rewrite IH.
Qed.

Lemma chars_one_more c tail r :
  forallb is_continuation (list_ascii_of_string tail) = true ->
  match r with String d _ => is_continuation d = false | EmptyString => True end ->
  chars (String c (tail ++ r)) = String c tail :: chars r.
Proof.
  revert c. induction tail as [|t tail IH]; intros c Htail Hr.
  - change (String c ("" ++ r))%string with (String c r).
    destruct r as [|d r]; [done|].
    change (chars (String c (String d r)))
      with (match chars (String d r) with
            | chunk :: more =>
                if is_continuation d then String c chunk :: more
                else String c EmptyString :: chunk :: more
            | [] => [String c EmptyString]
            end).
    rewrite Hr. destruct (chars (String d r)) eqn:Hc; [|done].
    by destruct (chars_nonempty d r).
  - simpl in Htail. apply andb_prop in Htail as [Ht Htail].
    change (chars (String c (String t tail ++ r)))
      with (match chars (String t (tail ++ r)) with
            | chunk :: more =>
                if is_continuation t then String c chunk :: more
                else String c EmptyString :: chunk :: more
            | [] => [String c EmptyString]
            end).
    by rewrite (IH t Htail Hr), Ht.
Qed.

Lemma well_split_head chunk more :
  well_split (chunk :: more) = true ->
  match join more with String d _ => is_continuation d = false | EmptyString => True end.
Proof.
  simpl. intros [[_ Hnext]%andb_prop _]%andb_prop.
  destruct more as [|[|d next] more]; [done | done |].
  simpl. by apply negb_true_iff.
Qed.

Lemma chars_join l : well_split l = true -> chars (join l) = l.
Proof.
  induction l as [|chunk more IH]; [done|]. intros Hw.
  pose proof (well_split_head _ _ Hw) as Hhead.
  simpl in Hw. apply andb_prop in Hw as [[Hchunk _]%andb_prop Hmore].
  destruct chunk as [|c tail]; [done|].
  change (join (String c tail :: more)) with (String c (tail ++ join more)).
  by rewrite chars_one_more, IH.
Qed.

Lemma well_split_chars s : well_split (chars s) = true.
Proof.
  induction s as [|c s IH]; [done|]. rewrite chars_cons.
  destruct (chars s) as [|chunk more] eqn:Hc; [done|].
  destruct s as [|d s]; [discriminate Hc|].
  assert (exists tail, chunk = String d tail) as [tail ->].
  { pose proof (join_chars (String d s)) as Hj. rewrite Hc, join_cons in Hj.
    destruct chunk as [|d' tail]; [by simpl in IH|].
    rewrite append_cons in Hj. injection Hj as -> _. by eexists. }
  destruct (is_continuation d) eqn:Hd.
  - simpl in IH |- *. by rewrite Hd.
  - change (well_split (String c "" :: String d tail :: more))
      with (true && negb (is_continuation d) && well_split (String d tail :: more)).
    by rewrite Hd, IH.
Qed.

Lemma well_split_app l1 l2 :
  well_split (l1 ++ l2) = true -> well_split l1 = true /\ well_split l2 = true.
Proof.
  induction l1 as [|a l1 IH]; [done|].
  change ((a :: l1) ++ l2) with (a :: (l1 ++ l2)). intros Hw.
  apply andb_prop in Hw as [[Hchunk Hnext]%andb_prop Hmore].
  destruct (IH Hmore) as [H1 H2]. split; [|done].
  simpl. rewrite Hchunk, H1.
  destruct l1 as [|b l1]; [done|]. simpl in Hnext. by rewrite Hnext.
Qed.

Lemma join_nil l : well_split l = true -> join l = ""%string -> l = [].
Proof. destruct l as [|[|c tail] more]; simpl; try done. Qed.

Lemma slice_to_chars n s : chars (slice_to n s) = take n (chars s).
Proof.
  unfold slice_to. apply chars_join.
  pose proof (well_split_chars s) as Hw. rewrite <- (take_drop n (chars s)) in Hw.
  by apply well_split_app in Hw as [? _].
Qed.

Lemma slice_to_len n s : len (slice_to n s) = (n `min` len s)%nat.
Proof. unfold len. by rewrite slice_to_chars, length_take. Qed.

Lemma slice_to_short n s : (len s <= n)%nat -> slice_to n s = s.
Proof. intros Hl. unfold slice_to. by rewrite take_ge, join_chars. Qed.

Lemma slice_to_split n s :
  exists rest,
    s = (slice_to n s ++ rest)%string /\ chars s = chars (slice_to n s) ++ chars rest.
Proof.
  exists (join (drop n (chars s))). split.
  - unfold slice_to. by rewrite <- join_app, take_drop, join_chars.
  - rewrite slice_to_chars, chars_join, take_drop; [done|].
    pose proof (well_split_chars s) as Hw. rewrite <- (take_drop n (chars s)) in Hw.
    by apply well_split_app in Hw as [_ ?].
Qed.

Lemma drop_while_suffix {A} (p : A -> bool) l : exists pre, l = pre ++ drop_while p l.
Proof.
  induction l as [|x l (pre & IH)]; [by exists []|]. simpl.
  destruct (p x); [|by exists []]. exists (x :: pre). simpl. by rewrite <- IH.
Qed.

Lemma drop_while_nil {A} (p : A -> bool) l : drop_while p l = [] <-> forallb p l = true.
Proof.
  induction l as [|x l IH]; [done|]. simpl. destruct (p x); [done|].
  split; discriminate.
Qed.

Lemma drop_while_idem {A} (p : A -> bool) l :
  forallb p (drop_while p l) = true -> drop_while p l = [].
Proof.
  induction l as [|x l IH]; [done|]. simpl. destruct (p x) eqn:Hx; [done|].
  simpl. by rewrite Hx.
Qed.

Lemma forallb_rev {A} (p : A -> bool) l : forallb p (rev l) = forallb p l.
Proof.
  induction l as [|x l IH]; [done|]. simpl.
  rewrite forallb_app, IH. simpl. rewrite andb_true_r. apply andb_comm.
Qed.

(** A text strips to nothing exactly when all its characters are white
    space. *)
Lemma strip_blank s : Glados.strip s = ""%string <-> Cli.all_space s = true.
Proof.
  unfold Glados.strip, Glados.rstrip, Glados.lstrip, Cli.all_space.
  pose proof (well_split_chars s) as Hw.
  destruct (drop_while_suffix Glados.isspace (chars s)) as (pre & Hpre).
  assert (Hw1 : well_split (drop_while Glados.isspace (chars s)) = true).
  { rewrite Hpre in Hw. by apply well_split_app in Hw as [_ ?]. }
  rewrite (chars_join _ Hw1).
  destruct (drop_while_suffix Glados.isspace (rev (drop_while Glados.isspace (chars s))))
    as (pre1 & Hpre1).
  assert (Hw2 : well_split
                  (rev (drop_while Glados.isspace (rev (drop_while Glados.isspace (chars s))))) = true).
  { apply (f_equal (@rev string)) in Hpre1. rewrite rev_involutive, rev_app_distr in Hpre1.
    rewrite Hpre1 in Hw1. by apply well_split_app in Hw1 as [? _]. }
  split.
  - intros Hj. apply (join_nil _ Hw2) in Hj.
    apply (f_equal (@rev string)) in Hj. rewrite rev_involutive in Hj. simpl in Hj.
    apply drop_while_nil in Hj. rewrite forallb_rev in Hj.
    apply drop_while_idem in Hj. by apply drop_while_nil.
  - intros Hall. apply drop_while_nil in Hall. by rewrite Hall.
Qed.

Section JobStoreFacts.
Import JobStore.

Lemma sql_update_lookup (P : audio_entry -> Prop) `{!forall r, Decision (P r)}
    set (db : table) (k : nat) :
  fst (sql_update P set db) !! k
  = (fun r => if decide (P r) then set r else r) <$> (db !! k).
Proof. unfold sql_update. simpl. apply list_lookup_fmap. Qed.

Lemma sql_update_none (P : audio_entry -> Prop) `{!forall r, Decision (P r)}
    set (db : table) :
  (forall r, r ∈ db -> ~ P r) -> sql_update P set db = (db, 0%nat).
Proof.
  intros Hno. unfold sql_update. f_equal.
  - induction db as [|a db IH]; [done|]. simpl. f_equal.
    + destruct (decide (P a)) as [Hp|]; [|done].
      exfalso. apply (Hno a); [left | done].
    + apply IH. intros r Hr. apply Hno. by right.
  - induction db as [|a db IH]; [done|].
    rewrite filter_cons. destruct (decide (P a)) as [Hp|].
    + exfalso. apply (Hno a); [left | done].
    + apply IH. intros r Hr. apply Hno. by right.
Qed.

Lemma sql_update_rowcount_pos (P : audio_entry -> Prop) `{!forall r, Decision (P r)}
    set (db : table) r :
  r ∈ db -> P r -> (0 < snd (sql_update P set db))%nat.
Proof.
  intros Hin Hp. unfold sql_update. simpl.
  assert (Hf : r ∈ filter P db) by (apply list_elem_of_filter; done).
  destruct (filter P db); [by apply not_elem_of_nil in Hf | simpl; lia].
Qed.

(** C5: whatever the message, the row that [mark_error] rewrites stores
    [message[:500]]: the first 500 characters of the message when it has
    more, the whole message otherwise.  The stored text has
    [min 500 (len message)] characters, never more than 500, and the
    message is the stored text followed by the rest, cut between two
    characters; the update is applied (the status becomes error), never
    refused. *)
Theorem mark_error_message_capped now eid msg (db : table) k r :
  db !! k = Some r -> entry_id r = eid ->
  exists r' stored rest,
    mark_error now eid msg db !! k = Some r'
    /\ status r' = Error
    /\ error_message r' = Some stored
    /\ len stored = (500 `min` len msg)%nat
    /\ (len stored <= 500)%nat
    /\ msg = (stored ++ rest)%string
    /\ chars msg = chars stored ++ chars rest
    /\ chars stored = take 500 (chars msg)
    /\ ((len msg <= 500)%nat -> stored = msg /\ rest = ""%string)
    /\ ((500 < len msg)%nat -> rest <> ""%string).
Proof.
  intros Hk Hid.
  destruct (slice_to_split 500 msg) as (rest & Hmsg & Hchars).
  exists (set_error (slice_to 500 msg) now r), (slice_to 500 msg), rest.
  unfold mark_error. rewrite sql_update_lookup, Hk. simpl.
  rewrite decide_True by done.
  split; [done|]. split; [done|]. split; [done|].
  split; [apply slice_to_len|]. split; [rewrite slice_to_len; lia|].
  split; [done|]. split; [done|]. split; [apply slice_to_chars|]. split.
  - intros Hl. rewrite (slice_to_short 500 msg Hl) in Hmsg |- *. split; [done|].
    clear -Hmsg. induction msg as [|c msg IH]; [done|].
    injection Hmsg as Hmsg. by apply IH.
  - intros Hl ->. rewrite slice_to_chars in Hchars. simpl in Hchars.
    rewrite app_nil_r in Hchars.
    assert (Hlen : length (chars msg) = length (take 500 (chars msg))) by congruence.
    rewrite length_take in Hlen. unfold len in Hl. lia.
Qed.

Lemma mark_error_message_capped_witness :
  exists r' stored rest,
    mark_error 9 2 Samples.long_message Samples.one_pending !! 1%nat = Some r'
    /\ status r' = Error
    /\ error_message r' = Some stored
    /\ len stored = (500 `min` len Samples.long_message)%nat
    /\ (len stored <= 500)%nat
    /\ Samples.long_message = (stored ++ rest)%string
    /\ chars Samples.long_message = chars stored ++ chars rest
    /\ chars stored = take 500 (chars Samples.long_message)
    /\ ((len Samples.long_message <= 500)%nat -> stored = Samples.long_message /\ rest = ""%string)
    /\ ((500 < len Samples.long_message)%nat -> rest <> ""%string).
Proof.
  apply (mark_error_message_capped 9 2 Samples.long_message Samples.one_pending 1
           (Samples.row 2 "Hello" Pending 5)); reflexivity.
Defined.

(** The message ten times the cap is stored as its first 500 characters;
    a message of 600 two-byte characters is cut after 500 of them, at
    1000 bytes. *)
Example long_messages_stored :
  error_message <$> (mark_error 9 2 Samples.long_message Samples.one_pending !! 1%nat)
  = Some (Some (string_of_list_ascii (repeat "x"%char 500)))
  /\ (len (slice_to 500 Samples.accented_message) = 500%nat
      /\ String.length (slice_to 500 Samples.accented_message) = 1000%nat
      /\ slice_to 500 Samples.accented_message = join (repeat (utf8 233) 500)).
Proof. vm_compute. repeat split. Qed.

(** *** Selecting and claiming the oldest pending row *)

Lemma select_spec (db : table) :
  match order_by_created_at_limit_1 (filter (fun r => status r = Pending) db) with
  | None => forall x, x ∈ db -> status x <> Pending
  | Some r =>
      exists pre post,
        db = pre ++ r :: post /\ status r = Pending
        /\ (forall x, x ∈ pre -> status x = Pending -> created_at r < created_at x)
        /\ (forall x, x ∈ post -> status x = Pending -> created_at r <= created_at x)
  end.
Proof.
  induction db as [|a db IH]; simpl.
  - intros x Hx. by apply not_elem_of_nil in Hx.
  - rewrite filter_cons. destruct (decide (status a = Pending)) as [Ha|Ha].
    + simpl. destruct (order_by_created_at_limit_1 _) as [m|].
      * destruct IH as (pre & post & -> & Hm & Hpre & Hpost).
        destruct (Z.ltb_spec (created_at m) (created_at a)) as [Hlt|Hge].
        -- exists (a :: pre), post. repeat split; [done| |done].
           intros x [->|Hx]%elem_of_cons Hp; [done | by apply Hpre].
        -- exists [], (pre ++ m :: post). repeat split; [done| |].
           ++ intros x Hx. by apply not_elem_of_nil in Hx.
           ++ intros x Hx Hp. apply elem_of_app in Hx as [Hx|Hx].
              ** specialize (Hpre x Hx Hp). lia.
              ** apply elem_of_cons in Hx as [->|Hx]; [lia|].
                 specialize (Hpost x Hx Hp). lia.
      * exists [], db. repeat split; [done| |].
        -- intros x Hx. by apply not_elem_of_nil in Hx.
        -- intros x Hx Hp. by destruct (IH x Hx).
    + destruct (order_by_created_at_limit_1 _) as [m|].
      * destruct IH as (pre & post & -> & Hm & Hpre & Hpost).
        exists (a :: pre), post. repeat split; [done| |done].
        intros x [->|Hx]%elem_of_cons Hp; [done | by apply Hpre].
      * intros x [->|Hx]%elem_of_cons; [done | by apply IH].
Qed.


(** *** Status transitions *)

Lemma claim_lookup now (db : table) k r :
  db !! k = Some r ->
  exists r', snd (claim_pending_entry now db) !! k = Some r'
    /\ entry_id r' = entry_id r
    /\ (rank (status r) <= rank (status r'))%nat
    /\ (status r <> Pending -> r' = r).
Proof.
  intros Hk. unfold claim_pending_entry.
  destruct (select_oldest_pending db) as [e|]; [|exists r; simpl; eauto].
  pose proof (sql_update_lookup (fun x => entry_id x = fst e /\ status x = Pending)
                (set_processing now) db k) as Hl.
  unfold update_to_processing.
  destruct (sql_update _ _ db) as [db' n]. simpl in Hl. rewrite Hk in Hl. simpl in Hl.
  assert (Hsnd : forall o : option entry,
             snd (if (n =? 0)%nat then (None, db') else (o, db')) = db')
    by (intros; by destruct (n =? 0)%nat).
  rewrite Hsnd, Hl. eexists; split; [done|].
  destruct (decide _) as [[_ Hp]|]; simpl; [|eauto].
  rewrite Hp. simpl. repeat split; [lia | congruence].
Qed.

Lemma apply_op_lookup o (db : table) k r :
  db !! k = Some r ->
  exists r', apply_op db o !! k = Some r'
    /\ entry_id r' = entry_id r
    /\ (rank (status r) <= rank (status r'))%nat.
Proof.
  intros Hk. destruct o as [now|now eid path dur|now eid msg]; simpl.
  - destruct (claim_lookup now db k r Hk) as (r' & ? & ? & ? & _). eauto.
  - unfold mark_success. rewrite sql_update_lookup, Hk. simpl.
    eexists; split; [done|]. destruct (decide _); simpl; [|eauto].
    split; [done|]. destruct (status r); simpl; lia.
  - unfold mark_error. rewrite sql_update_lookup, Hk. simpl.
    eexists; split; [done|]. destruct (decide _); simpl; [|eauto].
    split; [done|]. destruct (status r); simpl; lia.
Qed.

Lemma apply_ops_lookup ops (db : table) k r :
  db !! k = Some r ->
  exists r', apply_ops ops db !! k = Some r'
    /\ entry_id r' = entry_id r
    /\ (rank (status r) <= rank (status r'))%nat.
Proof.
  revert db r. induction ops as [|o ops IH]; intros db r Hk; simpl.
  - exists r. eauto.
  - destruct (apply_op_lookup o db k r Hk) as (r1 & H1 & Hid1 & Hr1).
    destruct (IH _ _ H1) as (r2 & H2 & Hid2 & Hr2).
    exists r2. repeat split; [done | congruence | lia].
Qed.

Lemma claim_takes_one_row now (db : table) e db1 :
  NoDup (entry_id <$> db) ->
  claim_pending_entry now db = (Some e, db1) ->
  exists k r,
    db !! k = Some r /\ entry_of r = e /\ status r = Pending
    /\ db1 !! k = Some (set_processing now r)
    /\ forall k' r', k' <> k -> db !! k' = Some r' ->
                     db1 !! k' = Some r' /\ entry_id r' <> fst e.
Proof.
  intros Hnd Hclaim. pose proof (select_spec db) as Hsel.
  unfold claim_pending_entry, select_oldest_pending in Hclaim.
  destruct (order_by_created_at_limit_1 _) as [r|]; [|discriminate Hclaim].
  destruct Hsel as (pre & post & Hdb & Hr & _ & _).
  change (entry_of <$> Some r) with (Some (entry_of r)) in Hclaim.
  cbv beta iota in Hclaim. change (fst (entry_of r)) with (entry_id r) in Hclaim.
  pose proof (sql_update_lookup (fun x => entry_id x = entry_id r /\ status x = Pending)
                (set_processing now) db) as Hl.
  unfold update_to_processing in Hclaim.
  destruct (sql_update _ _ db) as [db' n]. simpl in Hl.
  destruct (n =? 0)%nat; inversion Hclaim; subst e db1. clear Hclaim.
  assert (Hk : db !! length pre = Some r) by (rewrite Hdb; apply list_lookup_middle; done).
  assert (Hother : forall k' r', k' <> length pre -> db !! k' = Some r' ->
                                 entry_id r' <> entry_id r).
  { intros k' r' Hne Hk' Hid. apply Hne.
    apply (NoDup_lookup (entry_id <$> db) _ _ (entry_id r) Hnd);
      rewrite list_lookup_fmap; [rewrite Hk' | rewrite Hk]; simpl; congruence. }
  exists (length pre), r.
  split; [done|]. split; [done|]. split; [done|]. split.
  - rewrite Hl, Hk. simpl. by rewrite decide_True.
  - intros k' r' Hne Hk'. specialize (Hother k' r' Hne Hk'). split; [|done].
    rewrite Hl, Hk'. simpl. rewrite decide_False; [done|]. by intros [Hid _].
Qed.

(** C2 (as the code has it): under any sequence of claims and marks a
    row keeps its place and its id and its status never moves back along
    pending < processing < {success, error}, so success->processing and
    any return to pending are impossible.  [mark_success] and
    [mark_error] carry no condition on the status: each rewrites every
    row with the given id, whatever its status, so on a row in processing
    they perform processing->success and processing->error.  A claim
    leaves every row that is not pending as it is, and a mark leaves every
    row with another id as it is.  When ids are unique, a successful
    claim moves exactly one row from pending to processing and returns an
    id that no other row carries, so the marks a worker issues for the job
    it has claimed act on that row alone. *)
Theorem job_status_transitions :
  (forall ops (db : table) k r,
      db !! k = Some r ->
      exists r', apply_ops ops db !! k = Some r'
        /\ entry_id r' = entry_id r
        /\ (rank (status r) <= rank (status r'))%nat)
  /\ (forall now eid path dur (db : table) k r,
         db !! k = Some r -> entry_id r = eid ->
         mark_success now eid path dur db !! k = Some (set_success path dur now r))
  /\ (forall now eid msg (db : table) k r,
         db !! k = Some r -> entry_id r = eid ->
         mark_error now eid msg db !! k = Some (set_error (slice_to 500 msg) now r))
  /\ (forall o (db : table) k r,
         db !! k = Some r ->
         match o with
         | OpClaim _ => status r <> Pending
         | OpMarkSuccess _ eid _ _ | OpMarkError _ eid _ => entry_id r <> eid
         end ->
         apply_op db o !! k = Some r)
  /\ (forall now (db : table) e db1,
         NoDup (entry_id <$> db) ->
         claim_pending_entry now db = (Some e, db1) ->
         exists k r,
           db !! k = Some r /\ entry_of r = e /\ status r = Pending
           /\ db1 !! k = Some (set_processing now r)
           /\ forall k' r', k' <> k -> db !! k' = Some r' ->
                            db1 !! k' = Some r' /\ entry_id r' <> fst e).
Proof.
  split; [exact apply_ops_lookup|].
  split; [|split; [|split; [|exact claim_takes_one_row]]].
  - intros now eid path dur db k r Hk Hid.
    unfold mark_success. rewrite sql_update_lookup, Hk. simpl.
    by rewrite decide_True.
  - intros now eid msg db k r Hk Hid.
    unfold mark_error. rewrite sql_update_lookup, Hk. simpl.
    by rewrite decide_True.
  - intros o db k r Hk Ho. destruct o as [now|now eid path dur|now eid msg]; simpl.
    + destruct (claim_lookup now db k r Hk) as (r' & Hr' & _ & _ & Hsame).
      rewrite Hr'. f_equal. by apply Hsame.
    + unfold mark_success. rewrite sql_update_lookup, Hk. simpl.
      by rewrite decide_False.
    + unfold mark_error. rewrite sql_update_lookup, Hk. simpl.
      by rewrite decide_False.
Qed.

Lemma job_status_transitions_witness :
  (exists r', apply_ops [OpClaim 6; OpMarkSuccess 8 2 "out.raw" 1500] Samples.one_pending
                !! 1%nat = Some r'
     /\ entry_id r' = 2
     /\ (rank Pending <= rank (status r'))%nat)
  /\ mark_success 8 2 "out.raw" 1500 Samples.one_pending !! 1%nat
     = Some (set_success "out.raw" 1500 8 (Samples.row 2 "Hello" Pending 5)).
Proof.
  destruct job_status_transitions as (Hops & Hsucc & _ & _ & _).
  split.
  - apply (Hops [OpClaim 6; OpMarkSuccess 8 2 "out.raw" 1500] Samples.one_pending 1%nat
             (Samples.row 2 "Hello" Pending 5)). reflexivity.
  - apply (Hsucc 8 2 "out.raw" 1500 Samples.one_pending 1%nat
             (Samples.row 2 "Hello" Pending 5)); reflexivity.
Defined.

(** C2 as stated fails: [mark_success] on a row whose status is error
    (not processing) is neither refused nor a no-op; it overwrites the
    terminal status, giving error->success. *)
Lemma mark_success_overwrites_error :
  ~ (forall now eid path dur (db : table) k r r',
        db !! k = Some r ->
        mark_success now eid path dur db !! k = Some r' ->
        status r <> Processing -> status r' = status r).
Proof.
  intros H.
  specialize (H 8 3 "out.raw" 1500 Samples.one_pending 2%nat
                (Samples.row 3 "bad" Error 4)
                (set_success "out.raw" 1500 8 (Samples.row 3 "bad" Error 4))
                eq_refl eq_refl).
  simpl in H. assert (Success = Error) as Habs by (apply H; discriminate).
  discriminate Habs.
Qed.

(** C3 (as the code has it): when some row is pending, the claim returns
    the id and text of a pending row [r] of least [created_at]; among
    pending rows created at the same time it is the first in scan order
    (every pending row before it is strictly younger), the id playing no
    part, so it is the one of lowest id whenever the scan runs in
    ascending id order.  The table afterwards is the old one with
    status=processing and started_at=now in exactly the rows that carry
    that id and are still pending; an update that finds no such row
    changes nothing and reports zero rows. *)
Theorem claim_selects_oldest_pending now (db : table) :
  (exists r0, r0 ∈ db /\ status r0 = Pending) ->
  (exists pre r post,
      db = pre ++ r :: post /\ status r = Pending
      /\ (forall x, x ∈ pre -> status x = Pending -> created_at r < created_at x)
      /\ (forall x, x ∈ post -> status x = Pending -> created_at r <= created_at x)
      /\ claim_pending_entry now db
         = (Some (entry_id r, text r),
            (fun x => if decide (entry_id x = entry_id r /\ status x = Pending)
                      then set_processing now x else x) <$> db)
      /\ ((forall i j x y, (i < j)%nat -> db !! i = Some x -> db !! j = Some y ->
                           entry_id x < entry_id y) ->
          forall x, x ∈ db -> status x = Pending -> created_at x = created_at r ->
                    entry_id r <= entry_id x))
  /\ (forall eid,
         (forall x, x ∈ db -> entry_id x = eid -> status x <> Pending) ->
         update_to_processing now eid db = (db, 0%nat)).
Proof.
  intros (r0 & Hr0 & Hp0). split.
  - pose proof (select_spec db) as Hsel.
    unfold claim_pending_entry, select_oldest_pending.
    destruct (order_by_created_at_limit_1 _) as [r|]; [|by destruct (Hsel r0 Hr0)].
    destruct Hsel as (pre & post & Hdb & Hr & Hpre & Hpost).
    exists pre, r, post. repeat split; try done.
    + simpl. unfold update_to_processing.
      assert (Hin : r ∈ db) by (rewrite Hdb; apply elem_of_app; right; left).
      pose proof (sql_update_rowcount_pos
                    (fun x => entry_id x = entry_id r /\ status x = Pending)
                    (set_processing now) db r Hin (conj eq_refl Hr)) as Hpos.
      unfold sql_update in *. simpl in *.
      destruct (length _); [lia | done].
    + intros Hsorted x Hx Hpx Hc.
      rewrite Hdb in Hx. apply elem_of_app in Hx as [Hx|Hx].
      * specialize (Hpre x Hx Hpx). lia.
      * apply elem_of_cons in Hx as [->|Hx]; [lia|].
        apply list_elem_of_lookup in Hx as [j Hj].
        assert (entry_id r < entry_id x); [|lia].
        apply (Hsorted (length pre) (length pre + S j)%nat); [lia | |].
        -- rewrite Hdb. by rewrite list_lookup_middle.
        -- rewrite Hdb. rewrite lookup_app_r by lia.
           replace (length pre + S j - length pre)%nat with (S j) by lia. done.
  - intros eid Hnone. unfold update_to_processing.
    apply sql_update_none. intros x Hx [Hid Hp]. by apply (Hnone x Hx Hid).
Qed.

Lemma claim_selects_oldest_pending_witness :
  (exists pre r post,
      Samples.one_pending = pre ++ r :: post /\ status r = Pending
      /\ (forall x, x ∈ pre -> status x = Pending -> created_at r < created_at x)
      /\ (forall x, x ∈ post -> status x = Pending -> created_at r <= created_at x)
      /\ claim_pending_entry 6 Samples.one_pending
         = (Some (entry_id r, text r),
            (fun x => if decide (entry_id x = entry_id r /\ status x = Pending)
                      then set_processing 6 x else x) <$> Samples.one_pending)
      /\ ((forall i j x y, (i < j)%nat -> Samples.one_pending !! i = Some x ->
                           Samples.one_pending !! j = Some y ->
                           entry_id x < entry_id y) ->
          forall x, x ∈ Samples.one_pending -> status x = Pending ->
                    created_at x = created_at r -> entry_id r <= entry_id x))
  /\ (forall eid,
         (forall x, x ∈ Samples.one_pending -> entry_id x = eid -> status x <> Pending) ->
         update_to_processing 6 eid Samples.one_pending = (Samples.one_pending, 0%nat)).
Proof.
  apply (claim_selects_oldest_pending 6 Samples.one_pending).
  exists (Samples.row 2 "Hello" Pending 5). split; [|reflexivity].
  right. left.
Defined.

(** C3 as stated fails: with two pending rows created at the same time,
    the claim returns the one the scan meets first, here id 2, although
    the row with id 1 is pending and just as old. *)
Lemma claim_tie_not_lowest_id :
  ~ (forall now (db : table) r e,
        r ∈ db -> status r = Pending ->
        fst (claim_pending_entry now db) = Some e ->
        (forall x, x ∈ db -> status x = Pending -> created_at r <= created_at x) ->
        fst e <= entry_id r).
Proof.
  intros H.
  specialize (H 11 Samples.tied_rows (Samples.row 1 "first" Pending 10) (2, "second")).
  assert (2 <= 1) as Habs; [|lia].
  apply H; [right; left | reflexivity | reflexivity |].
  intros x Hx _. unfold Samples.tied_rows in Hx.
  repeat (apply elem_of_cons in Hx as [->|Hx]; [simpl; lia|]).
  by apply not_elem_of_nil in Hx.
Qed.

End JobStoreFacts.

(** *** Concurrent claims *)

Section Race.
Import JobStore.

Abbreviation is_pending := (fun r : audio_entry => status r = Pending).

(** The one pending row of the table. *)
Variable j : audio_entry.

Lemma select_the_pending (db : table) :
  filter is_pending db = [j] -> select_oldest_pending db = Some (entry_of j).
Proof. intros H. unfold select_oldest_pending. by rewrite H. Qed.

Lemma select_no_pending (db : table) :
  filter is_pending db = [] -> select_oldest_pending db = None.
Proof. intros H. unfold select_oldest_pending. by rewrite H. Qed.

Lemma pending_elem (db : table) r :
  filter is_pending db = [j] -> r ∈ db -> status r = Pending -> r = j.
Proof.
  intros H Hr Hp.
  assert (Hin : r ∈ filter is_pending db) by (by apply list_elem_of_filter).
  rewrite H in Hin. by apply list_elem_of_singleton in Hin.
Qed.

Lemma pending_is_pending (db : table) :
  filter is_pending db = [j] -> status j = Pending.
Proof.
  intros H.
  assert (Hin : j ∈ filter is_pending db) by (rewrite H; left).
  by apply list_elem_of_filter in Hin as [? _].
Qed.

Lemma update_wins now (db : table) :
  filter is_pending db = [j] ->
  exists db', update_to_processing now (entry_id j) db = (db', 1%nat)
              /\ filter is_pending db' = [].
Proof.
  intros H. unfold update_to_processing, sql_update. eexists. split.
  - f_equal.
    rewrite <- (list_filter_filter (fun r => entry_id r = entry_id j) is_pending db).
    rewrite H, filter_cons, decide_True by done. done.
  - assert (Hall : forall r, r ∈ db -> status r = Pending -> entry_id r = entry_id j).
    { intros r Hr Hp. by rewrite (pending_elem db r H Hr Hp). }
    clear H. induction db as [|a db IH]; [done|].
    rewrite fmap_cons, filter_cons.
    rewrite IH by (intros r Hr; apply Hall; by right).
    destruct (decide (entry_id a = entry_id j /\ status a = Pending)) as [_|Hn].
    + by rewrite decide_False.
    + rewrite decide_False; [done|].
      intros Hp. apply Hn. split; [|done]. apply Hall; [left | done].
Qed.

Lemma update_loses now eid (db : table) :
  filter is_pending db = [] -> update_to_processing now eid db = (db, 0%nat).
Proof.
  intros H. unfold update_to_processing. apply sql_update_none.
  intros r Hr [_ Hp].
  assert (Hin : r ∈ filter is_pending db) by (by apply list_elem_of_filter).
  rewrite H in Hin. by apply not_elem_of_nil in Hin.
Qed.

Lemma claim_wins now (db : table) :
  filter is_pending db = [j] ->
  claim_pending_entry now db
  = (Some (entry_of j), fst (update_to_processing now (entry_id j) db)).
Proof.
  intros H. unfold claim_pending_entry. rewrite (select_the_pending db H).
  change (fst (entry_of j)) with (entry_id j).
  by destruct (update_wins now db H) as (db' & -> & _).
Qed.

Lemma contender_step i now a (db : table) lock :
  filter is_pending db = [] -> contender j a ->
  exists a' lock',
    step_attempt i now a db lock = (a', db, lock') /\ contender j a'.
Proof.
  intros Hp Hc. destruct a as [|e|e since|e db'|[e|]|]; try done; cbn [step_attempt].
  - rewrite (select_no_pending db Hp). by eexists _, _.
  - destruct lock as [l|].
    + destruct (BUSY_TIMEOUT <=? now - now); by eexists _, _.
    + rewrite (update_loses now (fst e) db Hp). simpl. by eexists _, _.
  - destruct lock as [l|].
    + destruct (BUSY_TIMEOUT <=? now - since); by eexists _, _.
    + rewrite (update_loses now (fst e) db Hp). simpl. by eexists _, _.
  - destruct lock as [[h since]|]; [|by eexists _, _].
    destruct (bool_decide (h = i) && (POLL_INTERVAL <=? now - since)); by eexists _, _.
  - by eexists _, _.
Qed.

Lemma race_inv_step (db0 : table) s d :
  filter is_pending db0 = [j] -> race_inv j db0 s -> race_inv j db0 (step_system s d).
Proof.
  intros Hone Hinv. destruct s as [db lock ats], d as [i now].
  unfold step_system. cbn [fst snd sys_db sys_lock sys_attempts].
  destruct (ats !! i) as [a|] eqn:Hi; [|done].
  assert (Hlt : (i < length ats)%nat) by (by eapply lookup_lt_Some).
  destruct Hinv as [[Hdb Hlock]|(w & t & Hdb & Hw & Hothers)];
    cbn [sys_db sys_lock sys_attempts] in *.
  - subst db. destruct lock as [[h since]|].
    + destruct Hlock as [(t & Hh) Hoth].
      destruct (decide (i = h)) as [->|Hne].
      * (* the commit *)
        rewrite Hh in Hi. injection Hi as <-. cbn [step_attempt].
        right. exists h, t. cbn [sys_db sys_attempts].
        split; [done|]. split; [by rewrite list_lookup_insert_eq|].
        intros k a Hk Hka. rewrite list_lookup_insert_ne in Hka by done.
        by apply (Hoth k a).
      * (* another worker meets the lock *)
        destruct (Hoth i a Hne Hi) as [Hc Hnn].
        assert (Hkeep : forall a', contender j a' -> a' <> AtReturned None ->
                  race_inv j db0 (mk_system db0 (Some (h, since)) (<[i:=a']> ats))).
        { intros a' Hc' Hnn'. left. cbn [sys_db sys_lock sys_attempts].
          split; [done|]. split.
          - exists t. by rewrite list_lookup_insert_ne.
          - intros k b Hk [(-> & <- & _)|[_ Hkb]]%list_lookup_insert_Some;
              [by split | by apply (Hoth k b)]. }
        destruct a as [|e|e since'|e db'|[e|]|]; try done; cbn [step_attempt].
        -- rewrite (select_the_pending db0 Hone). by apply Hkeep.
        -- destruct (BUSY_TIMEOUT <=? now - now); by apply Hkeep.
        -- destruct (BUSY_TIMEOUT <=? now - since'); by apply Hkeep.
        -- by apply Hkeep.
    + destruct (Hlock i a Hi) as [-> | ->]; cbn [step_attempt].
      * (* the SELECT *)
        rewrite (select_the_pending db0 Hone). left. cbn [sys_db sys_lock sys_attempts].
        split; [done|].
        intros k b [(-> & <- & _)|[_ Hkb]]%list_lookup_insert_Some; [by right | eauto].
      * (* the UPDATE that takes the row *)
        change (fst (entry_of j)) with (entry_id j).
        destruct (update_wins now db0 Hone) as (db' & Hupd & Hp'). rewrite Hupd.
        cbn [Nat.eqb]. left. cbn [sys_db sys_lock sys_attempts].
        split; [done|]. split.
        -- exists now. by rewrite list_lookup_insert_eq, Hupd.
        -- intros k b Hk Hkb. rewrite list_lookup_insert_ne in Hkb by done.
           destruct (Hlock k b Hkb) as [-> | ->]; by split.
  - (* after the commit *)
    assert (Hp : filter is_pending db = []).
    { rewrite Hdb. by destruct (update_wins t db0 Hone) as (db' & -> & ?). }
    destruct (decide (i = w)) as [->|Hne].
    + rewrite Hw in Hi. injection Hi as <-. cbn [step_attempt].
      assert (Hsame : forall lock', race_inv j db0
                        (mk_system db lock' (<[w:=AtReturned (Some (entry_of j))]> ats))).
      { intros lock'. rewrite list_insert_id by done. right. by exists w, t. }
      destruct lock as [[h since]|]; [|apply Hsame].
      destruct (bool_decide (h = w) && (POLL_INTERVAL <=? now - since)); apply Hsame.
    + destruct (contender_step i now a db lock Hp (Hothers i a Hne Hi))
        as (a' & lock' & -> & Hc').
      right. exists w, t. cbn [sys_db sys_attempts].
      split; [done|]. split; [by rewrite list_lookup_insert_ne|].
      intros k b Hk [(-> & <- & _)|[_ Hkb]]%list_lookup_insert_Some; [done | eauto].
Qed.

Lemma race_inv_run (db0 : table) sched s :
  filter is_pending db0 = [j] -> race_inv j db0 s -> race_inv j db0 (run_schedule sched s).
Proof.
  intros Hone. revert s. induction sched as [|d sched IH]; intros s Hs; [done|].
  simpl. apply IH. by apply race_inv_step.
Qed.

Lemma run_length sched s :
  length (sys_attempts (run_schedule sched s)) = length (sys_attempts s).
Proof.
  revert s. induction sched as [|d sched IH]; intros s; [done|].
  simpl. rewrite IH. destruct s as [db lock ats], d as [k now]. unfold step_system. simpl.
  destruct (ats !! k); [|done].
  destruct (step_attempt _ _ _ _ _) as [[? ?] ?]. simpl. by rewrite length_insert.
Qed.

Lemma select_some_pending (db : table) e :
  select_oldest_pending db = Some e ->
  exists r, r ∈ db /\ status r = Pending /\ entry_of r = e.
Proof.
  intros H. pose proof (select_spec db) as Hsel. unfold select_oldest_pending in H.
  destruct (order_by_created_at_limit_1 _) as [r|]; [|discriminate H].
  destruct Hsel as (pre & post & -> & Hr & _ & _). inversion H; subst.
  exists r. split; [apply elem_of_app; right; left | done].
Qed.

(** A worker alone on the database: its SELECT, its UPDATE and its
    commit make up one call of [claim_pending_entry]. *)
Lemma lone_worker_is_a_claim t0 t t1 (db : table) :
  run_schedule [(0%nat, t0); (0%nat, t); (0%nat, t1)] (start_system 1 db)
  = mk_system (snd (claim_pending_entry t db)) None
      [AtReturned (fst (claim_pending_entry t db))].
Proof.
  unfold claim_pending_entry, run_schedule, start_system, step_system, step_attempt.
  pose proof (select_some_pending db) as Hsome.
  remember select_oldest_pending as sel eqn:Hsel.
  assert (Hpos : forall e, sel db = Some e ->
                           (0 < snd (update_to_processing t (fst e) db))%nat).
  { intros e (r & Hin & Hp & <-)%Hsome.
    by apply (sql_update_rowcount_pos _ _ db r). }
  remember update_to_processing as upd eqn:Hupd. clear Hsel Hupd Hsome.
  simpl. destruct (sel db) as [row|] eqn:Hs; simpl; [|done].
  specialize (Hpos row eq_refl).
  destruct (upd t (fst row) db) as [db' n]. simpl in Hpos |- *.
  destruct n as [|n]; [lia | done].
Qed.

(** C1 (as the code has it): [n] workers run [claim_pending_entry]
    concurrently, their statements interleaved in any order, on a table
    whose one pending row is [j].  At every moment a worker that has got
    a job back has got [j], and only one worker has.  Once every attempt
    has ended, exactly one worker has returned [j], the committed table
    is the one a single call of [claim_pending_entry] leaves, with no row
    pending, and every other attempt has either returned [None] or
    raised [database is locked]. *)
Theorem exactly_one_claim_wins (n : nat) (db : table) (sched : list (nat * Z)) :
  filter is_pending db = [j] ->
  let final := run_schedule sched (start_system n db) in
  (forall i e, sys_attempts final !! i = Some (AtReturned (Some e)) -> e = entry_of j)
  /\ (forall i k e1 e2,
         sys_attempts final !! i = Some (AtReturned (Some e1)) ->
         sys_attempts final !! k = Some (AtReturned (Some e2)) -> i = k)
  /\ ((0 < n)%nat ->
      (forall i a, sys_attempts final !! i = Some a -> ended a = true) ->
      exists w t,
        sys_attempts final !! w = Some (AtReturned (Some (entry_of j)))
        /\ claim_pending_entry t db = (Some (entry_of j), sys_db final)
        /\ filter is_pending (sys_db final) = []
        /\ forall i a, i <> w -> sys_attempts final !! i = Some a ->
                       a = AtReturned None \/ a = AtLocked).
Proof.
  intros Hone final.
  assert (Hinit : race_inv j db (start_system n db)).
  { left. split; [done|]. simpl. intros i a [-> _]%lookup_replicate_1. by left. }
  pose proof (race_inv_run db sched _ Hone Hinit) as Hinv. fold final in Hinv.
  assert (Hlen : length (sys_attempts final) = n).
  { unfold final. rewrite run_length. simpl. apply length_replicate. }
  destruct Hinv as [[Hdb Hlock]|(w & t & Hdb & Hw & Hothers)].
  - (* nobody has returned yet *)
    assert (Hnone : forall i a, sys_attempts final !! i = Some a -> ended a = true ->
                                a = AtLocked).
    { intros i a Hi He. destruct (sys_lock final) as [[h since]|].
      - destruct Hlock as [(t & Hh) Hoth]. destruct (decide (i = h)) as [->|Hne].
        + rewrite Hh in Hi. injection Hi as <-. done.
        + destruct (Hoth i a Hne Hi) as [Hc Hnn].
          by destruct a as [|e|e since'|e db'|[e|]|].
      - by destruct (Hlock i a Hi) as [-> | ->]. }
    assert (Hno : forall i e, sys_attempts final !! i <> Some (AtReturned (Some e))).
    { intros i e Hi. by pose proof (Hnone i _ Hi eq_refl). }
    split; [intros i e Hi; by destruct (Hno i e)|].
    split; [intros i k e1 e2 Hi; by destruct (Hno i e1)|].
    intros Hn Hall. exfalso.
    destruct (sys_lock final) as [[h since]|].
    + destruct Hlock as [(t & Hh) _]. by pose proof (Hall h _ Hh).
    + destruct (lookup_lt_is_Some_2 (sys_attempts final) 0%nat) as [a Ha]; [lia|].
      pose proof (Hall _ _ Ha) as He. by destruct (Hlock _ _ Ha) as [-> | ->].
  - assert (Huniq : forall i e, sys_attempts final !! i = Some (AtReturned (Some e)) ->
                                i = w /\ e = entry_of j).
    { intros i e Hi. destruct (decide (i = w)) as [->|Hne].
      - rewrite Hw in Hi. by injection Hi as <-.
      - by pose proof (Hothers i _ Hne Hi). }
    split; [intros i e Hi; by destruct (Huniq i e Hi)|].
    split.
    { intros i k e1 e2 Hi Hk.
      destruct (Huniq i e1 Hi) as [-> _]. by destruct (Huniq k e2 Hk) as [-> _]. }
    intros Hn Hall. exists w, t. split; [done|].
    split; [by rewrite (claim_wins t db Hone), Hdb|].
    split; [rewrite Hdb; by destruct (update_wins t db Hone) as (db' & -> & ?)|].
    intros i a Hne Hi. pose proof (Hothers i a Hne Hi) as Hc.
    pose proof (Hall i a Hi) as He.
    destruct a as [|e|e since'|e db'|[e|]|]; try done; [by left | by right].
Qed.

End Race.

Section RaceInstance.
Import JobStore.

Lemma exactly_one_claim_wins_witness :
  let final := run_schedule Samples.locked_out_schedule
                 (start_system 5 Samples.one_pending) in
  (exists w t,
      sys_attempts final !! w = Some (AtReturned (Some (2, "Hello"%string)))
      /\ claim_pending_entry t Samples.one_pending
         = (Some (2, "Hello"%string), sys_db final)
      /\ filter (fun r => status r = Pending) (sys_db final) = []
      /\ forall i a, i <> w -> sys_attempts final !! i = Some a ->
                     a = AtReturned None \/ a = AtLocked)
  /\ sys_attempts final
     = [ AtReturned (Some (2, "Hello"%string)); AtReturned None; AtReturned None;
         AtReturned None; AtLocked ].
Proof.
  split; [|vm_compute; reflexivity].
  destruct (exactly_one_claim_wins (Samples.row 2 "Hello" Pending 5)
              5 Samples.one_pending Samples.locked_out_schedule)
    as (_ & _ & Hended).
  - reflexivity.
  - apply Hended; [lia|].
    intros i a Hi. vm_compute in Hi.
    do 5 (destruct i as [|i]; [injection Hi as <-; reflexivity|]).
    discriminate Hi.
Defined.

End RaceInstance.

(** ** Exceptions stay contained *)

Section Containment.
Context {St : Type}.

Lemma contained_ret {A} (a : A) : contained (ret (St:=St) a).
Proof. intros s e s' H. inversion H. Qed.

Lemma contained_bind {A B} (c : M St A) (k : A -> M St B) :
  contained c -> (forall a, contained (k a)) -> contained (bind c k).
Proof.
  intros Hc Hk s e s' H. unfold bind in H.
  destruct (c s) as [[a|e1] s1] eqn:Hcs.
  - by eapply Hk.
  - inversion H; subst. by eapply Hc.
Qed.

Lemma contained_try_except {A} (body : M St A) handler :
  contained body ->
  (forall e h, handler e = Some h -> contained h) ->
  contained (try_except body handler).
Proof.
  intros Hb Hh s e s' H. unfold try_except in H.
  destruct (body s) as [[a|e1] s1] eqn:Hbs; [inversion H|].
  destruct (handler e1) as [h|] eqn:Hhe.
  - by eapply Hh.
  - inversion H; subst. by eapply Hb.
Qed.

Lemma contained_except_Exception {A} (h : py_exc -> M St A) :
  (forall e, contained (h e)) ->
  forall e h', except_Exception h e = Some h' -> contained h'.
Proof.
  intros Hh e h' H. unfold except_Exception in H.
  destruct (is_Exception e); inversion H; subst. apply Hh.
Qed.

Lemma contained_lift {A} (o : outcome A) :
  outcome_ok o = true -> contained (lift (St:=St) o).
Proof. intros Ho s e s' H. inversion H; subst. exact Ho. Qed.

Lemma contained_lift_fault (f : option py_exc) :
  fault_ok f = true -> contained (lift_fault (St:=St) f).
Proof.
  intros Hf s e s' H. unfold lift_fault in H.
  destruct f as [e0|]; inversion H; subst. exact Hf.
Qed.

End Containment.

(** ** The worker loop *)

Section WorkerFacts.
Import JobStore Worker.

Lemma contained_emit ev : contained (Worker.emit ev).
Proof. intros s e s' H. inversion H. Qed.

Lemma contained_db_call {A} fault (f : table -> A * table) :
  fault_ok fault = true -> contained (db_call fault f).
Proof.
  intros Hf s e s' H. unfold db_call in H.
  destruct fault as [e0|].
  - inversion H; subst. exact Hf.
  - destruct (f (db s)). inversion H.
Qed.

Lemma contained_sleep : contained (sleep false).
Proof. apply contained_emit. Qed.

Lemma no_interrupt_fields w :
  no_interrupt w = true ->
  fault_ok (w_connect w) = true /\ fault_ok (w_claim w) = true
  /\ outcome_ok (w_tts w) = true /\ fault_ok (w_write_wav w) = true
  /\ outcome_ok (w_duration w) = true /\ fault_ok (w_mark_success w) = true
  /\ fault_ok (w_mark_error w) = true /\ w_sleep_idle w = false
  /\ fault_ok (w_close w) = true /\ w_sleep_backoff w = false.
Proof.
  unfold no_interrupt. rewrite !andb_true_iff, !negb_true_iff. tauto.
Qed.

Lemma contained_process_entry w e :
  no_interrupt w = true -> contained (process_entry w e).
Proof.
  intros (_ & _ & Htts & Hwr & Hdur & _)%no_interrupt_fields.
  unfold process_entry.
  repeat first
    [ apply contained_ret | apply contained_emit
    | apply contained_lift; assumption
    | apply contained_lift_fault; assumption
    | apply contained_bind; [|intros ?] ].
Qed.

Lemma contained_handle_entry w e :
  no_interrupt w = true -> contained (handle_entry w e).
Proof.
  intros Hw. pose proof (no_interrupt_fields w Hw) as (_&_&_&_&_& Hms & Hme & _).
  unfold handle_entry. apply contained_try_except.
  - apply contained_bind; [by apply contained_process_entry|].
    intros r. by apply contained_db_call.
  - apply contained_except_Exception. intros exn.
    apply contained_bind; [apply contained_emit|]. intros _.
    by apply contained_db_call.
Qed.

Lemma contained_iteration_body w :
  no_interrupt w = true -> contained (iteration_body w).
Proof.
  intros Hw.
  pose proof (no_interrupt_fields w Hw) as (Hc & Hcl &_&_&_&_&_& Hsl & Hclose & _).
  unfold iteration_body.
  apply contained_bind; [by apply contained_lift_fault|]. intros _.
  apply contained_bind; [by apply contained_db_call|]. intros claimed.
  apply contained_bind; [|intros _; by apply contained_lift_fault].
  destruct claimed as [e|].
  - by apply contained_handle_entry.
  - rewrite Hsl. apply contained_sleep.
Qed.

Lemma iteration_continues w s :
  no_interrupt w = true -> exists s', iteration w s = (Continue, s').
Proof.
  intros Hw. unfold iteration.
  destruct (iteration_body w s) as [[u|e] s1] eqn:Hbody; [eauto|].
  pose proof (contained_iteration_body w Hw s e s1 Hbody) as He.
  rewrite decide_False.
  2:{ unfold is_Exception in He. intros Hk. rewrite Hk in He. discriminate. }
  rewrite He.
  pose proof (no_interrupt_fields w Hw) as (_&_&_&_&_&_&_&_&_& Hb).
  rewrite Hb. simpl. eauto.
Qed.

Lemma main_loop_runs ws s :
  Forall (fun w => no_interrupt w = true) ws -> exists s', main_loop ws s = Running s'.
Proof.
  intros Hws. revert s. induction Hws as [|w ws Hw _ IH]; intros s; simpl; [eauto|].
  destruct (iteration_continues w s Hw) as [s1 ->]. apply IH.
Qed.

(** C6: the loop ends only through an interruption.  As long as the
    world raises nothing but [Exception]s and no interrupt arrives, every
    pass ends back at the top of the loop, however many passes are run.
    When processing the claimed job raises an [Exception] (synthesizer,
    file or duration), the pass records it with [mark_error] on that job
    and continues; when anything else in the pass raises an [Exception],
    the pass logs it, sleeps for the poll interval and continues. *)
Theorem worker_loop_survives_failures :
  (forall ws s, Forall (fun w => no_interrupt w = true) ws ->
                exists s', main_loop ws s = Running s')
  /\ (forall w s e db1 exn s2,
         w_connect w = None -> w_claim w = None ->
         w_mark_error w = None -> w_close w = None ->
         claim_pending_entry (t_claim w) (db s) = (Some e, db1) ->
         process_entry w e (mk_wstate db1 (wlog s)) = (Raises exn, s2) ->
         is_Exception exn = true ->
         iteration w s
         = (Continue,
            mk_wstate (mark_error (t_done w) (fst e) (exc_str exn) (db s2))
              (wlog s2 ++ [LogError ("Entry " ++ format_id (fst e) ++ " failed: "
                                     ++ exc_str exn)%string])))
  /\ (forall w s exn s1,
         iteration_body w s = (Raises exn, s1) ->
         is_Exception exn = true -> w_sleep_backoff w = false ->
         iteration w s
         = (Continue,
            mk_wstate (db s1)
              (wlog s1 ++ [LogError ("Worker error: " ++ exc_str exn)%string] ++ [Sleep])))
  /\ (forall w s c s', iteration w s = (c, s') -> c <> Continue -> no_interrupt w = false).
Proof.
  split; [exact main_loop_runs|]. split; [|split].
  - intros w s e db1 exn s2 Hc Hcl Hme Hclose Hclaim Hproc Hexn.
    unfold iteration, iteration_body, bind, lift_fault, db_call.
    rewrite Hc, Hcl, Hclaim. cbn [db wlog].
    unfold handle_entry, try_except, bind. rewrite Hproc.
    unfold except_Exception. rewrite Hexn.
    unfold Worker.emit, db_call. rewrite Hme, Hclose. reflexivity.
  - intros w s exn s1 Hbody Hexn Hb. unfold iteration. rewrite Hbody.
    rewrite decide_False.
    2:{ unfold is_Exception in Hexn. intros Hk. rewrite Hk in Hexn. discriminate. }
    rewrite Hexn, Hb. unfold bind, sleep, Worker.emit. simpl.
    by rewrite <- app_assoc.
  - intros w s c s' Hit Hc. destruct (no_interrupt w) eqn:Hw; [|done].
    destruct (iteration_continues w s Hw) as [s1 Hs1]. congruence.
Qed.

Lemma worker_loop_survives_failures_witness :
  (exists s', main_loop Samples.three_passes (mk_wstate Samples.one_pending [])
              = Running s')
  /\ iteration Samples.tts_fails_world (mk_wstate Samples.one_pending [])
     = (Continue,
        mk_wstate (mark_error 21 2 "model exploded"
                     (snd (claim_pending_entry 20 Samples.one_pending)))
          [LogInfo "Processing entry 2: Hello"; LogError "Entry 2 failed: model exploded"]).
Proof.
  destruct worker_loop_survives_failures as (Hloop & Hsynth & _ & _).
  split.
  - apply (Hloop Samples.three_passes). repeat constructor.
  - apply (Hsynth Samples.tts_fails_world (mk_wstate Samples.one_pending [])
             (2, "Hello"%string) (snd (claim_pending_entry 20 Samples.one_pending))
             (mk_exc OtherException "model exploded")
             (mk_wstate (snd (claim_pending_entry 20 Samples.one_pending))
                [LogInfo "Processing entry 2: Hello"])); reflexivity.
Defined.

End WorkerFacts.

(** ** The AI responder *)

Section ResponderFacts.
Import Py Glados.
Context {St : Type}.
Variable json_loads : string -> option json.
Variable spawn : list string -> outcome completed_process.

(** Output that is not JSON: the stripped output if that is non-empty,
    else the synthesized error text, and no session id. *)
Lemma responder_fallback_not_json prompt session_id cp (s : St) :
  subprocess_run spawn (claude_cmd prompt session_id) = Returns cp ->
  json_loads (stdout cp) = None ->
  get_ai_response_with_session json_loads spawn prompt session_id s
  = (Returns (JStr (str_or (strip (stdout cp)) ("Error: " ++ stderr cp)%string), JNull), s).
Proof.
  intros Hrun Hload. unfold get_ai_response_with_session, bind, lift, try_except, loads.
  by rewrite Hrun, Hload.
Qed.

(** A JSON object that lacks one of the two keys: the same fallback. *)
Lemma responder_fallback_missing_key prompt session_id cp items (s : St) :
  subprocess_run spawn (claude_cmd prompt session_id) = Returns cp ->
  json_loads (stdout cp) = Some (JObj items) ->
  assoc "result" items = None \/ assoc "session_id" items = None ->
  get_ai_response_with_session json_loads spawn prompt session_id s
  = (Returns (JStr (str_or (strip (stdout cp)) ("Error: " ++ stderr cp)%string), JNull), s).
Proof.
  intros Hrun Hload Hkey.
  unfold get_ai_response_with_session, bind, lift, try_except, loads, getitem.
  rewrite Hrun, Hload.
  destruct (assoc "result" items) as [v|]; [|done].
  destruct Hkey as [Hk|Hk]; [done|]. by rewrite Hk.
Qed.

(** C8, where the code departs from it: when the output is valid JSON but
    not an object (here a list), [data['result']] raises [TypeError],
    which the [except] clause does not name, so the call raises instead of
    falling back. *)
Theorem responder_list_output_raises prompt session_id cp l (s : St) :
  subprocess_run spawn (claude_cmd prompt session_id) = Returns cp ->
  json_loads (stdout cp) = Some (JArr l) ->
  get_ai_response_with_session json_loads spawn prompt session_id s
  = (Raises (mk_exc TypeError "list indices must be integers or slices, not str"), s).
Proof.
  intros Hrun Hload.
  unfold get_ai_response_with_session, bind, lift, try_except, loads, getitem.
  by rewrite Hrun, Hload.
Qed.

End ResponderFacts.

Lemma responder_list_output_raises_witness :
  Glados.get_ai_response_with_session Samples.sample_loads
    (fun _ => Returns (Glados.mk_completed "[]" "")) (Py.JStr "hi") Py.JNull tt
  = (Raises (mk_exc TypeError "list indices must be integers or slices, not str"), tt).
Proof.
  apply (responder_list_output_raises Samples.sample_loads
           (fun _ => Returns (Glados.mk_completed "[]" "")) (Py.JStr "hi") Py.JNull
           (Glados.mk_completed "[]" "") [] tt); reflexivity.
Defined.

(** ** The session handler *)

Section Lawful.
Import Py Glados Server.

Lemma bind_inv {St A B} (c : M St A) (k : A -> M St B) s o s' :
  bind c k s = (o, s') ->
  (exists a s1, c s = (Returns a, s1) /\ k a s1 = (o, s'))
  \/ (exists e, c s = (Raises e, s') /\ o = Raises e).
Proof.
  unfold bind. destruct (c s) as [[a|e] s1]; intros H.
  - left. eauto.
  - right. inversion H; subst. eauto.
Qed.

Lemma guarded_weaken p tr :
  guarded_sends None tr = true -> guarded_sends p tr = true.
Proof. destruct tr as [|[] tr]; simpl; try done. Qed.

Lemma guarded_app p a b :
  guarded_sends p a = true -> guarded_sends None b = true ->
  guarded_sends p (a ++ b) = true.
Proof.
  revert p. induction a as [|ev a IH]; intros p Ha Hb; simpl.
  - by apply guarded_weaken.
  - simpl in Ha. destruct ev; try (by apply IH).
    destruct p as [[[]| | | | |]|]; try done. by apply IH.
Qed.

Lemma labels_app a b : labels (a ++ b) = labels a ++ labels b.
Proof. unfold labels, frames_sent. by rewrite omap_app, fmap_app. Qed.

Lemma cat_all_elem L1 L2 l1 l2 :
  l1 ∈ L1 -> l2 ∈ L2 -> l1 ++ l2 ∈ cat_all L1 L2.
Proof.
  intros H1 H2. unfold cat_all. apply list_elem_of_In, in_flat_map.
  exists l1. split; [by apply list_elem_of_In|].
  apply in_map. by apply list_elem_of_In.
Qed.

Lemma subset_b_sound L1 L2 l : subset_b L1 L2 = true -> l ∈ L1 -> l ∈ L2.
Proof.
  unfold subset_b. rewrite forallb_forall. intros H Hl.
  apply list_elem_of_In in Hl. apply H in Hl. by apply bool_decide_eq_true in Hl.
Qed.

Lemma lawful_weaken {A} (c : M sstate A) L X L' X' :
  lawful c L X -> subset_b L L' = true -> subset_b X X' = true -> lawful c L' X'.
Proof.
  intros Hc HL HX s o s' H. destruct (Hc s o s' H) as (evs & Htr & Hg & Hl).
  exists evs. repeat split; try done.
  destruct o; eauto using subset_b_sound.
Qed.

Lemma lawful_ret {A} (a : A) : lawful (ret a) [[]] [].
Proof.
  intros s o s' H. inversion H; subst. exists [].
  rewrite app_nil_r. repeat split; try done. left.
Qed.

Lemma lawful_lift {A} (o : outcome A) : lawful (lift o) [[]] [[]].
Proof.
  intros s o' s' H. inversion H; subst. exists [].
  rewrite app_nil_r. repeat split; try done. destruct o'; left.
Qed.

Lemma lawful_lift_fault f : lawful (lift_fault f) [[]] [[]].
Proof.
  intros s o s' H. unfold lift_fault in H. exists [].
  destruct f; inversion H; subst; rewrite app_nil_r; repeat split; try done; left.
Qed.

Lemma lawful_emit ev :
  match ev with EvSendJson _ _ => False | _ => True end ->
  lawful (Server.emit ev) [[]] [].
Proof.
  intros Hev s o s' H. inversion H; subst. exists [ev]. simpl.
  repeat split; destruct ev; try done; left.
Qed.

Lemma lawful_bind {A B} (c : M sstate A) (k : A -> M sstate B) L1 X1 L2 X2 :
  lawful c L1 X1 -> (forall a, lawful (k a) L2 X2) ->
  lawful (bind c k) (cat_all L1 L2) (X1 ++ cat_all L1 X2).
Proof.
  intros Hc Hk s o s' H.
  apply bind_inv in H as [(a & s1 & H1 & H2)|(e & H1 & ->)].
  - destruct (Hc _ _ _ H1) as (ev1 & Ht1 & Hg1 & Hl1).
    destruct (Hk a _ _ _ H2) as (ev2 & Ht2 & Hg2 & Hl2).
    exists (ev1 ++ ev2). rewrite Ht2, Ht1, app_assoc, labels_app.
    repeat split; [by apply guarded_app|].
    destruct o.
    + by apply cat_all_elem.
    + apply elem_of_app. right. by apply cat_all_elem.
  - destruct (Hc _ _ _ H1) as (ev1 & Ht1 & Hg1 & Hl1).
    exists ev1. repeat split; try done. apply elem_of_app. by left.
Qed.

Lemma lawful_if {A} (b : bool) (c1 c2 : M sstate A) L1 X1 L2 X2 :
  lawful c1 L1 X1 -> lawful c2 L2 X2 ->
  lawful (if b then c1 else c2) (L1 ++ L2) (X1 ++ X2).
Proof.
  intros H1 H2 s o s' H. destruct b.
  - destruct (H1 _ _ _ H) as (evs & ? & ? & Hl). exists evs.
    repeat split; try done. destruct o; apply elem_of_app; by left.
  - destruct (H2 _ _ _ H) as (evs & ? & ? & Hl). exists evs.
    repeat split; try done. destruct o; apply elem_of_app; by right.
Qed.

Lemma lawful_try_except {A} (body : M sstate A) handler L X HL HX :
  lawful body L X ->
  (forall e h, handler e = Some h -> lawful h HL HX) ->
  lawful (try_except body handler) (L ++ cat_all X HL) (X ++ cat_all X HX).
Proof.
  intros Hb Hh s o s' H. unfold try_except in H.
  destruct (body s) as [[a|e] s1] eqn:Hbs.
  - inversion H; subst. destruct (Hb _ _ _ Hbs) as (evs & ? & ? & Hl).
    exists evs. repeat split; try done. apply elem_of_app. by left.
  - destruct (Hb _ _ _ Hbs) as (ev1 & Ht1 & Hg1 & Hl1).
    destruct (handler e) as [h|] eqn:He.
    + destruct (Hh e h He _ _ _ H) as (ev2 & Ht2 & Hg2 & Hl2).
      exists (ev1 ++ ev2). rewrite Ht2, Ht1, app_assoc, labels_app.
      repeat split; [by apply guarded_app|].
      destruct o; apply elem_of_app; right; by apply cat_all_elem.
    + inversion H; subst. exists ev1. repeat split; try done.
      apply elem_of_app. by left.
Qed.

Section OnConnection.
Variable json_loads : string -> option json.
Variable ws : nat -> ws_status.

Lemma safe_send_inv data s o s' :
  safe_send ws data s = (o, s') ->
  exists evs,
    s' = advance s evs
    /\ guarded_sends None evs = true
    /\ match o with
       | Returns true => labels evs = [label_of data] /\ ws (n_sends s) = WsOpen
       | Returns false => labels evs = []
       | Raises e => labels evs = [] /\ is_Exception e = false
       end.
Proof.
  unfold safe_send, bind, next_status, ws_closed, ws_send_json, try_except,
    except_Exception, Server.emit, ret, raise, advance.
  simpl. destruct (ws (n_sends s)) as [| |e] eqn:Hws; simpl.
  - intros H. inversion H; subst. eexists. rewrite <- app_assoc. by repeat split.
  - intros H. inversion H; subst. eexists. rewrite <- app_assoc. by repeat split.
  - destruct (is_Exception e) eqn:He; simpl; intros H; inversion H; subst;
      eexists; rewrite <- !app_assoc; by repeat split.
Qed.

Lemma lawful_safe_send data lab :
  label_of data = lab -> lawful (safe_send ws data) [[]; [lab]] [[]].
Proof.
  intros <- s o s' H. destruct (safe_send_inv _ _ _ _ H) as (evs & -> & Hg & Ho).
  exists evs. repeat split; try done.
  destruct o as [[|]|e].
  - destruct Ho as [-> _]. right. left.
  - rewrite Ho. left.
  - destruct Ho as [-> _]. left.
Qed.

(** [if not await safe_send(..): continue], then the rest [k]. *)
Lemma lawful_send_then data lab (k : M sstate unit) L X :
  label_of data = lab ->
  lawful k L X ->
  lawful (bind (safe_send ws data) (fun sent => if negb sent then ret tt else k))
    ([] :: map (cons lab) L) ([] :: map (cons lab) X).
Proof.
  intros <- Hk s o s' H.
  apply bind_inv in H as [(sent & s1 & H1 & H2)|(e & H1 & ->)].
  - destruct (safe_send_inv _ _ _ _ H1) as (ev1 & -> & Hg1 & Ho).
    destruct sent; simpl in H2.
    + destruct Ho as [Hl1 _].
      destruct (Hk _ _ _ H2) as (ev2 & Ht2 & Hg2 & Hl2).
      exists (ev1 ++ ev2). rewrite Ht2. simpl. rewrite app_assoc, labels_app, Hl1.
      repeat split; [by apply guarded_app|].
      destruct o; right; apply list_elem_of_In, in_map; by apply list_elem_of_In.
    + inversion H2; subst. exists ev1. rewrite Ho. repeat split; try done. left.
  - destruct (safe_send_inv _ _ _ _ H1) as (ev1 & -> & Hg1 & Hl1 & _).
    exists ev1. rewrite Hl1. repeat split; try done. left.
Qed.

Lemma lawful_responder spawn prompt session_id :
  lawful (get_ai_response_with_session json_loads spawn prompt session_id) [[]] [[]].
Proof.
  unfold get_ai_response_with_session.
  eapply lawful_weaken.
  - eapply lawful_bind; [apply lawful_lift|]. intros result.
    eapply lawful_try_except.
    + eapply lawful_bind; [apply lawful_lift|]. intros data.
      eapply lawful_bind; [apply lawful_lift|]. intros text.
      eapply lawful_bind; [apply lawful_lift|]. intros sid.
      apply lawful_ret.
    + intros e h He. destruct (exc_cls e); inversion He; subst; apply lawful_ret.
  - reflexivity.
  - reflexivity.
Qed.

Section OneRequest.
Variable rw : request_world.

Ltac law :=
  repeat first
    [ apply lawful_ret
    | apply lawful_lift
    | apply lawful_lift_fault
    | eapply lawful_safe_send; cbn; reflexivity
    | apply lawful_responder
    | apply lawful_emit; exact I
    | eapply lawful_bind; [|intros ?] ].

Lemma lawful_phase_complete text sid :
  lawful (phase_complete ws rw text sid) [[]; [LResponse]] [[]].
Proof.
  unfold phase_complete. eapply lawful_weaken; [law | reflexivity | reflexivity].
Qed.

Lemma lawful_phase_generating text sid :
  lawful (phase_generating ws rw text sid)
    [[]; [LGenerating]; [LGenerating; LResponse]] [[]; [LGenerating]].
Proof.
  unfold phase_generating. eapply lawful_weaken.
  - eapply lawful_bind; [apply lawful_emit; exact I|]. intros _.
    eapply lawful_send_then; [cbn; reflexivity | apply lawful_phase_complete].
  - reflexivity.
  - reflexivity.
Qed.

Lemma lawful_phase_thinking prompt sid :
  lawful (phase_thinking json_loads ws rw prompt sid)
    [[]; [LThinking]; [LThinking; LError]; [LThinking; LGenerating];
     [LThinking; LGenerating; LResponse]]
    [[]; [LThinking]; [LThinking; LGenerating]].
Proof.
  unfold phase_thinking. eapply lawful_weaken.
  - eapply lawful_bind; [apply lawful_emit; exact I|]. intros _.
    eapply lawful_send_then; [cbn; reflexivity|].
    eapply lawful_bind; [apply lawful_emit; exact I|]. intros _.
    eapply lawful_bind; [apply lawful_responder|]. intros reply.
    eapply lawful_bind; [apply lawful_lift|]. intros _.
    eapply lawful_bind; [apply lawful_emit; exact I|]. intros _.
    apply lawful_if.
    + law.
    + apply lawful_phase_generating.
  - reflexivity.
  - reflexivity.
Qed.

Lemma lawful_handle_prompt raw :
  lawful (handle_prompt json_loads ws rw raw)
    [[]; [LError]; [LThinking]; [LThinking; LError]; [LThinking; LGenerating];
     [LThinking; LGenerating; LResponse]]
    [[]; [LThinking]; [LThinking; LGenerating]].
Proof.
  unfold handle_prompt. eapply lawful_weaken.
  - eapply lawful_bind; [apply lawful_lift|]. intros data.
    eapply lawful_bind; [apply lawful_lift|]. intros prompt.
    eapply lawful_bind; [apply lawful_lift|]. intros sid.
    apply lawful_if.
    + law.
    + eapply lawful_bind; [apply lawful_lift|]. intros _.
      eapply lawful_bind; [apply lawful_emit; exact I|]. intros _.
      eapply lawful_bind; [apply lawful_if; law|]. intros _.
      apply lawful_phase_thinking.
  - reflexivity.
  - reflexivity.
Qed.

Lemma lawful_on_error e h :
  on_error ws e = Some h -> lawful h [[]; [LError]] [[]].
Proof.
  unfold on_error. intros H.
  destruct (decide _); [|destruct (is_Exception e)]; inversion H; subst;
    (eapply lawful_weaken; [law | reflexivity | reflexivity]).
Qed.

Lemma lawful_handle_message m :
  lawful (handle_message json_loads ws rw m) request_shapes request_shapes.
Proof.
  destruct m as [raw| |]; simpl.
  - eapply lawful_weaken.
    + eapply lawful_try_except; [apply lawful_handle_prompt | apply lawful_on_error].
    + reflexivity.
    + reflexivity.
  - eapply lawful_weaken; [apply lawful_emit; exact I | reflexivity | reflexivity].
  - eapply lawful_weaken; [apply lawful_ret | reflexivity | reflexivity].
Qed.

End OneRequest.

(** The loop over the inbox only appends guarded events. *)
Lemma receive_loop_guarded inbox s o s' :
  receive_loop json_loads ws inbox s = (o, s') ->
  exists evs, trace s' = trace s ++ evs /\ guarded_sends None evs = true.
Proof.
  revert s. induction inbox as [|[m rw] inbox IH]; intros s H; simpl in H.
  - inversion H; subst. exists []. by rewrite app_nil_r.
  - apply bind_inv in H as [(a & s1 & H1 & H2)|(e & H1 & ->)].
    + destruct (lawful_handle_message rw m _ _ _ H1) as (ev1 & Ht1 & Hg1 & _).
      destruct (IH _ H2) as (ev2 & Ht2 & Hg2).
      exists (ev1 ++ ev2). rewrite Ht2, Ht1, app_assoc.
      split; [done | by apply guarded_app].
    + destruct (lawful_handle_message rw m _ _ _ H1) as (ev1 & Ht1 & Hg1 & _).
      eauto.
Qed.

Lemma safe_send_closed data s :
  ws (n_sends s) = WsClosed ->
  safe_send ws data s
  = (Returns false,
     advance s [EvClosedCheck true; EvLog "Cannot send - connection closed"]).
Proof.
  intros Hc.
  unfold safe_send, bind, next_status, ws_closed, Server.emit, ret, advance.
  simpl. rewrite Hc. simpl. by rewrite <- app_assoc.
Qed.

Lemma safe_send_open data s :
  ws (n_sends s) = WsOpen ->
  safe_send ws data s
  = (Returns true, advance s [EvClosedCheck false; EvSendJson data true]).
Proof.
  intros Hc.
  unfold safe_send, bind, next_status, ws_closed, ws_send_json, try_except,
    Server.emit, ret, advance.
  simpl. rewrite Hc. simpl. by rewrite <- app_assoc.
Qed.

(** C9: a send on a closed connection returns [False], calls no
    [send_json] and raises nothing; no [Exception] ever leaves
    [safe_send]; in every run of the handler each [send_json] directly
    follows a reading of [ws.closed] that found the socket open; and the
    handler itself returns normally unless a [KeyboardInterrupt] reaches
    it. *)
Theorem send_on_closed_connection_is_safe :
  (forall data s,
      ws (n_sends s) = WsClosed ->
      safe_send ws data s
      = (Returns false,
         advance s [EvClosedCheck true; EvLog "Cannot send - connection closed"]))
  /\ (forall data s e s',
         safe_send ws data s = (Raises e, s') -> is_Exception e = false)
  /\ (forall inbox s o s',
         websocket_handler json_loads ws inbox s = (o, s') ->
         (exists evs, trace s' = trace s ++ evs /\ guarded_sends None evs = true)
         /\ (o = Returns tt
             \/ exists e, o = Raises e /\ exc_cls e = KeyboardInterrupt)).
Proof.
  split; [exact safe_send_closed|]. split.
  - intros data s e s' H.
    by destruct (safe_send_inv _ _ _ _ H) as (evs & _ & _ & _ & He).
  - intros inbox s o s' H. unfold websocket_handler, try_except in H.
    destruct (receive_loop json_loads ws inbox s) as [[[]|e] s1] eqn:Hloop.
    + inversion H; subst. simpl.
      destruct (receive_loop_guarded _ _ _ _ Hloop) as (evs & Ht & Hg).
      split; [|by left].
      exists (evs ++ [EvLog "Client disconnected"]). rewrite Ht, app_assoc.
      split; [done | by apply guarded_app].
    + destruct (receive_loop_guarded _ _ _ _ Hloop) as (evs & Ht & Hg).
      destruct (decide (exc_cls e = CancelledError)) as [Hc|Hc].
      * inversion H; subst. simpl. split; [|by left].
        eexists. rewrite Ht, <- !app_assoc. split; [done|].
        by apply guarded_app.
      * destruct (is_Exception e) eqn:He.
        -- inversion H; subst. simpl. split; [|by left].
           eexists. rewrite Ht, <- !app_assoc. split; [done|].
           by apply guarded_app.
        -- inversion H; subst. simpl. split.
           ++ eexists. rewrite Ht, <- !app_assoc. split; [done|].
              by apply guarded_app.
           ++ right. exists e. split; [done|].
              unfold is_Exception in He. by destruct (exc_cls e).
Qed.


(** The responder leaves the state alone, so its result can be read off
    beforehand. *)
Lemma responder_pure {St} spawn prompt session_id (s : St) :
  get_ai_response_with_session json_loads spawn prompt session_id s
  = (fst (get_ai_response_with_session json_loads spawn prompt session_id tt), s).
Proof.
  unfold get_ai_response_with_session, bind, lift, try_except, ret.
  destruct (subprocess_run spawn (claude_cmd prompt session_id)) as [cp|e]; [|done].
  destruct (loads json_loads (stdout cp)) as [data|e].
  - destruct (getitem data "result") as [text|e].
    + destruct (getitem data "session_id") as [sid|e]; [done|].
      by destruct (exc_cls e).
    + by destruct (exc_cls e).
  - by destruct (exc_cls e).
Qed.

Ltac run_handler H :=
  repeat first
    [ progress (cbv [try_except handle_prompt phase_thinking phase_generating
                     phase_complete on_error safe_send next_status ws_closed
                     ws_send_json except_Exception bind Server.emit lift lift_fault
                     ret raise loads] in H;
                cbn [n_sends trace negb fst snd] in H)
    | rewrite (responder_pure (St:=sstate)) in H
    | match goal with a : (json * json)%type |- _ => destruct a end
    | match type of H with
      | context [match ?x with _ => _ end] =>
          lazymatch x with
          | context [match _ with _ => _ end] => fail
          | _ => destruct x eqn:?
          end
      end ].

Ltac use_equations :=
  repeat match goal with
         | Heq : ?x = _ |- context [?x] => rewrite Heq
         end.

(** C4 (as the code has it).  Whatever the socket does, the frames
    delivered for one inbound message come in the order thinking,
    generating, terminal frame, none repeated, a response is preceded by
    both status frames, and no send is attempted after one that failed.
    When the handling completes and every send attempted was delivered,
    the frames are exactly those of [expected_phases]: the three phases
    ending in the response or in an error frame, except that generating is
    skipped when the responder raises or its reply is empty or cannot be
    sliced, and that a message turned down before the first phase gets
    the error frame alone.  On a socket that stays open every send
    attempted is delivered. *)
Theorem request_frames_in_phase_order rw m s o s' :
  handle_message json_loads ws rw m s = (o, s') ->
  exists evs,
    trace s' = trace s ++ evs
    /\ labels evs ∈ request_shapes
    /\ (LResponse ∈ labels evs -> labels evs = [LThinking; LGenerating; LResponse])
    /\ (LGenerating ∈ labels evs -> take 2 (labels evs) = [LThinking; LGenerating])
    /\ failed_send_is_last (send_attempts evs) = true
    /\ ((forall k, ws k = WsOpen) -> forallb id (send_attempts evs) = true)
    /\ (forall raw,
          m = MsgText raw -> o = Returns tt -> forallb id (send_attempts evs) = true ->
          labels evs = expected_phases json_loads rw raw).
Proof.
  intros H. destruct m as [raw| |]; cbn [handle_message] in H.
  - run_handler H;
      try (match goal with
           | Hn : is_Exception ?e = false, Hc : exc_cls ?e = JSONDecodeError |- _ =>
               unfold is_Exception in Hn; rewrite Hc in Hn; discriminate Hn
           end);
      try (exfalso; clear H; congruence);
      injection H as <- <-;
      first [ eexists; split; [cbn [trace]; rewrite <- ?app_assoc; reflexivity|]
            | exists []; split; [by rewrite app_nil_r|] ];
      (split; [compute_done|]);
      (split; [(intros Hm; first [reflexivity | exfalso; revert Hm; compute_done])|]);
      (split; [(intros Hm; first [reflexivity | exfalso; revert Hm; compute_done])|]);
      (split; [(vm_compute; reflexivity)|]);
      (split;
       [ intros Hopen;
         repeat match goal with Hw : ws _ = _ |- _ => rewrite Hopen in Hw; try discriminate Hw end;
         reflexivity
       | intros raw0 [= <-] Ho Hall; try discriminate Ho; try discriminate Hall;
         repeat match goal with
                | Hb : negb _ = true |- _ => apply negb_true_iff in Hb
                | Hb : negb _ = false |- _ => apply negb_false_iff in Hb
                end;
         unfold expected_phases; use_equations; cbn [succeeds negb andb];
         use_equations; rewrite ?andb_false_r; reflexivity ]).
  - unfold Server.emit in H. injection H as <- <-. exists [EvLog "WebSocket error"].
    repeat split; try compute_done. intros raw Hm. discriminate Hm.
  - unfold ret in H. injection H as <- <-. exists []. rewrite app_nil_r.
    repeat split; try compute_done. intros raw Hm. discriminate Hm.
Qed.

(** C7: a message whose prompt is missing or falsy makes the handler do
    exactly one thing, a [safe_send] of the error frame: no status frame,
    no responder, no synthesizer.  The suite ends by [continue], so the
    loop goes on with the next message on the same connection. *)
Theorem empty_prompt_only_error rw raw data p rest s :
  json_loads raw = Some data ->
  dict_get data "prompt" (JStr "") = Returns p ->
  truthy p = false ->
  handle_message json_loads ws rw (MsgText raw) s
  = match ws (n_sends s) with
    | WsOpen =>
        (Returns tt,
         advance s [EvClosedCheck false; EvSendJson (FError "No prompt provided") true])
    | WsClosed =>
        (Returns tt,
         advance s [EvClosedCheck true; EvLog "Cannot send - connection closed"])
    | WsSendRaises e =>
        if is_Exception e then
          (Returns tt,
           advance s [EvClosedCheck false; EvSendJson (FError "No prompt provided") false;
                      EvLog ("Failed to send: " ++ exc_str e)%string])
        else
          (Raises e,
           advance s [EvClosedCheck false; EvSendJson (FError "No prompt provided") false])
    end
  /\ forall s1,
       handle_message json_loads ws rw (MsgText raw) s = (Returns tt, s1) ->
       receive_loop json_loads ws ((MsgText raw, rw) :: rest) s
       = receive_loop json_loads ws rest s1.
Proof.
  intros Hload Hprompt Hfalsy. split.
  - unfold handle_message, try_except, handle_prompt, bind, lift, loads.
    rewrite Hload, Hprompt.
    assert (Hsid : exists sid, dict_get data "session_id" JNull = Returns sid).
    { destruct data; try discriminate Hprompt. simpl.
      destruct (assoc "session_id" items); eauto. }
    destruct Hsid as [sid ->]. rewrite Hfalsy. simpl.
    unfold safe_send, bind, next_status, ws_closed, ws_send_json, try_except,
      except_Exception, Server.emit, ret, raise, advance.
    simpl. destruct (ws (n_sends s)) as [| |e]; simpl.
    + by rewrite <- app_assoc.
    + by rewrite <- app_assoc.
    + destruct (is_Exception e) eqn:He; simpl.
      * by rewrite <- !app_assoc.
      * unfold on_error. rewrite He.
        rewrite decide_False; [by rewrite <- app_assoc|].
        intros Hc. unfold is_Exception in He. by rewrite Hc in He.
  - intros s1 H1.
    change (receive_loop json_loads ws ((MsgText raw, rw) :: rest) s)
      with (bind (handle_message json_loads ws rw (MsgText raw))
              (fun _ => receive_loop json_loads ws rest) s).
    unfold bind. by rewrite H1.
Qed.


(** C10: when the responder returns the empty string for a request whose
    thinking frame was delivered, the frames of the request are the
    thinking frame followed by the error frame (by nothing when that send
    finds the socket unusable); no generating frame is sent and the
    synthesizer is not called. *)
Theorem empty_reply_gives_error_after_thinking rw raw data p sid new_sid s o s' :
  json_loads raw = Some data ->
  dict_get data "prompt" (JStr "") = Returns (JStr p) -> p <> ""%string ->
  dict_get data "session_id" JNull = Returns sid ->
  ws (n_sends s) = WsOpen ->
  (forall st : sstate,
      get_ai_response_with_session json_loads (rw_spawn rw) (JStr p) sid st
      = (Returns (JStr "", new_sid), st)) ->
  handle_message json_loads ws rw (MsgText raw) s = (o, s') ->
  exists evs,
    trace s' = trace s ++ evs
    /\ never_generates evs = true
    /\ frames_sent evs
       = FStatus Thinking (random_choice (draw_thinking rw) SPINNER_MESSAGES_thinking)
         :: match ws (S (n_sends s)) with
            | WsOpen => [FError "Failed to get AI response"]
            | _ => []
            end.
Proof.
  intros Hload Hprompt Hp Hsid Hopen Hreply H.
  assert (Htruthy : truthy (JStr p) = true).
  { destruct p; [done | reflexivity]. }
  unfold handle_message, try_except, handle_prompt, bind at 1 2 3, lift, loads in H.
  rewrite Hload, Hprompt, Hsid, Htruthy in H. cbn [negb] in H.
  unfold bind at 1 2 3, lift, preview, Server.emit in H. cbn [n_sends trace] in H.
  destruct (truthy sid); unfold ret in H; cbn [n_sends trace] in H;
    unfold phase_thinking, bind at 1 2, Server.emit in H; cbn [n_sends trace] in H;
    (rewrite safe_send_open in H by exact Hopen); cbn [negb] in H;
    unfold bind at 1 2, Server.emit, advance in H; cbn [n_sends trace] in H;
    rewrite Hreply in H;
    cbv [bind lift preview Server.emit safe_send next_status ws_closed ws_send_json
         try_except except_Exception ret raise fst snd truthy negb String.eqb] in H;
    cbn [n_sends trace] in H;
    destruct (ws (S (n_sends s))) as [| |e]; cbv beta iota in H;
    try (destruct (is_Exception e) eqn:He; cbv beta iota in H;
         [|unfold on_error in H; rewrite He in H;
           rewrite decide_False in H
             by (intros Hc; unfold is_Exception in He; by rewrite Hc in He)]);
    cbn [n_sends trace] in H;
    inversion H; subst; cbn [trace]; eexists; rewrite <- !app_assoc;
    (split; [reflexivity | split; reflexivity]).
Qed.

End OnConnection.
End Lawful.

Lemma send_on_closed_connection_is_safe_witness :
  Server.safe_send Samples.closing_ws (Server.FError "No prompt provided")
    (Server.mk_sstate 1 [])
  = (Returns false,
     Server.advance (Server.mk_sstate 1 [])
       [Server.EvClosedCheck true; Server.EvLog "Cannot send - connection closed"]).
Proof.
  apply (proj1 (send_on_closed_connection_is_safe Samples.sample_loads
                  Samples.closing_ws)).
  reflexivity.
Defined.

Section HandlerInstances.
Import Py Glados Server Samples.

Lemma request_frames_in_phase_order_witness :
  let s' := snd (handle_message sample_loads open_ws (world_printing good_reply_text)
                   (MsgText hi_prompt_text) fresh) in
  exists evs,
    trace s' = trace fresh ++ evs
    /\ labels evs ∈ request_shapes
    /\ (LResponse ∈ labels evs -> labels evs = [LThinking; LGenerating; LResponse])
    /\ (LGenerating ∈ labels evs -> take 2 (labels evs) = [LThinking; LGenerating])
    /\ failed_send_is_last (send_attempts evs) = true
    /\ ((forall k, open_ws k = WsOpen) -> forallb id (send_attempts evs) = true)
    /\ (forall raw,
          MsgText hi_prompt_text = MsgText raw -> Returns tt = Returns tt ->
          forallb id (send_attempts evs) = true ->
          labels evs = expected_phases sample_loads (world_printing good_reply_text) raw).
Proof.
  apply (request_frames_in_phase_order sample_loads open_ws
           (world_printing good_reply_text) (MsgText hi_prompt_text) fresh (Returns tt)).
  vm_compute. reflexivity.
Defined.

(** The frames due in four sample requests: a reply that can be spoken,
    a synthesizer that fails, an empty reply, an empty prompt. *)
Example expected_phases_samples :
  expected_phases sample_loads (world_printing good_reply_text) hi_prompt_text
  = [LThinking; LGenerating; LResponse]
  /\ expected_phases sample_loads MoreSamples.world_tts_fails hi_prompt_text
     = [LThinking; LGenerating; LError]
  /\ expected_phases sample_loads (world_printing empty_reply_text) hi_prompt_text
     = [LThinking; LError]
  /\ expected_phases sample_loads (world_printing good_reply_text) empty_prompt_text
     = [LError].
Proof. vm_compute. repeat split. Qed.

(** A request that runs all three phases. *)
Example full_request_labels :
  labels (trace (snd (handle_message sample_loads open_ws (world_printing good_reply_text)
                        (MsgText hi_prompt_text) fresh)))
  = [LThinking; LGenerating; LResponse].
Proof. vm_compute. reflexivity. Qed.

(** C4 as stated fails: the responder answers with an empty reply, every
    send succeeds, the request completes, and the phases are thinking then
    error, with no generating frame between them. *)
Lemma empty_reply_skips_generating :
  ~ (forall json_loads ws rw raw s s',
        handle_message json_loads ws rw (MsgText raw) s = (Returns tt, s') ->
        (forall k, ws k = WsOpen) ->
        exists evs,
          trace s' = trace s ++ evs
          /\ (labels evs = [LThinking; LGenerating; LResponse]
              \/ labels evs = [LThinking; LGenerating; LError])).
Proof.
  intros H.
  destruct (H sample_loads open_ws (world_printing empty_reply_text) hi_prompt_text fresh
              (snd (handle_message sample_loads open_ws (world_printing empty_reply_text)
                      (MsgText hi_prompt_text) fresh)))
    as (evs & Ht & Hl).
  - vm_compute. reflexivity.
  - done.
  - vm_compute in Ht. subst evs. vm_compute in Hl. destruct Hl; discriminate.
Qed.

Lemma empty_prompt_only_error_witness :
  handle_message sample_loads open_ws (world_printing good_reply_text)
    (MsgText empty_prompt_text) fresh
  = (Returns tt,
     advance fresh [EvClosedCheck false; EvSendJson (FError "No prompt provided") true])
  /\ forall s1,
       handle_message sample_loads open_ws (world_printing good_reply_text)
         (MsgText empty_prompt_text) fresh = (Returns tt, s1) ->
       receive_loop sample_loads open_ws
         [ (MsgText empty_prompt_text, world_printing good_reply_text);
           (MsgText hi_prompt_text, world_printing good_reply_text) ] fresh
       = receive_loop sample_loads open_ws
           [ (MsgText hi_prompt_text, world_printing good_reply_text) ] s1.
Proof.
  apply (empty_prompt_only_error sample_loads open_ws (world_printing good_reply_text)
           empty_prompt_text (JObj [("prompt"%string, JStr "")]) (JStr "")
           [ (MsgText hi_prompt_text, world_printing good_reply_text) ] fresh);
    reflexivity.
Defined.

(** After the rejected message the same connection serves a valid prompt. *)
Example usable_after_empty_prompt :
  labels (trace (snd (receive_loop sample_loads open_ws
                        [ (MsgText empty_prompt_text, world_printing good_reply_text);
                          (MsgText hi_prompt_text, world_printing good_reply_text) ]
                        fresh)))
  = [LError; LThinking; LGenerating; LResponse].
Proof. vm_compute. reflexivity. Qed.

Lemma empty_reply_gives_error_after_thinking_witness :
  let s' := snd (handle_message sample_loads open_ws (world_printing empty_reply_text)
                   (MsgText hi_prompt_text) fresh) in
  exists evs,
    trace s' = trace fresh ++ evs
    /\ never_generates evs = true
    /\ frames_sent evs
       = [ FStatus Thinking "Consulting the mainframe...";
           FError "Failed to get AI response" ].
Proof.
  apply (empty_reply_gives_error_after_thinking sample_loads open_ws
           (world_printing empty_reply_text) hi_prompt_text
           (JObj [("prompt"%string, JStr "hi")]) "hi" JNull (JStr "s1") fresh (Returns tt)).
  - reflexivity.
  - reflexivity.
  - discriminate.
  - reflexivity.
  - reflexivity.
  - intros st. reflexivity.
  - vm_compute. reflexivity.
Defined.

End HandlerInstances.

(** * Further properties of the job table *)

Section QueueFacts.
Import JobStore Queue.

Lemma claim_some_inv now (db : table) e db1 :
  claim_pending_entry now db = (Some e, db1) ->
  exists r,
    r ∈ db /\ status r = Pending /\ entry_of r = e
    /\ (forall x, x ∈ db -> status x = Pending -> created_at r <= created_at x)
    /\ db1 = (fun x => if decide (entry_id x = entry_id r /\ status x = Pending)
                       then set_processing now x else x) <$> db.
Proof.
  intros Hclaim. pose proof (select_spec db) as Hsel.
  unfold claim_pending_entry, select_oldest_pending in Hclaim.
  destruct (order_by_created_at_limit_1 _) as [r|]; [|discriminate Hclaim].
  destruct Hsel as (pre & post & Hdb & Hr & Hpre & Hpost).
  change (entry_of <$> Some r) with (Some (entry_of r)) in Hclaim.
  cbv beta iota in Hclaim. change (fst (entry_of r)) with (entry_id r) in Hclaim.
  unfold update_to_processing, sql_update in Hclaim.
  destruct (_ =? 0)%nat; inversion Hclaim; subst e db1. clear Hclaim.
  exists r. split; [rewrite Hdb; apply elem_of_app; right; left|].
  repeat split; try done.
  intros x Hx Hp. rewrite Hdb in Hx. apply elem_of_app in Hx as [Hx|Hx].
  - specialize (Hpre x Hx Hp). lia.
  - apply elem_of_cons in Hx as [->|Hx]; [lia | by apply Hpost].
Qed.

Lemma claim_none_inv now (db : table) db1 :
  claim_pending_entry now db = (None, db1) ->
  (forall x, x ∈ db -> status x <> Pending) /\ db1 = db.
Proof.
  intros Hclaim. pose proof (select_spec db) as Hsel.
  unfold claim_pending_entry, select_oldest_pending in Hclaim.
  destruct (order_by_created_at_limit_1 _) as [r|].
  - exfalso. destruct Hsel as (pre & post & Hdb & Hr & _ & _).
    change (entry_of <$> Some r) with (Some (entry_of r)) in Hclaim.
    cbv beta iota in Hclaim. change (fst (entry_of r)) with (entry_id r) in Hclaim.
    assert (Hin : r ∈ db) by (rewrite Hdb; apply elem_of_app; right; left).
    pose proof (sql_update_rowcount_pos
                  (fun x => entry_id x = entry_id r /\ status x = Pending)
                  (set_processing now) db r Hin (conj eq_refl Hr)) as Hpos.
    unfold update_to_processing in Hclaim.
    destruct (sql_update _ _ db) as [db' n]. simpl in Hpos.
    destruct n; [lia | discriminate Hclaim].
  - change (entry_of <$> None) with (@None entry) in Hclaim.
    cbv beta iota in Hclaim. inversion Hclaim; subst. split; [exact Hsel | done].
Qed.

(** A row found pending after an operation is the row that was there
    before it. *)
Lemma pending_after_op o (db : table) k r :
  apply_op db o !! k = Some r -> status r = Pending -> db !! k = Some r.
Proof.
  intros Hk Hp. destruct o as [now|now eid path dur|now eid msg]; simpl in Hk.
  - destruct (claim_pending_entry now db) as [[e|] db1] eqn:Hc; simpl in Hk.
    + destruct (claim_some_inv _ _ _ _ Hc) as (r0 & _ & _ & _ & _ & ->).
      rewrite list_lookup_fmap in Hk.
      destruct (db !! k) as [x|]; [|discriminate Hk]. simpl in Hk.
      destruct (decide _); inversion Hk; subst; [discriminate Hp | done].
    + destruct (claim_none_inv _ _ _ Hc) as [_ ->]. done.
  - unfold mark_success in Hk. rewrite sql_update_lookup in Hk.
    destruct (db !! k) as [x|]; [|discriminate Hk]. simpl in Hk.
    destruct (decide _); inversion Hk; subst; [discriminate Hp | done].
  - unfold mark_error in Hk. rewrite sql_update_lookup in Hk.
    destruct (db !! k) as [x|]; [|discriminate Hk]. simpl in Hk.
    destruct (decide _); inversion Hk; subst; [discriminate Hp | done].
Qed.

(** The jobs handed out by the claims of any sequence of operations are
    rows that were pending at the start, in non-decreasing order of
    [created_at]: the queue is served in arrival order, whatever marks
    come in between. *)
Theorem claims_in_arrival_order ops (db : table) :
  exists rows,
    Forall2 (fun r e => entry_of r = e) rows (claimed ops db)
    /\ Forall (fun r => r ∈ db /\ status r = Pending) rows
    /\ StronglySorted (fun a b => created_at a <= created_at b) rows.
Proof.
  revert db. induction ops as [|o ops IH]; intros db.
  - exists []. repeat split; constructor.
  - destruct (IH (apply_op db o)) as (rows & Hents & Hpend & Hsorted).
    assert (Hpend' : Forall (fun r => r ∈ db /\ status r = Pending) rows).
    { eapply Forall_impl; [exact Hpend|]. intros r [Hin Hp]. split; [|done].
      apply list_elem_of_lookup in Hin as [k Hk].
      apply list_elem_of_lookup. exists k. by eapply pending_after_op. }
    destruct o as [now|now eid path dur|now eid msg]; cbn [claimed];
      try (exists rows; by repeat split).
    destruct (claim_pending_entry now db) as [[e|] db1] eqn:Hc; cbn [fst];
      [|exists rows; by repeat split].
    destruct (claim_some_inv _ _ _ _ Hc) as (r & Hin & Hp & He & Hold & _).
    exists (r :: rows). repeat split.
    + by constructor.
    + by constructor.
    + constructor; [done|]. eapply Forall_impl; [exact Hpend'|].
      intros x [Hx Hpx]. by apply Hold.
Qed.


Lemma apply_op_fields o (db : table) k r :
  db !! k = Some r ->
  exists r', apply_op db o !! k = Some r'
    /\ entry_id r' = entry_id r /\ text r' = text r /\ created_at r' = created_at r
    /\ (status r <> Pending -> started_at r' = started_at r /\ status r' <> Pending).
Proof.
  intros Hk. destruct o as [now|now eid path dur|now eid msg]; simpl.
  - destruct (claim_pending_entry now db) as [[e|] db1] eqn:Hc; simpl.
    + destruct (claim_some_inv _ _ _ _ Hc) as (r0 & _ & _ & _ & _ & ->).
      rewrite list_lookup_fmap, Hk. simpl. eexists; split; [done|].
      destruct (decide _) as [[_ Hp]|]; simpl.
      * split; [done|]. split; [done|]. split; [done|]. intros Hnp. by destruct Hnp.
      * split; [done|]. split; [done|]. split; [done|]. intros Hnp. by split.
    + destruct (claim_none_inv _ _ _ Hc) as [_ ->]. exists r.
      split; [done|]. split; [done|]. split; [done|]. split; [done|].
      intros Hnp. by split.
  - unfold mark_success. rewrite sql_update_lookup, Hk. simpl.
    eexists; split; [done|].
    destruct (decide _); simpl; (split; [done|]; split; [done|]; split; [done|]);
      intros Hnp; by split.
  - unfold mark_error. rewrite sql_update_lookup, Hk. simpl.
    eexists; split; [done|].
    destruct (decide _); simpl; (split; [done|]; split; [done|]; split; [done|]);
      intros Hnp; by split.
Qed.

Lemma apply_op_length o (db : table) : length (apply_op db o) = length db.
Proof.
  destruct o as [now|now eid path dur|now eid msg]; simpl.
  - destruct (claim_pending_entry now db) as [[e|] db1] eqn:Hc; simpl.
    + destruct (claim_some_inv _ _ _ _ Hc) as (r0 & _ & _ & _ & _ & ->).
      apply length_fmap.
    + by destruct (claim_none_inv _ _ _ Hc) as [_ ->].
  - unfold mark_success, sql_update. simpl. apply length_fmap.
  - unfold mark_error, sql_update. simpl. apply length_fmap.
Qed.

(** No operation adds or removes a row, and none touches a row's id,
    text or [created_at]; [started_at] is written only by the claim that
    takes the row out of pending, so once a row has left pending its
    [started_at] stays and it never becomes pending again. *)
Theorem operations_keep_job_identity ops (db : table) :
  length (apply_ops ops db) = length db
  /\ forall k r,
       db !! k = Some r ->
       exists r', apply_ops ops db !! k = Some r'
         /\ entry_id r' = entry_id r /\ text r' = text r
         /\ created_at r' = created_at r
         /\ (status r <> Pending ->
             started_at r' = started_at r /\ status r' <> Pending).
Proof.
  revert db. induction ops as [|o ops IH]; intros db.
  - split; [done|]. intros k r Hk. exists r.
    split; [done|]. split; [done|]. split; [done|]. split; [done|].
    intros Hnp. by split.
  - change (apply_ops (o :: ops) db) with (apply_ops ops (apply_op db o)).
    destruct (IH (apply_op db o)) as [Hlen Hrows]. split.
    + rewrite Hlen. apply apply_op_length.
    + intros k r Hk.
      destruct (apply_op_fields o db k r Hk) as (r1 & H1 & Hid1 & Ht1 & Hc1 & Hs1).
      destruct (Hrows k r1 H1) as (r2 & H2 & Hid2 & Ht2 & Hc2 & Hs2).
      exists r2. split; [done|].
      split; [congruence|]. split; [congruence|]. split; [congruence|].
      intros Hnp. destruct (Hs1 Hnp) as [Hst Hnp1].
      destruct (Hs2 Hnp1) as [Hst2 Hnp2]. split; congruence.
Qed.

(** Marking an id that no row carries changes nothing. *)
Theorem mark_unknown_id_changes_nothing now eid path dur msg (db : table) :
  (forall r, r ∈ db -> entry_id r <> eid) ->
  mark_success now eid path dur db = db /\ mark_error now eid msg db = db.
Proof.
  intros Hno. unfold mark_success, mark_error.
  split; (rewrite sql_update_none; [done|]; intros r Hr; by apply Hno).
Qed.

(** With unique ids, a claim at [t1] followed by [mark_success] at [t2]
    on the returned id turns exactly the claimed row into a success row
    carrying the path, the duration and both timestamps; every other row
    is as it was before the claim. *)
Theorem claim_then_mark_success t1 t2 path dur (db : table) e db1 :
  NoDup (entry_id <$> db) ->
  claim_pending_entry t1 db = (Some e, db1) ->
  exists k r,
    db !! k = Some r /\ entry_of r = e /\ status r = Pending
    /\ mark_success t2 (fst e) path dur db1 !! k
       = Some (mk_entry (entry_id r) (text r) Success (created_at r) (Some t1) (Some t2)
                        (Some path) (Some dur) (error_message r))
    /\ forall k', k' <> k -> mark_success t2 (fst e) path dur db1 !! k' = db !! k'.
Proof.
  intros Hnd Hclaim.
  destruct (claim_takes_one_row t1 db e db1 Hnd Hclaim)
    as (k & r & Hk & He & Hp & Hk1 & Hothers).
  exists k, r. split; [done|]. split; [done|]. split; [done|]. split.
  - unfold mark_success. rewrite sql_update_lookup, Hk1. simpl.
    rewrite decide_True; [done|]. by rewrite <- He.
  - intros k' Hne. unfold mark_success. rewrite sql_update_lookup.
    destruct (db !! k') as [r'|] eqn:Hk'.
    + destruct (Hothers k' r' Hne Hk') as [Hk1' Hid]. rewrite Hk1'. simpl.
      by rewrite decide_False.
    + assert (Hnone : db1 !! k' = None).
      { apply lookup_ge_None. apply lookup_ge_None in Hk'.
        destruct (claim_some_inv _ _ _ _ Hclaim) as (r0 & _ & _ & _ & _ & Hdb1).
        by rewrite Hdb1, length_fmap. }
      by rewrite Hnone.
Qed.

End QueueFacts.

Section AnyTable.
Import JobStore Queue.

Variable db0 : table.

(** A step that leaves the committed table alone and gives worker [i] a
    state in which it has neither returned a job nor updated a row. *)
Lemma claims_inv_harmless (db : table) lock lock' ats i a a' :
  claims_inv db0 (mk_system db lock ats) ->
  ats !! i = Some a ->
  (forall e, a' = AtSelected e \/ (exists t, a' = AtWaiting e t) ->
             exists r, r ∈ db0 /\ status r = Pending /\ entry_of r = e) ->
  (forall e, a' <> AtReturned (Some e)) ->
  (forall e db', a' <> AtUpdated e db') ->
  lock' = lock \/ (forall k e db', k <> i -> ats !! k <> Some (AtUpdated e db')) ->
  claims_inv db0 (mk_system db lock' (<[i:=a']> ats)).
Proof.
  intros (Hrows & Hheld & Hgone & Hdiff & Hupd) Hi Hent Hnr Hnu Hlock.
  cbn [sys_db sys_lock sys_attempts] in *.
  split; [done|]. split; [|split; [|split]]; cbn [sys_db sys_lock sys_attempts].
  - intros k e [Hk|[[t Hk]|[[db' Hk]|Hk]]];
      apply list_lookup_insert_Some in Hk as [(-> & Hk & _)|[Hne Hk]].
    + apply Hent. left. congruence.
    + apply (Hheld k e). by left.
    + apply Hent. right. exists t. congruence.
    + apply (Hheld k e). right. left. by exists t.
    + by destruct (Hnu e db').
    + apply (Hheld k e). right. right. left. by exists db'.
    + by destruct (Hnr e).
    + apply (Hheld k e). by repeat right.
  - intros k e [(-> & Hk & _)|[_ Hk]]%list_lookup_insert_Some; [by destruct (Hnr e) | eauto].
  - intros k1 k2 e1 e2 Hne
      [(-> & H1 & _)|[_ H1]]%list_lookup_insert_Some
      [(-> & H2 & _)|[_ H2]]%list_lookup_insert_Some;
      [done | by destruct (Hnr e1) | by destruct (Hnr e2) | eauto].
  - intros k e db' [(-> & Hk & _)|[Hne Hk]]%list_lookup_insert_Some;
      [by destruct (Hnu e db')|].
    destruct Hlock as [-> | Hno]; [by apply (Hupd k) | by destruct (Hno k e db')].
Qed.

(** The UPDATE of a worker that finds the lock free. *)
Lemma claims_inv_update (db : table) ats i a e now :
  claims_inv db0 (mk_system db None ats) ->
  ats !! i = Some a ->
  (a = AtSelected e \/ exists t, a = AtWaiting e t) ->
  claims_inv db0
    (let '(db', rowcount) := update_to_processing now (fst e) db in
     if (rowcount =? 0)%nat
     then mk_system db (Some (i, now)) (<[i:=AtReturned None]> ats)
     else mk_system db (Some (i, now)) (<[i:=AtUpdated e db']> ats)).
Proof.
  intros Hinv Hi Ha.
  assert (Hfree : forall k e' db', k <> i -> ats !! k <> Some (AtUpdated e' db')).
  { intros k e' db' _ Hk. destruct Hinv as (_ & _ & _ & _ & Hupd).
    by destruct (Hupd k e' db' Hk) as (t & Hl & _). }
  destruct (update_to_processing now (fst e) db) as [db' n] eqn:Hu.
  destruct (n =? 0)%nat eqn:Hn.
  - eapply claims_inv_harmless; try done.
    + intros e' [He|[t He]]; discriminate He.
    + by right.
  - destruct Hinv as (Hrows & Hheld & Hgone & Hdiff & Hupd).
    cbn [sys_db sys_lock sys_attempts] in *.
    assert (Hrow : exists r, r ∈ db0 /\ status r = Pending /\ entry_of r = e).
    { apply (Hheld i e). destruct Ha as [-> | [t ->]]; [by left | right; left; by exists t]. }
    split; [done|]. split; [|split; [|split]]; cbn [sys_db sys_lock sys_attempts].
    + intros k e' [Hk|[[t Hk]|[[db'' Hk]|Hk]]];
        apply list_lookup_insert_Some in Hk as [(-> & Hk & _)|[Hne Hk]]; try done.
      * apply (Hheld k e'). by left.
      * apply (Hheld k e'). right. left. by exists t.
      * by injection Hk as <- _.
      * apply (Hheld k e'). right. right. left. by exists db''.
      * apply (Hheld k e'). by repeat right.
    + intros k e' [(_ & Hk & _)|[_ Hk]]%list_lookup_insert_Some; [done | eauto].
    + intros k1 k2 e1 e2 Hne
        [(_ & H1 & _)|[_ H1]]%list_lookup_insert_Some
        [(_ & H2 & _)|[_ H2]]%list_lookup_insert_Some; try done. eauto.
    + intros k e' db'' [(-> & Hk & _)|[Hne Hk]]%list_lookup_insert_Some;
        [|by destruct (Hfree k e' db'')].
      injection Hk as <- <-. exists now. split; [done|]. split; [by rewrite Hu|].
      unfold update_to_processing, sql_update in Hu. injection Hu as _ Hlen.
      destruct (filter _ db) as [|x hits] eqn:Hh; [by subst n|].
      assert (Hx : x ∈ filter (fun r => entry_id r = fst e /\ status r = Pending) db)
        by (rewrite Hh; left).
      apply list_elem_of_filter in Hx as [[? ?] ?]. eauto.
Qed.

Lemma claims_inv_step s d : claims_inv db0 s -> claims_inv db0 (step_system s d).
Proof.
  destruct s as [db lock ats], d as [i now]. unfold step_system.
  cbn [fst snd sys_db sys_lock sys_attempts]. intros Hinv.
  destruct (ats !! i) as [a|] eqn:Hi; [|done].
  assert (Hheld : forall e,
            a = AtSelected e \/ (exists t, a = AtWaiting e t) ->
            exists r, r ∈ db0 /\ status r = Pending /\ entry_of r = e).
  { intros e Ha. destruct Hinv as (_ & Hheld & _). apply (Hheld i e).
    destruct Ha as [-> | [t ->]]; [by left | right; left; by exists t]. }
  assert (Hbusy : forall e since l,
            lock = Some l ->
            (a = AtSelected e \/ exists t, a = AtWaiting e t) ->
            claims_inv db0
              (let '(a', db', lock') :=
                 if BUSY_TIMEOUT <=? now - since then (AtLocked, db, lock)
                 else (AtWaiting e since, db, lock) in
               mk_system db' lock' (<[i:=a']> ats))).
  { intros e since l Hl Ha. destruct (BUSY_TIMEOUT <=? now - since).
    - eapply claims_inv_harmless; try done; [|by left].
      intros e' [He|[t He]]; discriminate He.
    - eapply claims_inv_harmless; try done; [|by left].
      intros e' [He|[t He]]; [discriminate He|]. injection He as <- _. by apply Hheld. }
  destruct a as [|e|e since|e db'|res|]; cbn [step_attempt].
  - (* the SELECT *)
    destruct (select_oldest_pending db) as [e|] eqn:Hsel.
    + destruct (select_some_pending db e Hsel) as (r & Hin & Hp & He).
      eapply claims_inv_harmless; try done; [|by left].
      intros e' [He'|[t He']]; [|discriminate He']. injection He' as <-.
      destruct Hinv as (Hrows & _). exists r. split; [by apply Hrows | done].
    + eapply claims_inv_harmless; try done; [|by left].
      intros e' [He'|[t He']]; discriminate He'.
  - (* the UPDATE, first try *)
    destruct lock as [l|]; [by apply (Hbusy e now l); [|left]|].
    pose proof (claims_inv_update db ats i _ e now Hinv Hi (or_introl eq_refl)) as Hup.
    destruct (update_to_processing now (fst e) db) as [db' n].
    by destruct (n =? 0)%nat.
  - (* the UPDATE, tried again *)
    destruct lock as [l|]; [by apply (Hbusy e since l); [|right; exists since]|].
    pose proof (claims_inv_update db ats i _ e now Hinv Hi
                  (or_intror (ex_intro _ since eq_refl))) as Hup.
    destruct (update_to_processing now (fst e) db) as [db'' n].
    by destruct (n =? 0)%nat.
  - (* the commit *)
    destruct Hinv as (Hrows & Hheld' & Hgone & Hdiff & Hupd).
    cbn [sys_db sys_lock sys_attempts] in *.
    destruct (Hupd i e db' Hi) as (t & Hlock & Hdb' & x & Hx & Hxid & Hxp).
    subst db'. unfold update_to_processing, sql_update. cbn [fst].
    set (f := fun r => if decide (entry_id r = fst e /\ status r = Pending)
                       then set_processing t r else r).
    assert (Hf : forall y, status (f y) = Pending -> f y = y /\ status y = Pending).
    { intros y. unfold f. destruct (decide _); simpl; [discriminate | done]. }
    assert (Hfid : forall y, entry_id (f y) = entry_id y).
    { intros y. unfold f. by destruct (decide _). }
    assert (Hnew : forall k e', ats !! k = Some (AtReturned (Some e')) -> fst e' <> fst e).
    { intros k e' Hk Heq. apply (Hgone k e' Hk x Hx); congruence. }
    split; [|split; [|split; [|split]]]; cbn [sys_db sys_lock sys_attempts].
    + intros r [y [-> Hy]]%list_elem_of_fmap Hp.
      destruct (Hf y Hp) as [-> Hpy]. by apply Hrows.
    + intros k e' [Hk|[[t' Hk]|[[db'' Hk]|Hk]]];
        apply list_lookup_insert_Some in Hk as [(-> & Hk & _)|[Hne Hk]]; try done.
      * apply (Hheld' k e'). by left.
      * apply (Hheld' k e'). right. left. by exists t'.
      * apply (Hheld' k e'). right. right. left. by exists db''.
      * injection Hk as <-. apply (Hheld' k e). right. right. left. by eexists.
      * apply (Hheld' k e'). by repeat right.
    + intros k e' [(_ & Hk & _)|[_ Hk]]%list_lookup_insert_Some.
      * injection Hk as <-. intros r [y [-> Hy]]%list_elem_of_fmap Hid Hp.
        destruct (Hf y Hp) as [Heq Hpy]. rewrite Hfid in Hid.
        unfold f in Heq. rewrite decide_True in Heq by done.
        rewrite <- Heq in Hpy. discriminate Hpy.
      * intros r [y [-> Hy]]%list_elem_of_fmap Hid Hp.
        destruct (Hf y Hp) as [_ Hpy]. rewrite Hfid in Hid.
        by apply (Hgone k e' Hk y Hy Hid).
    + intros k1 k2 e1 e2 Hne
        [(-> & H1 & _)|[_ H1]]%list_lookup_insert_Some
        [(-> & H2 & _)|[_ H2]]%list_lookup_insert_Some; try done.
      * injection H1 as <-. intros Heq. by apply (Hnew k2 e2 H2).
      * injection H2 as <-. by apply (Hnew k1 e1 H1).
      * eauto.
    + intros k e' db'' [(_ & Hk & _)|[Hne Hk]]%list_lookup_insert_Some; [done|].
      destruct (Hupd k e' db'' Hk) as (t' & Hl & _). congruence.
  - (* the close *)
    assert (Hrel : forall lock',
              (lock' = lock \/ exists since, lock = Some (i, since)) ->
              claims_inv db0 (mk_system db lock' (<[i:=AtReturned res]> ats))).
    { intros lock' Hl. rewrite list_insert_id by done.
      destruct Hinv as (Hrows & Hheld' & Hgone & Hdiff & Hupd).
      split; [done|]. split; [done|]. split; [done|]. split; [done|].
      cbn [sys_db sys_lock sys_attempts] in *.
      intros k e db' Hk. destruct (Hupd k e db' Hk) as (t & Hlk & Hrest).
      destruct Hl as [-> | [since Hs]]; [by exists t|].
      rewrite Hs in Hlk. injection Hlk as -> _. rewrite Hi in Hk. discriminate Hk. }
    destruct lock as [[h since]|]; [|by apply Hrel; left].
    destruct (bool_decide (h = i) && (POLL_INTERVAL <=? now - since)) eqn:Hc;
      [|by apply Hrel; left].
    apply Hrel. right. apply andb_prop in Hc as [->%bool_decide_eq_true _]. by exists since.
  - rewrite list_insert_id by done. done.
Qed.

Lemma claims_inv_run sched s : claims_inv db0 s -> claims_inv db0 (run_schedule sched s).
Proof.
  revert s. induction sched as [|d sched IH]; intros s Hs; [done|].
  simpl. apply IH. by apply claims_inv_step.
Qed.

(** Any table, any number of workers, any interleaving of their
    statements: a job a worker gets back is a row that was pending at the
    start, and no two workers get back the same id. *)
Theorem no_job_claimed_twice (n : nat) (sched : list (nat * Z)) :
  let final := run_schedule sched (start_system n db0) in
  (forall i e, sys_attempts final !! i = Some (AtReturned (Some e)) ->
               exists r, r ∈ db0 /\ status r = Pending /\ entry_of r = e)
  /\ (forall i k e1 e2, i <> k ->
         sys_attempts final !! i = Some (AtReturned (Some e1)) ->
         sys_attempts final !! k = Some (AtReturned (Some e2)) ->
         fst e1 <> fst e2).
Proof.
  intros final.
  assert (Hinit : claims_inv db0 (start_system n db0)).
  { split; [done|]. split; [|split; [|split]]; simpl.
    - intros i e [H|[[t H]|[[db' H]|H]]]; by apply lookup_replicate_1 in H as [? _].
    - intros i e [? _]%lookup_replicate_1. done.
    - intros i k e1 e2 _ [? _]%lookup_replicate_1. done.
    - intros i e db' [? _]%lookup_replicate_1. done. }
  destruct (claims_inv_run sched _ Hinit) as (_ & Hheld & _ & Hdiff & _).
  split; [|exact Hdiff]. intros i e Hi. apply (Hheld i e). by repeat right.
Qed.

End AnyTable.

(** * Further properties of the worker loop *)

Section PassFacts.
Import JobStore Worker.

Lemma claim_no_pending now (db : table) :
  (forall x, x ∈ db -> status x <> Pending) -> claim_pending_entry now db = (None, db).
Proof.
  intros Hno. destruct (claim_pending_entry now db) as [[e|] db1] eqn:Hc.
  - destruct (claim_some_inv _ _ _ _ Hc) as (r & Hin & Hp & _). by destruct (Hno r Hin).
  - by destruct (claim_none_inv _ _ _ Hc) as [_ ->].
Qed.

(** A pass in which nothing fails: the claimed job is synthesized, the
    samples are written to [<id>.wav], and the job is marked success with
    the path [audio/<id>.wav] and the measured duration. *)
Theorem successful_pass_records_success w s e db1 samples d :
  w_connect w = None -> w_claim w = None ->
  claim_pending_entry (t_claim w) (db s) = (Some e, db1) ->
  w_tts w = Returns samples -> w_write_wav w = None -> w_duration w = Returns d ->
  w_mark_success w = None -> w_close w = None ->
  exists line1 line2,
    iteration w s
    = (Continue,
       mk_wstate
         (mark_success (t_done w) (fst e) ("audio/" ++ format_id (fst e) ++ ".wav")%string
                       d db1)
         (wlog s ++ [LogInfo line1; WriteWav (format_id (fst e) ++ ".wav")%string samples;
                     LogInfo line2])).
Proof.
  intros Hc Hcl Hclaim Htts Hwr Hd Hms Hclose. eexists _, _.
  unfold iteration, iteration_body, bind, lift_fault, db_call.
  rewrite Hc, Hcl, Hclaim. cbn [db wlog].
  unfold handle_entry, try_except, process_entry, bind, lift, lift_fault, Worker.emit,
    db_call, ret.
  rewrite Htts, Hwr, Hd. cbn [db wlog fst snd]. rewrite Hms, Hclose.
  cbn [db wlog]. rewrite <- !app_assoc. reflexivity.
Qed.

(** A pass that finds nothing pending leaves the table as it is, sleeps
    once for the poll interval and goes round again. *)
Theorem idle_pass_sleeps w s :
  w_connect w = None -> w_claim w = None -> w_sleep_idle w = false -> w_close w = None ->
  (forall x, x ∈ db s -> status x <> Pending) ->
  iteration w s = (Continue, mk_wstate (db s) (wlog s ++ [Sleep])).
Proof.
  intros Hc Hcl Hsl Hclose Hno.
  unfold iteration, iteration_body, bind, lift_fault, db_call.
  rewrite Hc, Hcl, (claim_no_pending _ _ Hno). cbn [db wlog].
  rewrite Hsl. unfold sleep, Worker.emit. by rewrite Hclose.
Qed.

(** An interrupt while the claimed job is being processed ends the loop
    at once: no mark is issued, so the table stays as the claim left it,
    with the job in processing. *)
Theorem interrupt_leaves_job_processing w rest s e db1 exn :
  w_connect w = None -> w_claim w = None ->
  claim_pending_entry (t_claim w) (db s) = (Some e, db1) ->
  w_tts w = Raises exn -> exc_cls exn = KeyboardInterrupt ->
  exists line,
    main_loop (w :: rest) s
    = Stopped (mk_wstate db1 (wlog s ++ [LogInfo line; LogInfo "Worker stopped by user"])).
Proof.
  intros Hc Hcl Hclaim Htts Hki. eexists.
  cbn [main_loop]. unfold iteration, iteration_body, bind, lift_fault, db_call.
  rewrite Hc, Hcl, Hclaim. cbn [db wlog].
  unfold handle_entry, try_except, process_entry, bind, lift, Worker.emit, except_Exception.
  rewrite Htts. cbn [db wlog].
  assert (Hne : is_Exception exn = false) by (unfold is_Exception; by rewrite Hki).
  rewrite Hne. rewrite decide_True by done. cbn [db wlog].
  by rewrite <- app_assoc.
Qed.

(** When the audio is produced but [mark_success] raises, the same
    [except] clause takes over: the job is marked error with the text of
    that exception, although its wav file has been written. *)
Theorem failed_success_mark_becomes_error w s e db1 samples d exn :
  w_connect w = None -> w_claim w = None ->
  claim_pending_entry (t_claim w) (db s) = (Some e, db1) ->
  w_tts w = Returns samples -> w_write_wav w = None -> w_duration w = Returns d ->
  w_mark_success w = Some exn -> is_Exception exn = true ->
  w_mark_error w = None -> w_close w = None ->
  exists line1 line2 line3,
    iteration w s
    = (Continue,
       mk_wstate (mark_error (t_done w) (fst e) (exc_str exn) db1)
         (wlog s ++ [LogInfo line1; WriteWav (format_id (fst e) ++ ".wav")%string samples;
                     LogInfo line2; LogError line3])).
Proof.
  intros Hc Hcl Hclaim Htts Hwr Hd Hms Hexn Hme Hclose. eexists _, _, _.
  unfold iteration, iteration_body, bind, lift_fault, db_call.
  rewrite Hc, Hcl, Hclaim. cbn [db wlog].
  unfold handle_entry, try_except, process_entry, bind, lift, lift_fault, Worker.emit,
    db_call, ret, except_Exception.
  rewrite Htts, Hwr, Hd. cbn [db wlog fst snd]. rewrite Hms, Hexn.
  cbn [db wlog]. rewrite Hme, Hclose. cbn [db wlog].
  rewrite <- !app_assoc. reflexivity.
Qed.

(** The interrupt is handled only inside the [try]: arriving during the
    idle sleep it ends the loop by [break]; arriving during the back-off
    sleep of the [except Exception] clause it is caught by nothing and
    leaves [main] as a KeyboardInterrupt. *)
Theorem interrupt_during_sleep w rest s :
  (w_connect w = None -> w_claim w = None -> w_sleep_idle w = true ->
   (forall x, x ∈ db s -> status x <> Pending) ->
   main_loop (w :: rest) s
   = Stopped (mk_wstate (db s) (wlog s ++ [LogInfo "Worker stopped by user"])))
  /\ (forall exn,
         w_connect w = Some exn -> is_Exception exn = true -> w_sleep_backoff w = true ->
         main_loop (w :: rest) s
         = Crashed (mk_exc KeyboardInterrupt "")
             (mk_wstate (db s)
                (wlog s ++ [LogError ("Worker error: " ++ exc_str exn)%string]))).
Proof.
  split.
  - intros Hc Hcl Hsl Hno. cbn [main_loop].
    unfold iteration, iteration_body, bind, lift_fault, db_call.
    rewrite Hc, Hcl, (claim_no_pending _ _ Hno). cbn [db wlog].
    rewrite Hsl. unfold sleep, raise. cbn [exc_cls]. by rewrite decide_True.
  - intros exn Hc Hexn Hb. cbn [main_loop].
    unfold iteration, iteration_body, bind, lift_fault.
    rewrite Hc. rewrite decide_False.
    2:{ unfold is_Exception in Hexn. intros Hk. rewrite Hk in Hexn. discriminate. }
    rewrite Hexn, Hb. unfold sleep, raise, Worker.emit. reflexivity.
Qed.

Lemma string_length_append (a b : string) :
  String.length (a ++ b)%string = (String.length a + String.length b)%nat.
Proof. induction a as [|c a IH]; simpl; [done | by rewrite IH]. Qed.

Lemma append_cancel_r (a b s : string) : (a ++ s = b ++ s)%string -> a = b.
Proof.
  revert b. induction a as [|c a IH]; intros [|c' b] H; simpl in H.
  - done.
  - apply (f_equal String.length) in H.
    rewrite !string_length_append in H. simpl in H. lia.
  - apply (f_equal String.length) in H.
    rewrite !string_length_append in H. simpl in H. lia.
  - inversion H; subst. f_equal. by apply IH.
Qed.

Lemma format_id_inj a b : format_id a = format_id b -> a = b.
Proof.
  unfold format_id. intros H.
  assert (Hnn : forall z, Z.to_int z <> Decimal.Pos Decimal.Nil
                          /\ Z.to_int z <> Decimal.Neg Decimal.Nil).
  { intros [|p|p]; simpl; split; try discriminate;
      intros Hp; inversion Hp as [Hq]; by apply DecimalPos.Unsigned.to_uint_nonnil in Hq. }
  apply (f_equal NilZero.int_of_string) in H.
  destruct (Hnn a) as [Ha1 Ha2], (Hnn b) as [Hb1 Hb2].
  rewrite !NilZero.isi in H by done. inversion H as [Hab].
  apply (f_equal Z.of_int) in Hab. by rewrite !DecimalZ.of_to in Hab.
Qed.

(** Jobs with different ids are written to different files and get
    different audio paths. *)
Theorem audio_paths_are_distinct a b :
  a <> b ->
  (format_id a ++ ".wav")%string <> (format_id b ++ ".wav")%string
  /\ ("audio/" ++ format_id a ++ ".wav")%string <> ("audio/" ++ format_id b ++ ".wav")%string.
Proof.
  intros Hne. split.
  - intros H. apply append_cancel_r in H. by apply format_id_inj in H.
  - intros H. simpl in H. inversion H as [H1].
    change (format_id a ++ ".wav" = format_id b ++ ".wav")%string in H1.
    apply append_cancel_r in H1. by apply format_id_inj in H1.
Qed.

End PassFacts.

(** * Further properties of the responder and the session handler *)

Section ResponderMore.
Import Py Glados.
Context {St : Type}.
Variable json_loads : string -> option json.
Variable spawn : list string -> outcome completed_process.

(** Whenever the fallback is taken (output that is no JSON, or an object
    lacking [result] or [session_id]), the text returned is a non-empty
    string and the session id is [None]: the stripped output when that is
    not empty, and otherwise, that is when every character of the output
    is white space, [Error: ] followed by what the process wrote to
    stderr.  The handler's test [if not text] never fires on a fallback. *)
Theorem fallback_text_is_never_empty prompt session_id cp (s : St) :
  subprocess_run spawn (claude_cmd prompt session_id) = Returns cp ->
  json_loads (stdout cp) = None
  \/ (exists items, json_loads (stdout cp) = Some (JObj items)
                    /\ (assoc "result" items = None \/ assoc "session_id" items = None)) ->
  exists t,
    get_ai_response_with_session json_loads spawn prompt session_id s
    = (Returns (JStr t, JNull), s)
    /\ t <> ""%string /\ truthy (JStr t) = true
    /\ (strip (stdout cp) <> ""%string -> t = strip (stdout cp))
    /\ (strip (stdout cp) = ""%string -> t = ("Error: " ++ stderr cp)%string)
    /\ (strip (stdout cp) = ""%string <-> Cli.all_space (stdout cp) = true).
Proof.
  intros Hrun Hcase.
  exists (str_or (strip (stdout cp)) ("Error: " ++ stderr cp)%string).
  split.
  - destruct Hcase as [Hnone|(items & Hobj & Hkey)].
    + by apply responder_fallback_not_json.
    + by eapply responder_fallback_missing_key.
  - pose proof (strip_blank (stdout cp)) as Hblank. revert Hblank.
    unfold str_or. destruct (strip (stdout cp)) as [|c rest] eqn:Hs; intros Hblank; simpl;
      (split; [done|]); (split; [done|]); (split; [done|]); (split; [done|]); exact Hblank.
Qed.

(** A prompt that is not a [str], or a truthy session id that is not a
    [str], never reaches the [claude] process: [subprocess.run] raises
    [TypeError] whatever the process would have done. *)
Theorem non_string_argument_raises prompt session_id (s : St) :
  (forall t, prompt <> JStr t)
  \/ (truthy session_id = true /\ forall t, session_id <> JStr t) ->
  exists e,
    get_ai_response_with_session json_loads spawn prompt session_id s = (Raises e, s)
    /\ exc_cls e = TypeError.
Proof.
  intros Hcase. eexists.
  assert (Hargs : all_str (claude_cmd prompt session_id) = None).
  { unfold claude_cmd. destruct Hcase as [Hp|[Ht Hs]].
    - destruct prompt; try done. by destruct (Hp s0).
    - rewrite Ht. destruct prompt; try done.
      destruct session_id; try done. by destruct (Hs s1). }
  unfold get_ai_response_with_session, bind, lift, subprocess_run. by rewrite Hargs.
Qed.

End ResponderMore.

Section HandlerMore.
Import Py Glados Server Traces.
Variable json_loads : string -> option json.
Variable ws : nat -> ws_status.
Variable rw : request_world.

(** What a lone [safe_send] of an error frame adds to the trace. *)
Lemma send_error_only f s0 o s' :
  bind (safe_send ws f) (fun _ => ret tt) s0 = (o, s') ->
  exists evs,
    trace s' = trace s0 ++ evs
    /\ calls_no_collaborator evs = true
    /\ frames_sent evs = match ws (n_sends s0) with WsOpen => [f] | _ => [] end
    /\ forall e, o = Raises e -> is_Exception e = false.
Proof.
  unfold safe_send, bind, next_status, ws_closed, ws_send_json, try_except,
    except_Exception, Server.emit, ret, raise.
  simpl. destruct (ws (n_sends s0)) as [| |e]; simpl.
  - intros H. inversion H; subst. simpl. eexists. rewrite <- app_assoc.
    repeat split; try done.
  - intros H. inversion H; subst. simpl. eexists. rewrite <- app_assoc.
    repeat split; try done.
  - destruct (is_Exception e) eqn:He; simpl; intros H; inversion H; subst; simpl;
      eexists; rewrite <- !app_assoc; repeat split; try done.
    intros e0 Heq. by inversion Heq; subst.
Qed.

(** The suite of an [except] clause: a log line, then the error frame. *)
Lemma log_then_error line f s0 o s' :
  bind (Server.emit (EvLog line)) (fun _ => bind (safe_send ws f) (fun _ => ret tt)) s0
  = (o, s') ->
  exists evs,
    trace s' = trace s0 ++ evs
    /\ calls_no_collaborator evs = true
    /\ frames_sent evs = match ws (n_sends s0) with WsOpen => [f] | _ => [] end.
Proof.
  unfold bind at 1, Server.emit. intros H.
  destruct (send_error_only f _ o s' H) as (evs & Ht & Hc & Hf & _).
  exists (EvLog line :: evs). simpl in Ht. rewrite Ht, <- app_assoc.
  repeat split; try done.
Qed.

(** A message that cannot be read yields the error frame alone: text that
    is no JSON is answered with 'Invalid JSON', a JSON value that is not an
    object with the text of the [AttributeError]; in neither case is a
    collaborator called. *)
Theorem unreadable_message_yields_error raw s o s' :
  handle_message json_loads ws rw (MsgText raw) s = (o, s') ->
  (json_loads raw = None ->
   exists evs,
     trace s' = trace s ++ evs /\ calls_no_collaborator evs = true
     /\ frames_sent evs
        = match ws (n_sends s) with WsOpen => [FError "Invalid JSON"] | _ => [] end)
  /\ (forall data,
         json_loads raw = Some data -> (forall items, data <> JObj items) ->
         exists evs,
           trace s' = trace s ++ evs /\ calls_no_collaborator evs = true
           /\ frames_sent evs
              = match ws (n_sends s) with
                | WsOpen => [FError ("'" ++ type_name data
                                     ++ "' object has no attribute 'get'")%string]
                | _ => []
                end).
Proof.
  intros H. split.
  - intros Hload.
    unfold handle_message, try_except, handle_prompt, bind at 1, lift, loads in H.
    rewrite Hload in H. unfold on_error in H. cbn [exc_cls] in H.
    rewrite decide_True in H by done.
    by apply log_then_error in H.
  - intros data Hload Hshape.
    unfold handle_message, try_except, handle_prompt, bind at 1 2, lift, loads in H.
    rewrite Hload in H.
    assert (Hget : dict_get data "prompt" (JStr "")
                   = Raises (mk_exc AttributeError
                               ("'" ++ type_name data ++ "' object has no attribute 'get'"))).
    { destruct data; try done. by destruct (Hshape items). }
    rewrite Hget in H. unfold on_error in H. cbn [exc_cls is_Exception] in H.
    rewrite decide_False in H by done.
    by apply log_then_error in H.
Qed.

(** A truthy prompt that cannot be sliced (a number, [True], a non-empty
    object) stops the request at the first log line: the error frame
    carries the text of the [TypeError], no thinking frame is sent and no
    collaborator is called. *)
Theorem unsliceable_prompt_yields_error raw data p exn s o s' :
  json_loads raw = Some data ->
  dict_get data "prompt" (JStr "") = Returns p ->
  truthy p = true ->
  preview p = Raises exn ->
  handle_message json_loads ws rw (MsgText raw) s = (o, s') ->
  exists evs,
    trace s' = trace s ++ evs /\ calls_no_collaborator evs = true
    /\ frames_sent evs
       = match ws (n_sends s) with WsOpen => [FError (exc_str exn)] | _ => [] end.
Proof.
  intros Hload Hprompt Htruthy Hprev H.
  assert (Hsid : exists sid, dict_get data "session_id" JNull = Returns sid).
  { destruct data; try discriminate Hprompt. simpl.
    destruct (assoc "session_id" items); eauto. }
  destruct Hsid as [sid Hsid].
  assert (Hcls : exc_cls exn = TypeError).
  { destruct p; simpl in Hprev; inversion Hprev; done. }
  unfold handle_message, try_except, handle_prompt, bind at 1 2 3 4, lift, loads in H.
  rewrite Hload, Hprompt, Hsid, Htruthy in H. cbn [negb] in H.
  rewrite Hprev in H. unfold bind at 1 in H. cbv beta iota in H.
  unfold on_error, is_Exception in H. rewrite Hcls in H.
  rewrite decide_False in H by done.
  by apply log_then_error in H.
Qed.

(** A request whose thinking frame is delivered and whose reply is a
    non-empty text reaches the second phase with the trace below. *)
Lemma thinking_prefix raw data p sid text nsid s :
  json_loads raw = Some data ->
  dict_get data "prompt" (JStr "") = Returns (JStr p) -> p <> ""%string ->
  dict_get data "session_id" JNull = Returns sid ->
  ws (n_sends s) = WsOpen ->
  (forall st : sstate,
      get_ai_response_with_session json_loads (rw_spawn rw) (JStr p) sid st
      = (Returns (text, nsid), st)) ->
  preview text = Returns tt -> truthy text = true ->
  handle_prompt json_loads ws rw raw s
  = phase_generating ws rw text nsid
      (mk_sstate (S (n_sends s)) (trace s ++ thinking_events rw (JStr p) sid)).
Proof.
  intros Hload Hprompt Hp Hsid Hopen Hreply Hprev Htext.
  assert (Htruthy : truthy (JStr p) = true) by (destruct p; [done | reflexivity]).
  unfold handle_prompt, bind at 1 2 3, lift, loads.
  rewrite Hload, Hprompt, Hsid, Htruthy. cbn [negb].
  unfold bind at 1 2 3, lift, preview, Server.emit. cbn [n_sends trace].
  unfold thinking_events.
  destruct (truthy sid); unfold ret; cbn [n_sends trace];
    unfold phase_thinking, bind at 1 2, Server.emit; cbn [n_sends trace];
    (rewrite safe_send_open by exact Hopen); cbn [negb];
    unfold bind at 1 2, Server.emit, advance; cbn [n_sends trace];
    rewrite Hreply; cbn [fst snd];
    unfold bind at 1 2, lift, Server.emit; rewrite Hprev, Htext;
    cbn [n_sends trace negb]; f_equal; f_equal;
    rewrite <- !app_assoc; reflexivity.
Qed.

Lemma random_choice_in draw (seq : list string) :
  seq <> [] -> random_choice draw seq ∈ seq.
Proof.
  intros Hne. unfold random_choice. apply list_elem_of_In, nth_In.
  apply Nat.mod_upper_bound. by destruct seq.
Qed.

(** A request in which nothing fails: the client receives the thinking
    frame, the generating frame and the response, in that order, each
    status message taken from its pool; the responder is given the
    inbound prompt and session id, and the response carries the
    responder's text and session id unchanged, the url of the file just
    written and its length over the sample rate. *)
Theorem full_request_delivers_reply raw data p sid text nsid samples nf s :
  json_loads raw = Some data ->
  dict_get data "prompt" (JStr "") = Returns (JStr p) -> p <> ""%string ->
  dict_get data "session_id" JNull = Returns sid ->
  (forall st : sstate,
      get_ai_response_with_session json_loads (rw_spawn rw) (JStr p) sid st
      = (Returns (text, nsid), st)) ->
  preview text = Returns tt -> truthy text = true ->
  ws (n_sends s) = WsOpen -> ws (S (n_sends s)) = WsOpen ->
  ws (S (S (n_sends s))) = WsOpen ->
  rw_tts rw = Returns samples -> rw_write rw = None -> rw_nframes rw = Returns nf ->
  exists evs m1 m2,
    handle_message json_loads ws rw (MsgText raw) s
    = (Returns tt, mk_sstate (S (S (S (n_sends s)))) (trace s ++ evs))
    /\ frames_sent evs
       = [ FStatus Thinking m1; FStatus Generating m2;
           FResponse text nsid ("/audio/output_" ++ rw_uuid rw ++ ".wav")%string
                     (nf, 22050) ]
    /\ m1 ∈ SPINNER_MESSAGES_thinking /\ m2 ∈ SPINNER_MESSAGES_generating
    /\ EvResponder (JStr p) sid ∈ evs
    /\ EvWriteWav ("output_" ++ rw_uuid rw ++ ".wav")%string ∈ evs.
Proof.
  intros Hload Hprompt Hp Hsid Hreply Hprev Htext H0 H1 H2 Htts Hwrite Hnf.
  eexists _, _, _. split.
  - unfold handle_message, try_except.
    rewrite (thinking_prefix raw data p sid text nsid s) by done.
    unfold phase_generating, bind at 1 2, Server.emit. cbn [n_sends trace].
    rewrite safe_send_open by exact H1. cbn [negb].
    unfold phase_complete, bind, lift, lift_fault, Server.emit, advance.
    cbn [n_sends trace]. rewrite Htts, Hwrite, Hnf. cbn [n_sends trace].
    rewrite safe_send_open by exact H2. unfold ret, advance. cbn [n_sends trace].
    rewrite <- !app_assoc. reflexivity.
  - unfold thinking_events, frames_sent.
    split; [by destruct (truthy sid)|].
    split; [by apply random_choice_in|]. split; [by apply random_choice_in|].
    split; apply list_elem_of_In; rewrite ?in_app_iff; simpl; tauto.
Qed.

(** When the synthesizer raises after the generating frame, the request
    ends with an error frame carrying the text of the exception; nothing
    is written. *)
Theorem synthesizer_failure_yields_error raw data p sid text nsid exn s o s' :
  json_loads raw = Some data ->
  dict_get data "prompt" (JStr "") = Returns (JStr p) -> p <> ""%string ->
  dict_get data "session_id" JNull = Returns sid ->
  (forall st : sstate,
      get_ai_response_with_session json_loads (rw_spawn rw) (JStr p) sid st
      = (Returns (text, nsid), st)) ->
  preview text = Returns tt -> truthy text = true ->
  ws (n_sends s) = WsOpen -> ws (S (n_sends s)) = WsOpen ->
  rw_tts rw = Raises exn -> is_Exception exn = true -> exc_cls exn <> JSONDecodeError ->
  handle_message json_loads ws rw (MsgText raw) s = (o, s') ->
  exists evs,
    trace s' = trace s ++ evs
    /\ labels evs
       = [LThinking; LGenerating]
         ++ match ws (S (S (n_sends s))) with WsOpen => [LError] | _ => [] end
    /\ (ws (S (S (n_sends s))) = WsOpen -> last (frames_sent evs) = Some (FError (exc_str exn)))
    /\ forall f, EvWriteWav f ∉ evs.
Proof.
  intros Hload Hprompt Hp Hsid Hreply Hprev Htext H0 H1 Htts Hexn Hcls H.
  unfold handle_message, try_except in H.
  rewrite (thinking_prefix raw data p sid text nsid s) in H by done.
  unfold phase_generating, bind at 1 2, Server.emit in H. cbn [n_sends trace] in H.
  rewrite safe_send_open in H by exact H1. cbn [negb] in H.
  unfold phase_complete, bind at 1 2, lift, Server.emit, advance in H.
  cbn [n_sends trace] in H. rewrite Htts in H.
  unfold on_error in H. rewrite decide_False in H by done. rewrite Hexn in H.
  apply log_then_error in H as (evs & Ht & Hc & Hf). cbn [n_sends trace] in Ht, Hf.
  eexists. split; [rewrite Ht, <- !app_assoc; reflexivity|].
  unfold labels, frames_sent, thinking_events in *.
  rewrite !omap_app, Hf.
  split; [|split].
  - destruct (truthy sid), (ws (S (S (n_sends s)))); reflexivity.
  - intros Hopen. rewrite Hopen. by destruct (truthy sid).
  - intros f Hin. unfold calls_no_collaborator in Hc.
    rewrite forallb_forall in Hc.
    apply list_elem_of_In in Hin. rewrite !in_app_iff in Hin.
    assert (In (EvWriteWav f) evs -> False) as Hevs
      by (intros Hin'; apply Hc in Hin'; discriminate Hin').
    destruct (truthy sid); simpl in Hin; intuition discriminate.
Qed.

(** A connection found closed when the generating frame is due: the
    responder has been called and its reply is dropped, the synthesizer
    is never called, and the request ends normally, so the loop goes on. *)
Theorem disconnect_discards_reply raw data p sid text nsid s :
  json_loads raw = Some data ->
  dict_get data "prompt" (JStr "") = Returns (JStr p) -> p <> ""%string ->
  dict_get data "session_id" JNull = Returns sid ->
  (forall st : sstate,
      get_ai_response_with_session json_loads (rw_spawn rw) (JStr p) sid st
      = (Returns (text, nsid), st)) ->
  preview text = Returns tt -> truthy text = true ->
  ws (n_sends s) = WsOpen -> ws (S (n_sends s)) = WsClosed ->
  handle_message json_loads ws rw (MsgText raw) s
  = (Returns tt,
     mk_sstate (S (S (n_sends s)))
       (trace s ++ thinking_events rw (JStr p) sid
        ++ [ EvLog ("Phase: " ++ random_choice (draw_generating rw)
                                   SPINNER_MESSAGES_generating)%string;
             EvClosedCheck true; EvLog "Cannot send - connection closed" ])).
Proof.
  intros Hload Hprompt Hp Hsid Hreply Hprev Htext H0 H1.
  unfold handle_message, try_except.
  rewrite (thinking_prefix raw data p sid text nsid s) by done.
  unfold phase_generating, bind at 1 2, Server.emit. cbn [n_sends trace].
  rewrite safe_send_closed by exact H1. cbn [negb]. unfold ret, advance.
  cbn [n_sends trace]. by rewrite <- !app_assoc.
Qed.

End HandlerMore.

Section ConnectionMore.
Import Py Glados Server.
Variable json_loads : string -> option json.
Variable ws : nat -> ws_status.

(** Over a whole connection the frames come request by request: the
    labels of the frames delivered split into consecutive groups, at most
    one per inbound message, each of them one of [request_shapes]. *)
Theorem frames_come_request_by_request inbox s o s' :
  receive_loop json_loads ws inbox s = (o, s') ->
  exists evs groups,
    trace s' = trace s ++ evs
    /\ labels evs = concat groups
    /\ Forall (fun g => g ∈ request_shapes) groups
    /\ (length groups <= length inbox)%nat.
Proof.
  revert s. induction inbox as [|[m rw] inbox IH]; intros s H; simpl in H.
  - inversion H; subst. exists [], []. rewrite app_nil_r. by repeat split.
  - apply bind_inv in H as [(a & s1 & H1 & H2)|(e & H1 & ->)].
    + destruct (lawful_handle_message json_loads ws rw m _ _ _ H1) as (ev1 & Ht1 & _ & Hl1).
      destruct (IH _ H2) as (ev2 & groups & Ht2 & Hl2 & Hall & Hlen).
      exists (ev1 ++ ev2), (labels ev1 :: groups).
      rewrite Ht2, Ht1, app_assoc, labels_app, Hl2. simpl.
      repeat split; [by constructor | lia].
    + destruct (lawful_handle_message json_loads ws rw m _ _ _ H1) as (ev1 & Ht1 & _ & Hl1).
      exists ev1, [labels ev1]. simpl. rewrite app_nil_r.
      repeat split; [done | by constructor | lia].
Qed.

Lemma handle_message_escape rw m s e s' :
  handle_message json_loads ws rw m s = (Raises e, s') -> is_Exception e = false.
Proof.
  destruct m as [raw| |]; cbn [handle_message];
    [|unfold Server.emit; intros H; discriminate H|unfold ret; intros H; discriminate H].
  unfold try_except.
  destruct (handle_prompt json_loads ws rw raw s) as [[[]|e0] s0]; [intros H; discriminate H|].
  assert (forall line f,
             (Server.emit (EvLog line) ;; _ <- safe_send ws f ;; ret tt) s0 = (Raises e, s') ->
             is_Exception e = false) as Hsend.
  { intros line f H.
    apply bind_inv in H as [(a & s1 & _ & H2)|(e1 & H1 & _)]; [|discriminate H1].
    apply bind_inv in H2 as [(b & s2 & _ & H3)|(e1 & H2 & [= <-])]; [discriminate H3|].
    by destruct (safe_send_inv ws _ _ _ _ H2) as (evs & _ & _ & _ & He). }
  unfold on_error. destruct (decide (exc_cls e0 = JSONDecodeError)); [apply Hsend|].
  destruct (is_Exception e0) eqn:He0; [apply Hsend|].
  by intros [= <- <-].
Qed.

Lemma receive_loop_escape inbox s e s' :
  receive_loop json_loads ws inbox s = (Raises e, s') -> is_Exception e = false.
Proof.
  revert s. induction inbox as [|[m rw] inbox IH]; intros s H; simpl in H.
  - discriminate H.
  - apply bind_inv in H as [(a & s1 & _ & H2)|(e1 & H1 & [= <-])].
    + by eapply IH.
    + by eapply handle_message_escape.
Qed.

(** How a connection ends.  Whatever leaves the message loop is no
    [Exception], so the clause logging an unexpected error is never
    entered on account of a message; a cancellation is logged and
    swallowed, an interrupt propagates, and in every case the last line
    logged is the one of the [finally] clause. *)
Theorem connection_epilogue inbox s :
  match receive_loop json_loads ws inbox s with
  | (Returns _, s1) =>
      websocket_handler json_loads ws inbox s
      = (Returns tt, mk_sstate (n_sends s1) (trace s1 ++ [EvLog "Client disconnected"]))
  | (Raises e, s1) =>
      is_Exception e = false
      /\ websocket_handler json_loads ws inbox s
         = if decide (exc_cls e = CancelledError)
           then (Returns tt,
                 mk_sstate (n_sends s1)
                   (trace s1 ++ [EvLog "Connection cancelled"; EvLog "Client disconnected"]))
           else (Raises e,
                 mk_sstate (n_sends s1) (trace s1 ++ [EvLog "Client disconnected"]))
  end.
Proof.
  unfold websocket_handler, try_except.
  destruct (receive_loop json_loads ws inbox s) as [[[]|e] s1] eqn:Hloop; [done|].
  pose proof (receive_loop_escape _ _ _ _ Hloop) as He. split; [done|].
  destruct (decide (exc_cls e = CancelledError)).
  - unfold Server.emit. cbn [n_sends trace]. by rewrite <- app_assoc.
  - by rewrite He.
Qed.

End ConnectionMore.

(** * Further properties of the command-line program *)

Section CliFacts.
Import Py Glados Cli.

(** [main] hands an empty text on exactly when no argument (or an empty
    one) is given and the input piped in is blank; an empty argument is
    treated as no argument. *)
Theorem empty_text_only_from_blank_pipe w a :
  (chosen_text w a = ""%string
   <-> (args_text a = None \/ args_text a = Some ""%string)
       /\ isatty w = false /\ all_space (stdin_text w) = true)
  /\ (args_text a = Some ""%string ->
      chosen_text w a = chosen_text w (mk_args None (args_ai a) (args_no_play a))).
Proof.
  unfold chosen_text. split.
  - destruct (args_text a) as [t|].
    + destruct (String.eqb_spec t ""); simpl.
      * subst t. destruct (isatty w); simpl.
        -- split; [discriminate|]. by intros (_ & ? & _).
        -- rewrite strip_blank. split; [intros ?; auto | by intros (_ & _ & ?)].
      * split; [done|]. intros [[?|[= ->]] _]; done.
    + destruct (isatty w); simpl.
      * split; [discriminate|]. by intros (_ & ? & _).
      * rewrite strip_blank. split; [intros ?; auto | by intros (_ & _ & ?)].
  - intros ->. reflexivity.
Qed.

Ltac cli_run H :=
  repeat first
    [ progress (cbv [main say_mode speak_mode get_ai_response generate_audio_with_spinner
                     play_and_type generate_tts get_models bind Cli.emit lift lift_fault
                     ret raise] in H; cbn [loaded out negb] in H)
    | match type of H with
      | context [match ?x with _ => _ end] =>
          lazymatch x with
          | context [match _ with _ => _ end] => fail
          | _ => destruct x eqn:?
          end
      end ].

Ltac cli_done H :=
  first [injection H as <- <- | injection H as <-]; cbn [loaded out].

(** Whether the call returns or raises, [get_models] leaves the global
    set exactly when it returns: a second call then returns the same
    models without touching anything, and a failed load is tried again
    from the start. *)
Theorem models_are_cached w s :
  match get_models w s with
  | (Returns m, s1) => loaded s1 = Some m /\ get_models w s1 = (Returns m, s1)
  | (Raises _, s1) => loaded s = None /\ loaded s1 = None
  end.
Proof.
  destruct (get_models w s) as [o s1] eqn:H.
  cli_run H; cli_done H; try done.
  split; [done|]. unfold get_models.
  by match goal with Hl : loaded s = Some _ |- _ => rewrite Hl end.
Qed.

Lemma plays_app a b : plays (a ++ b) = plays a || plays b.
Proof. apply existsb_app. Qed.

Lemma torch_loads_snoc evs ev :
  torch_loads (evs ++ [ev])
  = (torch_loads evs + match ev with TorchLoad _ => 1 | _ => 0 end)%nat.
Proof.
  unfold torch_loads. rewrite List.filter_app, length_app. by destruct ev.
Qed.

Lemma spinner_running_snoc evs ev :
  spinner_running (evs ++ [ev])
  = match ev with
    | SpinnerStart _ => true
    | SpinnerStop => false
    | _ => spinner_running evs
    end.
Proof. unfold spinner_running. by rewrite fold_left_app. Qed.

(** In direct mode with [--no-play] the player is never started,
    whatever else happens. *)
Theorem no_play_never_starts_player w a s :
  args_ai a = false -> args_no_play a = true ->
  plays (out (snd (main w a s))) = plays (out s).
Proof.
  intros Hai Hnp. destruct (main w a s) as [o s'] eqn:H. cbn [snd].
  unfold main in H. rewrite Hai, Hnp in H.
  cli_run H; cli_done H; rewrite ?plays_app; simpl; by rewrite ?orb_false_r.
Qed.

(** In AI mode a run that returns has synthesized and typed the trimmed
    output of the responder and has started the player, with or without
    [--no-play]. *)
Theorem ai_mode_speaks_the_reply w a s s' reply :
  args_ai a = true ->
  cw_spawn w [ "claude"; "-p"; chosen_text w a; "--system-prompt"; GLADOS_SYSTEM_PROMPT;
               "--allowedTools"; "WebSearch"; "WebFetch" ] = Returns reply ->
  main w a s = (Returns tt, s') ->
  Synthesize (strip (stdout reply)) ∈ out s'
  /\ Typewriter (strip (stdout reply)) ∈ out s'
  /\ plays (out s') = true.
Proof.
  intros Hai Hreply H. unfold main in H. rewrite Hai in H.
  unfold speak_mode, get_ai_response in H.
  unfold bind at 1 2 3 4 5, Cli.emit at 1 2, lift at 1 in H. cbn [loaded out] in H.
  rewrite Hreply in H. unfold Cli.emit at 1, ret at 1 in H. cbn [loaded out] in H.
  cli_run H; try discriminate H; cli_done H;
    (split; [|split]);
    rewrite ?plays_app, ?elem_of_app, ?list_elem_of_singleton; simpl;
    rewrite ?orb_true_r; tauto.
Qed.

(** The spinner thread is stopped when the call returns and is still
    running when it raises, for both calls that start one. *)
Theorem spinner_stops_only_on_success w text path s :
  spinner_running (out (snd (get_ai_response w text s)))
  = match fst (get_ai_response w text s) with Returns _ => false | Raises _ => true end
  /\ spinner_running (out (snd (generate_audio_with_spinner w text path s)))
     = match fst (generate_audio_with_spinner w text path s) with
       | Returns _ => false
       | Raises _ => true
       end.
Proof.
  split.
  - destruct (get_ai_response w text s) as [o s'] eqn:H. cbn [fst snd].
    cli_run H; cli_done H; by rewrite ?spinner_running_snoc.
  - destruct (generate_audio_with_spinner w text path s) as [o s'] eqn:H. cbn [fst snd].
    cli_run H; cli_done H; by rewrite ?spinner_running_snoc.
Qed.

(** A whole run asks [torch] for at most the three model files, and for
    none when the models are already loaded. *)
Theorem main_loads_models_once w a s :
  (torch_loads (out (snd (main w a s))) <= torch_loads (out s) + 3)%nat
  /\ (is_Some (loaded s) ->
      torch_loads (out (snd (main w a s))) = torch_loads (out s)).
Proof.
  destruct (main w a s) as [o s'] eqn:H. cbn [snd].
  cli_run H; cli_done H; rewrite ?torch_loads_snoc;
    (split; [lia | intros [? ?]; first [congruence | lia]]).
Qed.

Lemma spinner_loop_cycles polls i message :
  (i < 4)%nat ->
  spinner_loop polls i message
  = Returns (map (fun k => spinner_line (nth ((i + k) mod 4) spinner_frames ""%string) message)
                 (seq 0 polls)).
Proof.
  revert i. induction polls as [|polls IH]; intros i Hi; [done|].
  cbn [spinner_loop].
  assert (nth_error spinner_frames i = Some (nth i spinner_frames ""%string)) as ->.
  { do 4 (destruct i as [|i]; [done|]). lia. }
  rewrite IH by (apply Nat.mod_upper_bound; lia).
  cbn [seq map]. rewrite Nat.add_0_r, (Nat.mod_small i 4) by lia.
  f_equal. f_equal. rewrite <- seq_shift, map_map.
  apply map_ext. intros k.
  by rewrite Nat.Div0.add_mod_idemp_l, <- Nat.add_assoc.
Qed.

(** For the two phases the program knows, the spinner never indexes out
    of range: turn [k] prints frame [k mod 4] with one message of the
    phase's pool, and the last print clears the line.  Any other phase
    raises [KeyError] before anything is printed. *)
Theorem spinner_cycles_frames polls draw phase :
  match SPINNER_MESSAGES phase with
  | Some pool =>
      exists message,
        message ∈ pool
        /\ spinner polls draw phase
           = Returns (map (fun k => spinner_line (nth (k mod 4) spinner_frames ""%string) message)
                          (seq 0 polls)
                      ++ [(CR ++ ESC ++ "[K")%string])
  | None =>
      phase <> "thinking"%string /\ phase <> "generating"%string
      /\ exists text, spinner polls draw phase = Raises (mk_exc KeyError text)
  end.
Proof.
  unfold spinner. destruct (SPINNER_MESSAGES phase) as [pool|] eqn:Hpool.
  - exists (random_choice draw pool). split.
    + apply random_choice_in. unfold SPINNER_MESSAGES in Hpool.
      destruct (String.eqb phase "thinking"); [by injection Hpool as <-|].
      destruct (String.eqb phase "generating"); [by injection Hpool as <-|]. done.
    + by rewrite spinner_loop_cycles by lia.
  - unfold SPINNER_MESSAGES in Hpool.
    destruct (String.eqb_spec phase "thinking"); [done|].
    destruct (String.eqb_spec phase "generating"); [done|].
    repeat split; [done..|]. by eexists.
Qed.

End CliFacts.

(** * Instances *)

Section QueueInstances.
Import JobStore Queue Samples MoreSamples.

Lemma mark_unknown_id_changes_nothing_witness :
  mark_success 9 7 "audio/7.wav" 100 one_pending = one_pending
  /\ mark_error 9 7 "boom" one_pending = one_pending.
Proof.
  apply (mark_unknown_id_changes_nothing 9 7 "audio/7.wav" 100 "boom" one_pending).
  intros r Hr%list_elem_of_In. simpl in Hr.
  destruct Hr as [<-|[<-|[<-|[]]]]; discriminate.
Defined.

Lemma claim_then_mark_success_witness :
  exists k r,
    one_pending !! k = Some r /\ entry_of r = (2, "Hello"%string) /\ status r = Pending
    /\ mark_success 21 2 "audio/2.wav" 1500 (snd (claim_pending_entry 20 one_pending)) !! k
       = Some (mk_entry (entry_id r) (text r) Success (created_at r) (Some 20) (Some 21)
                        (Some "audio/2.wav"%string) (Some 1500) (error_message r))
    /\ forall k', k' <> k ->
         mark_success 21 2 "audio/2.wav" 1500 (snd (claim_pending_entry 20 one_pending)) !! k'
         = one_pending !! k'.
Proof.
  apply (claim_then_mark_success 20 21 "audio/2.wav" 1500 one_pending (2, "Hello"%string)
           (snd (claim_pending_entry 20 one_pending))).
  - vm_compute. repeat constructor; rewrite ?list_elem_of_In; simpl; intuition discriminate.
  - reflexivity.
Defined.

(** Two workers that both select the first of two pending rows: the
    loser of the race returns nothing, although the second row is still
    pending. *)
Example race_loser_returns_nothing :
  sys_attempts (run_schedule two_by_two (start_system 2 tied_rows))
  = [ AtReturned (Some (2, "second"%string)); AtReturned None ]
  /\ status <$> sys_db (run_schedule two_by_two (start_system 2 tied_rows))
     = [Processing; Pending].
Proof. vm_compute. split; reflexivity. Qed.

End QueueInstances.

Section PassInstances.
Import JobStore Worker Samples MoreSamples.

Lemma successful_pass_records_success_witness :
  exists line1 line2,
    iteration quiet_world (mk_wstate one_pending [])
    = (Continue,
       mk_wstate
         (mark_success 21 2 "audio/2.wav" 1500 (snd (claim_pending_entry 20 one_pending)))
         [LogInfo line1; WriteWav "2.wav" [0; 1; 2]; LogInfo line2]).
Proof.
  apply (successful_pass_records_success quiet_world (mk_wstate one_pending [])
           (2, "Hello"%string) (snd (claim_pending_entry 20 one_pending)) [0; 1; 2] 1500);
    reflexivity.
Defined.

Lemma idle_pass_sleeps_witness :
  iteration quiet_world (mk_wstate all_done [])
  = (Continue, mk_wstate all_done [Sleep]).
Proof.
  apply (idle_pass_sleeps quiet_world (mk_wstate all_done [])); try reflexivity.
  intros r Hr%list_elem_of_In. simpl in Hr.
  destruct Hr as [<-|[<-|[]]]; discriminate.
Defined.

Lemma interrupt_leaves_job_processing_witness :
  exists line,
    main_loop [interrupted_world; quiet_world] (mk_wstate one_pending [])
    = Stopped (mk_wstate (snd (claim_pending_entry 20 one_pending))
                 [LogInfo line; LogInfo "Worker stopped by user"]).
Proof.
  apply (interrupt_leaves_job_processing interrupted_world [quiet_world]
           (mk_wstate one_pending []) (2, "Hello"%string)
           (snd (claim_pending_entry 20 one_pending)) (mk_exc KeyboardInterrupt ""));
    reflexivity.
Defined.

(** The row of the interrupted job is left in [processing]. *)
Example interrupted_job_row :
  status <$> snd (claim_pending_entry 20 one_pending) = [Success; Processing; Error].
Proof. reflexivity. Qed.

Lemma failed_success_mark_becomes_error_witness :
  exists line1 line2 line3,
    iteration commit_fails_world (mk_wstate one_pending [])
    = (Continue,
       mk_wstate
         (mark_error 21 2 "database is locked" (snd (claim_pending_entry 20 one_pending)))
         [LogInfo line1; WriteWav "2.wav" [0; 1; 2]; LogInfo line2; LogError line3]).
Proof.
  apply (failed_success_mark_becomes_error commit_fails_world (mk_wstate one_pending [])
           (2, "Hello"%string) (snd (claim_pending_entry 20 one_pending)) [0; 1; 2] 1500
           (mk_exc OtherException "database is locked"));
    reflexivity.
Defined.

Lemma interrupt_during_sleep_witness :
  main_loop [idle_interrupted_world; quiet_world] (mk_wstate all_done [])
  = Stopped (mk_wstate all_done [LogInfo "Worker stopped by user"])
  /\ main_loop [backoff_interrupted_world; quiet_world] (mk_wstate one_pending [])
     = Crashed (mk_exc KeyboardInterrupt "")
         (mk_wstate one_pending
            [LogError "Worker error: unable to open database file"]).
Proof.
  split.
  - apply (interrupt_during_sleep idle_interrupted_world [quiet_world]
             (mk_wstate all_done [])); try reflexivity.
    intros r Hr%list_elem_of_In. simpl in Hr.
    destruct Hr as [<-|[<-|[]]]; discriminate.
  - apply (proj2 (interrupt_during_sleep backoff_interrupted_world [quiet_world]
                    (mk_wstate one_pending []))
             (mk_exc OtherException "unable to open database file"));
      reflexivity.
Defined.

Lemma audio_paths_are_distinct_witness :
  ("1.wav" <> "2.wav")%string /\ ("audio/1.wav" <> "audio/2.wav")%string.
Proof. apply (audio_paths_are_distinct 1 2). lia. Defined.

End PassInstances.

Section MoreHandlerInstances.
Import Py Glados Server Traces Samples MoreSamples.

Lemma fallback_text_is_never_empty_witness :
  exists t,
    get_ai_response_with_session sample_loads
      (fun _ => Returns (mk_completed "  plain words  " "")) (JStr "hi") JNull fresh
    = (Returns (JStr t, JNull), fresh)
    /\ t <> ""%string /\ truthy (JStr t) = true
    /\ (strip "  plain words  " <> ""%string -> t = strip "  plain words  ")
    /\ (strip "  plain words  " = ""%string -> t = ("Error: " ++ "")%string)
    /\ (strip "  plain words  " = ""%string <-> Cli.all_space "  plain words  " = true).
Proof.
  apply (fallback_text_is_never_empty sample_loads
           (fun _ => Returns (mk_completed "  plain words  " "")) (JStr "hi") JNull
           (mk_completed "  plain words  " "") fresh).
  - reflexivity.
  - left. reflexivity.
Defined.

Lemma non_string_argument_raises_witness :
  exists e,
    get_ai_response_with_session sample_loads
      (fun _ => Returns (mk_completed good_reply_text "")) (JStr "hi") (JNum 7) fresh
    = (Raises e, fresh)
    /\ exc_cls e = TypeError.
Proof.
  apply (non_string_argument_raises sample_loads
           (fun _ => Returns (mk_completed good_reply_text "")) (JStr "hi") (JNum 7) fresh).
  right. split; [reflexivity | discriminate].
Defined.

Lemma unreadable_message_yields_error_witness :
  (exists evs,
      trace (snd (handle_message sample_loads open_ws (world_printing good_reply_text)
                    (MsgText "not json") fresh)) = trace fresh ++ evs
      /\ calls_no_collaborator evs = true
      /\ frames_sent evs = [FError "Invalid JSON"])
  /\ (exists evs,
         trace (snd (handle_message sample_loads open_ws (world_printing good_reply_text)
                       (MsgText "[]") fresh)) = trace fresh ++ evs
         /\ calls_no_collaborator evs = true
         /\ frames_sent evs = [FError "'list' object has no attribute 'get'"]).
Proof.
  split.
  - apply (proj1 (unreadable_message_yields_error sample_loads open_ws
                    (world_printing good_reply_text) "not json" fresh (Returns tt) _
                    eq_refl));
      reflexivity.
  - apply (proj2 (unreadable_message_yields_error sample_loads open_ws
                    (world_printing good_reply_text) "[]" fresh (Returns tt) _
                    eq_refl) (JArr []));
      [reflexivity | discriminate].
Defined.

Lemma unsliceable_prompt_yields_error_witness :
  exists evs,
    trace (snd (handle_message more_loads open_ws (world_printing good_reply_text)
                  (MsgText number_prompt_text) fresh)) = trace fresh ++ evs
    /\ calls_no_collaborator evs = true
    /\ frames_sent evs = [FError "'int' object is not subscriptable"].
Proof.
  apply (unsliceable_prompt_yields_error more_loads open_ws (world_printing good_reply_text)
           number_prompt_text (JObj [("prompt"%string, JNum 5)]) (JNum 5)
           (mk_exc TypeError "'int' object is not subscriptable") fresh (Returns tt));
    reflexivity.
Defined.

Lemma full_request_delivers_reply_witness :
  exists evs m1 m2,
    handle_message sample_loads open_ws (world_printing good_reply_text)
      (MsgText hi_prompt_text) fresh
    = (Returns tt, mk_sstate 3 (trace fresh ++ evs))
    /\ frames_sent evs
       = [ FStatus Thinking m1; FStatus Generating m2;
           FResponse (JStr "Oh. It is you.") (JStr "s1") "/audio/output_1a2b3c4d.wav"
                     (44100, 22050) ]
    /\ m1 ∈ SPINNER_MESSAGES_thinking /\ m2 ∈ SPINNER_MESSAGES_generating
    /\ EvResponder (JStr "hi") JNull ∈ evs
    /\ EvWriteWav "output_1a2b3c4d.wav" ∈ evs.
Proof.
  apply (full_request_delivers_reply sample_loads open_ws (world_printing good_reply_text)
           hi_prompt_text (JObj [("prompt"%string, JStr "hi")]) "hi" JNull
           (JStr "Oh. It is you.") (JStr "s1") [0; 1; 2] 44100 fresh);
    first [reflexivity | discriminate | intros st; reflexivity].
Defined.

Lemma synthesizer_failure_yields_error_witness :
  exists evs,
    trace (snd (handle_message sample_loads open_ws world_tts_fails
                  (MsgText hi_prompt_text) fresh)) = trace fresh ++ evs
    /\ labels evs = [LThinking; LGenerating; LError]
    /\ (open_ws 2%nat = WsOpen -> last (frames_sent evs) = Some (FError "model exploded"))
    /\ forall f, EvWriteWav f ∉ evs.
Proof.
  apply (synthesizer_failure_yields_error sample_loads open_ws world_tts_fails
           hi_prompt_text (JObj [("prompt"%string, JStr "hi")]) "hi" JNull
           (JStr "Oh. It is you.") (JStr "s1")
           (mk_exc OtherException "model exploded") fresh (Returns tt));
    first [reflexivity | discriminate | intros st; reflexivity].
Defined.

Lemma disconnect_discards_reply_witness :
  handle_message sample_loads closing_ws (world_printing good_reply_text)
    (MsgText hi_prompt_text) fresh
  = (Returns tt,
     mk_sstate 2
       (trace fresh ++ thinking_events (world_printing good_reply_text) (JStr "hi") JNull
        ++ [ EvLog "Phase: Preparing test results...";
             EvClosedCheck true; EvLog "Cannot send - connection closed" ])).
Proof.
  apply (disconnect_discards_reply sample_loads closing_ws (world_printing good_reply_text)
           hi_prompt_text (JObj [("prompt"%string, JStr "hi")]) "hi" JNull
           (JStr "Oh. It is you.") (JStr "s1") fresh);
    first [reflexivity | discriminate | intros st; reflexivity].
Defined.

Lemma frames_come_request_by_request_witness :
  exists evs groups,
    trace (snd (receive_loop sample_loads open_ws
                  [ (MsgText empty_prompt_text, world_printing good_reply_text);
                    (MsgText hi_prompt_text, world_printing good_reply_text) ] fresh))
    = trace fresh ++ evs
    /\ labels evs = concat groups
    /\ Forall (fun g => g ∈ request_shapes) groups
    /\ (length groups <= 2)%nat.
Proof.
  apply (frames_come_request_by_request sample_loads open_ws
           [ (MsgText empty_prompt_text, world_printing good_reply_text);
             (MsgText hi_prompt_text, world_printing good_reply_text) ] fresh (Returns tt)).
  vm_compute. reflexivity.
Defined.

(** A send cancelled in the middle of the first request ends the
    connection quietly; the second message is never handled. *)
Example cancelled_connection :
  websocket_handler sample_loads cancelled_ws
    [ (MsgText hi_prompt_text, world_printing good_reply_text);
      (MsgText hi_prompt_text, world_printing good_reply_text) ] fresh
  = (Returns tt,
     mk_sstate 1
       [ EvLog "Prompt"; EvLog "Phase: Consulting the mainframe..."; EvClosedCheck false;
         EvSendJson (FStatus Thinking "Consulting the mainframe...") false;
         EvLog "Connection cancelled"; EvLog "Client disconnected" ]).
Proof. vm_compute. reflexivity. Qed.

End MoreHandlerInstances.

Section CliInstances.
Import Py Glados Cli MoreSamples.

Lemma no_play_never_starts_player_witness :
  plays (out (snd (main cli_world_ok (mk_args (Some "Hello"%string) false true) cli_fresh)))
  = plays (out cli_fresh).
Proof.
  apply (no_play_never_starts_player cli_world_ok
           (mk_args (Some "Hello"%string) false true) cli_fresh);
    reflexivity.
Defined.

Lemma ai_mode_speaks_the_reply_witness :
  let s' := snd (main cli_world_ok (mk_args (Some "Hello"%string) true true) cli_fresh) in
  Synthesize "Oh. It is you." ∈ out s'
  /\ Typewriter "Oh. It is you." ∈ out s'
  /\ plays (out s') = true.
Proof.
  apply (ai_mode_speaks_the_reply cli_world_ok (mk_args (Some "Hello"%string) true true)
           cli_fresh
           (snd (main cli_world_ok (mk_args (Some "Hello"%string) true true) cli_fresh))
           (mk_completed "  Oh. It is you.  " ""));
    reflexivity.
Defined.

(** Without the responder's program the spinner is never stopped. *)
Example spinner_left_running :
  spinner_running
    (out (snd (main cli_world_no_claude (mk_args (Some "Hello"%string) true false)
                 cli_fresh)))
  = true.
Proof. reflexivity. Qed.

(** White space is told by the character, not by the byte: the
    ideographic space is stripped, the last byte of U+1F605 is not. *)
Example strip_by_character :
  strip (utf8 12288 ++ "a" ++ utf8 160 ++ utf8 8195) = "a"%string
  /\ strip smiling_reply = (String.substring 1 8 smiling_reply)
  /\ len (strip smiling_reply) = 5%nat
  /\ chosen_text cli_world_wide_blank_pipe (mk_args None false false) = ""%string.
Proof. vm_compute. repeat split. Qed.

(** A blank pipe makes the program synthesize the empty text. *)
Example blank_pipe_speaks_nothing :
  Synthesize "" ∈ out (snd (main cli_world_blank_pipe (mk_args None false true) cli_fresh)).
Proof. vm_compute. apply list_elem_of_In. simpl. tauto. Qed.

(** A model file that cannot be read leaves nothing cached. *)
Example failed_load_not_cached :
  loaded (snd (get_models cli_world_bad_model cli_fresh)) = None.
Proof. reflexivity. Qed.

End CliInstances.
